(** * LLM-TXT: fetch orchestration core and pricing classifier

    A shallow embedding of the Farcaster connector of the repository:
    - [src/sdk/src/config.ts]   : the client (free-tier classifier, pricing
      fingerprint, query-string builder, [LlmFidClient]);
    - [src/server/src/index.ts] : the worker (TTL cache, [RateLimiter],
      [resolveFid], [fetchCasts], the HTTP handler).

    Conventions of the embedding.
    - A JavaScript [number] that holds a count, an id or a timestamp is a [Z];
      non-integral numbers and [NaN] are outside the model unless said
      otherwise.
    - An optional field [x?: T] is an [option T]; [undefined] is [None].
    - A promise that may reject is an [Outcome]: [Ok v] or [Throw e].
    - Mutable module-level objects (the cache, the rate limiter windows, the
      estimate cache) are passed explicitly; [Date.now()] readings and the
      network are inputs. *)

From Stdlib Require Import Ascii String.
From stdpp Require Import gmap strings list pretty.

Open Scope Z_scope.
Set Warnings "-register-all".

(* ===================================================================== *)
(** * Part I. The embedding                                               *)
(* ===================================================================== *)

(** ** JavaScript idioms used by the sources *)
Module JS.

  (** Values thrown by the sources: [Error] objects (with their [name] and
      [message]) or some other value. *)
Inductive Exn : Type :=
  | ErrorObj (name message : string)
  | NonError.

  (** [new Error(msg)] *)
Definition Error (message : string) : Exn := ErrorObj "Error" message.

Definition exn_name (e : Exn) : option string :=
  match e with ErrorObj n _ => Some n | NonError => None end.

  (** The result of awaiting a promise. *)
Inductive Outcome (A : Type) : Type :=
  | Ok (a : A)
  | Throw (e : Exn).
Arguments Ok {A} a.
Arguments Throw {A} e.

Definition bind {A B} (m : Outcome A) (k : A → Outcome B) : Outcome B :=
  match m with Ok a => k a | Throw e => Throw e end.

  (** [try { body } catch (err) { handler(err) }] *)
Definition try_catch {A} (body : Outcome A) (handler : Exn → Outcome A) : Outcome A :=
  match body with Ok a => Ok a | Throw e => handler e end.

  (** [Promise.all(ps)]: resolves with every value, in order, and rejects as
      soon as one of the promises rejects. *)
Fixpoint Promise_all {A} (ps : list (Outcome A)) : Outcome (list A) :=
  match ps with
  | [] => Ok []
  | p :: ps' => bind p (λ a, bind (Promise_all ps') (λ rest, Ok (a :: rest)))
  end.

  (** Truthiness of an optional boolean: [if (o.flag)]. *)
Definition truthy (b : option bool) : bool :=
  match b with Some true => true | _ => false end.

  (** Truthiness of an optional number: [undefined] and [0] are falsy. *)
Definition truthyZ (n : option Z) : bool :=
  match n with Some z => negb (z =? 0) | None => false end.

  (** Truthiness of an optional string: [undefined] and the empty string are falsy. *)
Definition truthyS (s : option string) : bool :=
  match s with Some EmptyString => false | Some _ => true | None => false end.

  (** [n || d] on an optional number. *)
Definition orZ (n : option Z) (d : Z) : Z :=
  match n with Some z => if z =? 0 then d else z | None => d end.

  (** [s || d] on an optional string. *)
Definition orS (s : option string) (d : string) : string :=
  match s with Some EmptyString => d | Some s' => s' | None => d end.

  (** [Number.prototype.toString()] on an integer. *)
Definition toString (n : Z) : string := pretty n.

  (** [parts.join(sep)] *)
Definition join (sep : string) (parts : list string) : string := String.concat sep parts.

  (** [String.prototype.toLowerCase()] on the ASCII letters. *)
Definition lower_ascii (c : ascii) : ascii :=
  let n := nat_of_ascii c in
  if ((65 <=? n) && (n <=? 90))%nat then ascii_of_nat (n + 32) else c.

Fixpoint toLowerCase (s : string) : string :=
  match s with
  | EmptyString => EmptyString
  | String c s' => String (lower_ascii c) (toLowerCase s')
  end.

  (** [s.replace(/^@/, "")] *)
Definition strip_at (s : string) : string :=
  match s with
  | String c s' => if Ascii.eqb c "@" then s' else s
  | EmptyString => EmptyString
  end.

  (** [arr.slice(0, k)] for an integer [k]: a negative [k] counts from the end. *)
Definition slice0 {A} (k : Z) (l : list A) : list A :=
  if k <? 0 then take (Z.to_nat (Z.of_nat (length l) + k)) l
  else take (Z.to_nat k) l.

End JS.
Import JS.

(** ** [src/shared/src/types/farcaster.ts] *)
Module Shared.

Inductive SortOrder : Type := newest | oldest.

Record FarcasterQueryParams : Type := {
  fid : option Z;
  username : option string;
  limit : option Z;
  sortOrder : option SortOrder;
  includeReplies : option bool;
  all : option bool;
  includeReactions : option bool;
  includeParents : option bool;
}.

Record FarcasterUser : Type := {
  user_fid : Z;
  user_username : string;
  displayName : string;
  bio : string;
  pfp : string;
  url : string;
  location : string;
  twitter : string;
  github : string;
}.

Record Embed : Type := { embed_type : string; embed_url : option string }.

Record Reactions : Type := { likes : Z; recasts : Z }.

  (** The values that a property of an object of the worker can hold: a
      cast object, a string, [undefined], the [author], the [embeds] or
      [attachments] and the [reactions] of a cast, [Object.prototype] and
      the functions that it carries. *)
Inductive Value (Cast : Type) : Type :=
  | VUndefined
  | VObject (cast : Cast)
  | VString (s : string)
  | VAuthor (fid : Z) (username : string)
  | VEmbeds (es : list Embed)
  | VReactions (r : Reactions)
  | VObjectPrototype
  | VFunction (name : string).
Arguments VUndefined {Cast}.
Arguments VObject {Cast} cast.
Arguments VString {Cast} s.
Arguments VAuthor {Cast} fid username.
Arguments VEmbeds {Cast} es.
Arguments VReactions {Cast} r.
Arguments VObjectPrototype {Cast}.
Arguments VFunction {Cast} name.

  (** [interface FarcasterCast]. The field [parentCast?: FarcasterCast] is
      declared to hold a cast; at run time it holds whatever
      [parentMap[c.parentHash]] evaluated to when [fetchCasts] assigned it. *)
Inductive FarcasterCast : Type := mkCast {
  hash : string;
  threadHash : string;
  parentHash : option string;
  parentCast : option (Value FarcasterCast);
  author_fid : Z;
  author_username : string;
  text : string;
  timestamp : string;
  attachments : list Embed;
  embeds : list Embed;
  reactions : Reactions;
}.

End Shared.
Import Shared.

(** ** [src/sdk/src/config.ts]: the client *)
Module Sdk.

  (** [export type FetchOptions = FarcasterQueryParams] *)
Abbreviation FetchOptions := FarcasterQueryParams.

  (** [const FREE_TIER = { maxLimit: 10 }] *)
Definition FREE_TIER_maxLimit : Z := 10.

  (** [function isFreeTier(options)] *)
Definition isFreeTier (options : FetchOptions) : bool :=
  let limit := orZ (limit options) 50 in
  if FREE_TIER_maxLimit <? limit then false
  else if truthy (all options) then false
  else if truthy (includeReplies options) then false
  else if truthy (includeParents options) then false
  else true.

  (** [function getPricingFingerprint(options)] *)
Definition getPricingFingerprint (options : FetchOptions) : string :=
  let parts := [
    orS (toString <$> fid options) (orS (username options) "");
    if truthy (all options) then "all" else toString (orZ (limit options) 50);
    if truthy (includeReplies options) then "r" else "";
    if truthy (includeParents options) then "p" else "";
    if truthy (includeReactions options) then "x" else ""
  ] in
  join "|" parts.

  (** [function buildQueryString(options)]: the entries that are [set] on
      the fresh [URLSearchParams], in order (all keys are distinct). *)
Definition queryEntries (options : FetchOptions) : list (string * string) :=
  (if truthyZ (fid options) then [("fid", toString (default 0 (fid options)))] else []) ++
  (if truthyS (username options)
   then [("username", strip_at (toLowerCase (default "" (username options))))] else []) ++
  (if truthyZ (limit options) && negb (truthy (all options))
   then [("limit", toString (default 0 (limit options)))] else []) ++
  (if truthy (all options) then [("all", "true")] else []) ++
  (if truthy (includeReplies options) then [("includeReplies", "true")] else []) ++
  (if truthy (includeParents options) then [("includeParents", "true")] else []) ++
  (match sortOrder options with Some oldest => [("sortOrder", "oldest")] | _ => [] end) ++
  (if truthy (includeReactions options) then [("includeReactions", "true")] else []).

  (** [interface ServerEstimate] *)
Record ServerEstimate : Type := {
  price : string;
  isFree : bool;
  castCount : option Z;
}.

  (** [interface FetchResult] *)
Record FetchResult : Type := { result_text : string; result_status : Z }.

  (** A [Response] of the Fetch API, as far as the client reads it:
      [resp_json = None] is a body on which [response.json()] rejects. *)
Record Response : Type := {
  resp_status : Z;
  resp_text : string;
  resp_json : option ServerEstimate;
}.

  (** [response.ok] *)
Definition resp_ok (r : Response) : bool :=
  (200 <=? resp_status r) && (resp_status r <=? 299).

  (** The network seen from the client: the urls requested so far. *)
Definition World : Type := list string.

  (** [type FetchFn]: a transport takes a url, and returns a response or
      rejects; the requests it issues are recorded on the world. *)
Definition FetchFn : Type := string → World → Outcome Response * World.

  (** [interface EvmSigner] *)
Record EvmSigner : Type := {
  address : string;
  signTypedData : string → Outcome string;
}.

  (** [interface LlmFidConfig] *)
Record LlmFidConfig : Type := {
  cfg_baseUrl : option string;
  cfg_timeout : option Z;
  cfg_signer : option EvmSigner;
  cfg_fetch : option FetchFn;
}.

Definition DEFAULT_TIMEOUT : Z := 255000.
Definition ESTIMATE_CACHE_TTL : Z := 60000.

  (** The private fields of [class LlmFidClient]. *)
Record LlmFidClient : Type := {
  baseUrl : string;
  timeout : Z;
  fetchFn : FetchFn;
  baseFetchFn : FetchFn;
  hasSigner : bool;
}.

  (** An entry of [estimateCache]. *)
Record EstimateSlot : Type := { slot_estimate : ServerEstimate; slot_timestamp : Z }.

Section Client.

  (** [URLSearchParams.prototype.toString()] (platform). *)
Variable URLSearchParams_toString : list (string * string) → string.
  (** [wrapFetchWithPayment(baseFetch, client)] of the x402 library, with
      the client on which [signer] was registered. *)
Variable wrapFetchWithPayment : FetchFn → EvmSigner → FetchFn.
  (** [globalThis.fetch] (platform). *)
Variable globalThis_fetch : FetchFn.
  (** [getDefaultBaseUrl()], which reads the environment. *)
Variable DEFAULT_BASE_URL : string.

Definition buildQueryString (options : FetchOptions) : string :=
  URLSearchParams_toString (queryEntries options).

  (** [function createPaymentFetch(baseFetch, signer)] *)
Definition createPaymentFetch (baseFetch : FetchFn) (signer : EvmSigner) : FetchFn :=
  wrapFetchWithPayment baseFetch signer.

  (** [constructor(config: LlmFidConfig = {})] *)
Definition new_LlmFidClient (config : LlmFidConfig) : LlmFidClient :=
  let base := default globalThis_fetch (cfg_fetch config) in
  {| baseUrl := orS (cfg_baseUrl config) DEFAULT_BASE_URL;
     timeout := orZ (cfg_timeout config) DEFAULT_TIMEOUT;
     hasSigner := bool_decide (is_Some (cfg_signer config));
     baseFetchFn := base;
     fetchFn := match cfg_signer config with
                | Some signer => createPaymentFetch base signer
                | None => base
                end |}.

  (** [async fetch(options)]. The abort timer is part of the transport: a
      request that outlives [timeout] rejects with an [AbortError]. *)
Definition fetch (c : LlmFidClient) (options : FetchOptions) (w : World)
    : Outcome FetchResult * World :=
  if negb (truthyZ (fid options)) && negb (truthyS (username options))
  then (Throw (Error "Either fid or username is required"), w)
  else
    let queryString := buildQueryString options in
    let url := baseUrl c +:+ "?" +:+ queryString in
    match fetchFn c url w with
    | (Ok response, w') =>
        (Ok {| result_text := resp_text response;
               result_status := resp_status response |}, w')
    | (Throw error, w') =>
        if bool_decide (exn_name error = Some "AbortError")
        then (Throw (Error "Request timed out. Try reducing the number of posts or disable 'Fetch All'."), w')
        else (Throw error, w')
    end.

  (** [getUrl(options)] *)
Definition getUrl (c : LlmFidClient) (options : FetchOptions) : string :=
  baseUrl c +:+ "?" +:+ buildQueryString options.

  (** [await response.json()] *)
Definition json (r : Response) : Outcome ServerEstimate :=
  match resp_json r with
  | Some estimate => Ok estimate
  | None => Throw (ErrorObj "SyntaxError" "Unexpected token in JSON")
  end.

  (** The [try { ... } catch { return null; }] block of [getServerEstimate]. *)
Definition estimate_request (c : LlmFidClient) (options : FetchOptions)
    (fingerprint : string) (now_store : Z)
    (estimateCache : gmap string EstimateSlot) (w : World)
    : Outcome (option ServerEstimate) * gmap string EstimateSlot * World :=
  let queryString := buildQueryString options in
  let '(fetched, w') := baseFetchFn c (baseUrl c +:+ "/estimate?" +:+ queryString) w in
  let body : Outcome (option ServerEstimate * gmap string EstimateSlot) :=
    bind fetched (λ response,
      if negb (resp_ok response) then Ok (None, estimateCache)
      else bind (json response) (λ estimate,
        Ok (Some estimate,
            <[fingerprint := {| slot_estimate := estimate;
                                slot_timestamp := now_store |}]> estimateCache))) in
  match try_catch body (λ _, Ok (None, estimateCache)) with
  | Ok (result, cache') => (Ok result, cache', w')
  | Throw e => (Throw e, estimateCache, w')
  end.

  (** [async getServerEstimate(options)]. [now_check] and [now_store] are the
      two readings of [Date.now()]; the estimate cache is threaded. *)
Definition getServerEstimate (c : LlmFidClient) (options : FetchOptions)
    (now_check now_store : Z) (estimateCache : gmap string EstimateSlot) (w : World)
    : Outcome (option ServerEstimate) * gmap string EstimateSlot * World :=
  if isFreeTier options
  then (Ok (Some {| price := "$0"; isFree := true; castCount := None |}), estimateCache, w)
  else
    let fingerprint := getPricingFingerprint options in
    let cached := estimateCache !! fingerprint in
    match cached with
    | Some slot =>
        if now_check - slot_timestamp slot <? ESTIMATE_CACHE_TTL
        then (Ok (Some (slot_estimate slot)), estimateCache, w)
        else estimate_request c options fingerprint now_store estimateCache w
    | None => estimate_request c options fingerprint now_store estimateCache w
    end.

End Client.
End Sdk.

(** ** [src/server/src/index.ts]: the worker *)
Module Server.

(** *** The TTL cache *)

  (** An entry of [cache]: [{ data, expiry }]. *)
Record CacheItem (T : Type) : Type := { data : T; expiry : Z }.
Arguments data {T} _.
Arguments expiry {T} _.

  (** [function getCached<T>(key)], with [now] the reading of [Date.now()].
      Returns the value read and the cache after the call. *)
Definition getCached {T} (now : Z) (key : string) (cache : gmap string (CacheItem T))
    : option T * gmap string (CacheItem T) :=
  match cache !! key with
  | Some item =>
      if expiry item <? now then (None, delete key cache)
      else (Some (data item), cache)
  | None => (None, delete key cache)
  end.

  (** [function setCache<T>(key, data, ttl = 60000)] *)
Definition setCache {T} (now : Z) (key : string) (d : T) (ttl : option Z)
    (cache : gmap string (CacheItem T)) : gmap string (CacheItem T) :=
  <[key := {| data := d; expiry := now + default 60000 ttl |}]> cache.

(** *** The rate limiter *)

Definition ENDPOINT_LIMIT : Z := 250.
Definition GLOBAL_LIMIT : Z := 450.
Definition WINDOW_MS : Z := 60000.

  (** The private fields of [class RateLimiter]. *)
Record RateLimiter : Type := {
  endpointRequests : gmap string (list Z);
  globalRequests : list Z;
}.

Definition new_RateLimiter : RateLimiter :=
  {| endpointRequests := ∅; globalRequests := [] |}.

  (** [cleanOldRequests(requests)], with [now] its own reading of [Date.now()]. *)
Definition cleanOldRequests (now : Z) (requests : list Z) : list Z :=
  filter (λ timestamp, now - timestamp < WINDOW_MS) requests.

  (** The three readings of [Date.now()] of one pass through [waitForSlot]:
      at its first line, and inside the two calls of [cleanOldRequests]. *)
Record Ticks : Type := {
  t_now : Z;
  t_clean_global : Z;
  t_clean_endpoint : Z;
}.

  (** One pass through the body of [waitForSlot] either records the request
      and returns, or sleeps for [waitTime] and calls [waitForSlot] again. *)
Inductive SlotResult : Type :=
  | Granted (rl : RateLimiter)
  | Suspended (waitTime : Z) (rl : RateLimiter).

  (** The body of [async waitForSlot(endpoint)] up to its first [await]: it
      runs without interruption between the reading of [now] and either the
      recording of the request or the suspension. *)
Definition waitForSlot_pass (rl : RateLimiter) (endpoint : string) (ticks : Ticks)
    : SlotResult :=
  let now := t_now ticks in
  let globalReqs := cleanOldRequests (t_clean_global ticks) (globalRequests rl) in
  let endpointReqs :=
    cleanOldRequests (t_clean_endpoint ticks)
                     (default [] (endpointRequests rl !! endpoint)) in
  let cleaned := {| endpointRequests := <[endpoint := endpointReqs]> (endpointRequests rl);
                    globalRequests := globalReqs |} in
  let globalCount := Z.of_nat (length globalReqs) in
  let endpointCount := Z.of_nat (length endpointReqs) in
  if (GLOBAL_LIMIT <=? globalCount) || (ENDPOINT_LIMIT <=? endpointCount) then
    let relevantRequests :=
      if GLOBAL_LIMIT <=? globalCount then globalReqs else endpointReqs in
    match relevantRequests with
    | oldestRequest :: _ =>
        if oldestRequest =? 0 then Suspended 1000 cleaned
        else Suspended (WINDOW_MS - (now - oldestRequest) + 100) cleaned
    | [] => Suspended 1000 cleaned
    end
  else
    Granted {| endpointRequests :=
                 <[endpoint := endpointReqs ++ [now]]> (endpointRequests cleaned);
               globalRequests := globalReqs ++ [now] |}.

  (** The limiter is shared by all requests of the process. Since a pass is
      not interrupted, every execution is a sequence of passes, by any
      callers, on any endpoints. *)
Record Pass : Type := { pass_endpoint : string; pass_ticks : Ticks }.

Definition limiter_of (r : SlotResult) : RateLimiter :=
  match r with Granted rl => rl | Suspended _ rl => rl end.

  (** The requests a pass records: [(endpoint, now)] when it admits. *)
Definition recorded (endpoint : string) (ticks : Ticks) (r : SlotResult)
    : list (string * Z) :=
  match r with Granted _ => [(endpoint, t_now ticks)] | Suspended _ _ => [] end.

  (** [run rl log passes]: the limiter after the passes, and [log] extended
      with every request that was admitted, in order. *)
Fixpoint run (rl : RateLimiter) (log : list (string * Z)) (passes : list Pass)
    : RateLimiter * list (string * Z) :=
  match passes with
  | [] => (rl, log)
  | p :: passes' =>
      let r := waitForSlot_pass rl (pass_endpoint p) (pass_ticks p) in
      run (limiter_of r) (log ++ recorded (pass_endpoint p) (pass_ticks p) r) passes'
  end.

  (** The clock does not go backwards: the readings of the passes, taken in
      order, are non-decreasing from [t0] on. *)
Fixpoint monotone_clock (t0 : Z) (passes : list Pass) : Prop :=
  match passes with
  | [] => True
  | p :: passes' =>
      let k := pass_ticks p in
      t0 ≤ t_now k ∧ t_now k ≤ t_clean_global k ∧
      t_clean_global k ≤ t_clean_endpoint k ∧
      monotone_clock (t_clean_endpoint k) passes'
  end.

  (** [waitForSlot(endpoint)] for one caller of the shared limiter. Each
      element of [clock] holds the readings of one pass of the caller and
      the passes that other callers run while the caller sleeps after it.
      The call returns when a pass of the caller records its request;
      [None]: the caller is still suspended when the readings end. As in
      [run], [log] lists the requests admitted so far. *)
Fixpoint waitForSlot (rl : RateLimiter) (log : list (string * Z)) (endpoint : string)
    (clock : list (Ticks * list Pass)) : option (RateLimiter * list (string * Z)) :=
  match clock with
  | [] => None
  | (ticks, others) :: clock' =>
      let r := waitForSlot_pass rl endpoint ticks in
      match r with
      | Granted rl' => Some (rl', log ++ recorded endpoint ticks r)
      | Suspended _ rl' =>
          let '(rl'', log') := run rl' log others in
          waitForSlot rl'' log' endpoint clock'
      end
  end.

  (** The passes of an execution in which one caller calls [waitForSlot]:
      its own passes and those of the other callers, in order. *)
Definition interleaving (endpoint : string) (clock : list (Ticks * list Pass)) : list Pass :=
  concat ((λ step, {| pass_endpoint := endpoint; pass_ticks := step.1 |} :: step.2) <$> clock).

  (** The last reading of the clock. *)
Fixpoint last_tick (t0 : Z) (passes : list Pass) : Z :=
  match passes with
  | [] => t0
  | p :: passes' => last_tick (t_clean_endpoint (pass_ticks p)) passes'
  end.

  (** The admitted requests of [log] whose timestamp lies in the trailing
      window at time [t] (the test of [cleanOldRequests]), for one endpoint
      and globally. *)
Definition in_window (t : Z) (timestamps : list Z) : list Z :=
  filter (λ timestamp, t - timestamp < WINDOW_MS) timestamps.

Definition endpoint_log (endpoint : string) (log : list (string * Z)) : list Z :=
  (filter (λ entry, entry.1 = endpoint) log).*2.

Definition global_log (log : list (string * Z)) : list Z := log.*2.

(** *** The provider *)

  (** The objects of the Neynar SDK, as far as the worker reads them. *)
Record RawUser : Type := {
  raw_fid : Z;
  raw_username : string;
  display_name : option string;
  profile_bio_text : option string;
  pfp_url : option string;
}.

Record RawEmbed : Type := { raw_url : option string }.

Record RawCast : Type := {
  raw_hash : string;
  thread_hash : string;
  parent_hash : option string;
  raw_author_fid : Z;
  raw_author_username : option string;
  raw_text : string;
  raw_timestamp : string;
  raw_embeds : option (list RawEmbed);
  likes_count : option Z;
  recasts_count : option Z;
}.

  (** [client: NeynarAPIClient]. The feed of a user is a fixed chain of
      pages, newest first: [fetchCastsForUser fid includeReplies] lists the
      outcomes of the successive page requests, the response to a request
      carrying a [next.cursor] exactly when a further page follows it. The
      cursor itself is opaque and only forwarded. *)
Record NeynarAPIClient : Type := {
  lookupUserByUsername : string → Outcome (option RawUser);
  fetchBulkUsers : list Z → Outcome (list RawUser);
  fetchCastsForUser : Z → bool → list (Outcome (list RawCast));
  lookupCastByHashOrUrl : string → Outcome (option RawCast);
}.

(** *** Identifier resolution *)

  (** [async function resolveFid(username)]; [now_get] and [now_set] are the
      readings of [Date.now()] in [getCached] and [setCache]. *)
Definition resolveFid (client : NeynarAPIClient) (username : string)
    (now_get now_set : Z) (cache : gmap string (CacheItem Z))
    : Outcome Z * gmap string (CacheItem Z) :=
  let normalized := strip_at (toLowerCase username) in
  let '(cached, cache1) := getCached now_get ("fid:" +:+ normalized) cache in
  if truthyZ cached then (Ok (default 0 cached), cache1)
  else
    match lookupUserByUsername client normalized with
    | Throw e => (Throw e, cache1)
    | Ok user =>
        if negb (truthyZ (raw_fid <$> user))
        then (Throw (Error ("User not found: " +:+ username)), cache1)
        else
          let fid := default 0 (raw_fid <$> user) in
          (Ok fid, setCache now_set ("fid:" +:+ normalized) fid (Some 300000) cache1)
    end.

(** *** Transformations *)

  (** [function transformUser(u)] *)
Definition transformUser (u : RawUser) : FarcasterUser :=
  {| user_fid := raw_fid u;
     user_username := raw_username u;
     displayName := orS (display_name u) "";
     bio := orS (profile_bio_text u) "";
     pfp := orS (pfp_url u) "";
     url := "";
     location := "";
     twitter := "";
     github := "" |}.

  (** [function transformCast(c)] *)
Definition transformCast (c : RawCast) : FarcasterCast :=
  {| hash := raw_hash c;
     threadHash := thread_hash c;
     parentHash := if truthyS (parent_hash c) then parent_hash c else None;
     parentCast := None;
     author_fid := raw_author_fid c;
     author_username := orS (raw_author_username c) "";
     text := raw_text c;
     timestamp := raw_timestamp c;
     attachments := [];
     embeds := match raw_embeds c with
               | Some es => (λ e, {| embed_type := "url"; embed_url := raw_url e |}) <$> es
               | None => []
               end;
     reactions := {| likes := orZ (likes_count c) 0;
                     recasts := orZ (recasts_count c) 0 |} |}.

  (** [c.parentCast = p] *)
Definition set_parentCast (c : FarcasterCast) (p : Value FarcasterCast) : FarcasterCast :=
  {| hash := hash c; threadHash := threadHash c; parentHash := parentHash c;
     parentCast := Some p;
     author_fid := author_fid c; author_username := author_username c;
     text := text c; timestamp := timestamp c; attachments := attachments c;
     embeds := embeds c; reactions := reactions c |}.

(** *** Pagination *)

  (** [const limit = fetchAll ? Infinity : (Number(params.limit) || 50)] *)
Inductive Limit : Type := Infinity | Finite (n : Z).

Definition below (len : nat) (limit : Limit) : bool :=
  match limit with Infinity => true | Finite n => Z.of_nat len <? n end.

  (** [(res.casts || []).filter(...).map(transformCast)] *)
Definition retained (includeReplies : bool) (casts : list RawCast) : list FarcasterCast :=
  transformCast <$> filter (λ c, includeReplies || negb (truthyS (parent_hash c))) casts.

  (** The [do { ... } while (cursor && (fetchAll || allCasts.length < limit))]
      loop of [fetchCasts], entered with the pages that remain to be served
      and the casts accumulated so far. A rejected page request rejects the
      whole loop. The call of [rateLimiter.waitForSlot] that precedes each
      request only delays it and is no part of the value computed. *)
Fixpoint paginate (fetchAll : bool) (limit : Limit) (includeReplies : bool)
    (pages : list (Outcome (list RawCast))) (allCasts : list FarcasterCast)
    : Outcome (list FarcasterCast) :=
  match pages with
  | [] => Ok allCasts
  | res :: rest =>
      bind res (λ casts,
        let allCasts' := allCasts ++ retained includeReplies casts in
        let cursor := match rest with [] => false | _ => true end in
        if cursor && (fetchAll || below (length allCasts') limit)
        then paginate fetchAll limit includeReplies rest allCasts'
        else Ok allCasts')
  end.

(** *** Parent resolution *)

  (** [[...new Set(hashes)]]: the distinct hashes, in order of first occurrence. *)
Fixpoint distinct (seen : list string) (hashes : list string) : list string :=
  match hashes with
  | [] => []
  | h :: hashes' =>
      if bool_decide (h ∈ seen) then distinct seen hashes'
      else h :: distinct (h :: seen) hashes'
  end.

  (** [allCasts.map((c) => c.parentHash).filter(Boolean)] *)
Definition referenced (allCasts : list FarcasterCast) : list string :=
  omap (λ c, if truthyS (parentHash c) then parentHash c else None) allCasts.

  (** [for (let i = 0; i < parentHashes.length; i += batchSize)
        parentHashes.slice(i, i + batchSize)] *)
Fixpoint batches (fuel : nat) (batchSize : nat) (hashes : list string)
    : list (list string) :=
  match fuel, hashes with
  | S fuel', _ :: _ => take batchSize hashes :: batches fuel' batchSize (drop batchSize hashes)
  | _, _ => []
  end.

  (** The [async (hash) => { try { ... } catch (err) { ... } }] of a batch.
      The call of [rateLimiter.waitForSlot] inside the [try] only delays the
      lookup. *)
Definition lookupParent (client : NeynarAPIClient) (hash : string)
    : Outcome (string * option FarcasterCast) :=
  try_catch
    (bind (lookupCastByHashOrUrl client hash)
          (λ res, Ok (hash, transformCast <$> res)))
    (λ err, Ok (hash, None)).

  (** [const parentMap: Record<string, FarcasterCast> = {}]: a plain object
      used as a map. It has the own properties that the assignments
      [parentMap[hash] = cast] create, and a prototype: [Object.prototype]
      ([None]) until an assignment to [parentMap["__proto__"]] replaces it
      by the cast assigned. *)
Record ParentMap : Type := {
  own_props : gmap string FarcasterCast;
  prototype : option FarcasterCast;
}.

  (** [{}] *)
Definition empty_object : ParentMap := {| own_props := ∅; prototype := None |}.

  (** The data properties of [Object.prototype], all of them functions;
      [__proto__] is its one accessor property. *)
Definition Object_prototype_names : list string :=
  [ "constructor"; "hasOwnProperty"; "isPrototypeOf"; "propertyIsEnumerable";
    "toLocaleString"; "toString"; "valueOf";
    "__defineGetter__"; "__defineSetter__"; "__lookupGetter__"; "__lookupSetter__" ].

  (** The own properties of a cast object: the keys of the object literal
      of [transformCast], and [parentCast] once it is assigned. *)
Definition cast_property (p : FarcasterCast) (key : string) : option (Value FarcasterCast) :=
  if String.eqb key "hash" then Some (VString (hash p))
  else if String.eqb key "threadHash" then Some (VString (threadHash p))
  else if String.eqb key "parentHash"
  then Some (match parentHash p with Some h => VString h | None => VUndefined end)
  else if String.eqb key "author" then Some (VAuthor (author_fid p) (author_username p))
  else if String.eqb key "text" then Some (VString (text p))
  else if String.eqb key "timestamp" then Some (VString (timestamp p))
  else if String.eqb key "attachments" then Some (VEmbeds (attachments p))
  else if String.eqb key "embeds" then Some (VEmbeds (embeds p))
  else if String.eqb key "reactions" then Some (VReactions (reactions p))
  else if String.eqb key "parentCast" then parentCast p
  else None.

  (** [parentMap[key]]: an own property, or else a property inherited from
      the prototype chain, which ends in [Object.prototype]; the getter of
      [__proto__] returns the prototype of [parentMap]. *)
Definition object_get (parentMap : ParentMap) (key : string) : Value FarcasterCast :=
  match own_props parentMap !! key with
  | Some cast => VObject cast
  | None =>
      match prototype parentMap ≫= (λ p, cast_property p key) with
      | Some v => v
      | None =>
          if String.eqb key "__proto__"
          then match prototype parentMap with
               | Some p => VObject p
               | None => VObjectPrototype
               end
          else if bool_decide (key ∈ Object_prototype_names) then VFunction key
          else VUndefined
      end
  end.

  (** [parentMap[key] = cast]: the setter of [__proto__] replaces the
      prototype; every other key becomes an own property. *)
Definition object_set (parentMap : ParentMap) (key : string) (cast : FarcasterCast)
    : ParentMap :=
  if String.eqb key "__proto__"
  then {| own_props := own_props parentMap; prototype := Some cast |}
  else {| own_props := <[key := cast]> (own_props parentMap);
          prototype := prototype parentMap |}.

  (** Truthiness of a value: [undefined] and the empty string are falsy. *)
Definition truthyV (v : Value FarcasterCast) : bool :=
  match v with
  | VUndefined => false
  | VString EmptyString => false
  | _ => true
  end.

  (** [results.forEach(([hash, cast]) => { if (cast) parentMap[hash] = cast; })] *)
Definition mergeResults (parentMap : ParentMap)
    (results : list (string * option FarcasterCast)) : ParentMap :=
  foldl (λ m r, match r.2 with Some cast => object_set m r.1 cast | None => m end)
        parentMap results.

  (** The loop over the batches: each batch is awaited as a whole
      ([Promise.all]) before the next one starts. *)
Fixpoint resolveBatches (client : NeynarAPIClient) (bs : list (list string))
    (parentMap : ParentMap) : Outcome ParentMap :=
  match bs with
  | [] => Ok parentMap
  | batch :: bs' =>
      bind (Promise_all (lookupParent client <$> batch))
           (λ results, resolveBatches client bs' (mergeResults parentMap results))
  end.

  (** [if (c.parentHash && parentMap[c.parentHash]) c.parentCast = parentMap[c.parentHash]] *)
Definition attachParent (parentMap : ParentMap) (c : FarcasterCast) : FarcasterCast :=
  if truthyS (parentHash c) && truthyV (object_get parentMap (default "" (parentHash c)))
  then set_parentCast c (object_get parentMap (default "" (parentHash c)))
  else c.

  (** The [if (includeParents) { ... }] block of [fetchCasts]. *)
Definition resolveParents (client : NeynarAPIClient) (allCasts : list FarcasterCast)
    : Outcome (list FarcasterCast) :=
  let parentHashes := distinct [] (referenced allCasts) in
  let batchSize := 25%nat in
  bind (resolveBatches client (batches (length parentHashes) batchSize parentHashes)
                       empty_object)
       (λ parentMap, Ok (attachParent parentMap <$> allCasts)).

  (** [async function fetchCasts(fid, params)] *)
Definition fetchCasts (client : NeynarAPIClient) (fid : Z) (params : FarcasterQueryParams)
    : Outcome (list FarcasterCast) :=
  let fetchAll := truthy (all params) in
  let limit := if fetchAll then Infinity else Finite (orZ (Shared.limit params) 50) in
  let includeReplies := truthy (Shared.includeReplies params) in
  let includeParents := truthy (Shared.includeParents params) in
  let sortOrder := default newest (Shared.sortOrder params) in
  bind (paginate fetchAll limit includeReplies
                 (fetchCastsForUser client fid includeReplies) [])
    (λ fetched,
      let sorted := match sortOrder with oldest => reverse fetched | newest => fetched end in
      bind (if includeParents then resolveParents client sorted else Ok sorted)
        (λ allCasts,
          Ok (match limit with
              | Infinity => allCasts
              | Finite n => slice0 n allCasts
              end))).

(** *** The request *)

  (** [FarcasterResponse & { params?: FarcasterQueryParams }] *)
Record UserData : Type := {
  data_user : FarcasterUser;
  data_casts : list FarcasterCast;
  data_params : option FarcasterQueryParams;
}.

  (** [async function fetchUserData(fidOrUsername, params)] *)
Definition fetchUserData (client : NeynarAPIClient) (fidOrUsername : Z + string)
    (params : FarcasterQueryParams)
    (now_get now_set : Z) (cache : gmap string (CacheItem Z))
    : Outcome UserData * gmap string (CacheItem Z) :=
  let '(resolved, cache') :=
    match fidOrUsername with
    | inl n => (Ok n, cache)
    | inr name => resolveFid client name now_get now_set cache
    end in
  (bind resolved (λ fid,
     bind (fetchBulkUsers client [fid]) (λ users,
       match users with
       | [] => Throw (Error ("User not found: " +:+ toString fid))
       | u :: _ =>
           let user := transformUser u in
           bind (fetchCasts client fid params) (λ casts,
             Ok {| data_user := user; data_casts := casts; data_params := Some params |})
       end)),
   cache').

Definition nl : string := String (ascii_of_nat 10) EmptyString.

  (** The body of [casts.forEach((cast, i) => { ... })] in [formatTextOutput]. *)
Definition formatCast (includeReactions : bool) (i : nat) (cast : FarcasterCast) : string :=
  let shown := filter (λ e, truthyS (embed_url e)) (embeds cast) in
  "[" +:+ toString (Z.of_nat i + 1) +:+ "] " +:+ timestamp cast +:+ nl +:+
  (if truthyS (parentHash cast) then nl +:+ "[Reply]" +:+ nl else "") +:+
  text cast +:+ nl +:+
  (if includeReactions
   then nl +:+ "Reactions:" +:+ nl +:+
        "- Likes: " +:+ toString (likes (reactions cast)) +:+ nl +:+
        "- Recasts: " +:+ toString (recasts (reactions cast)) +:+ nl
   else "") +:+
  (match shown with
   | [] => ""
   | _ => nl +:+ "Embeds:" +:+ nl +:+
          join nl ((λ e, "- " +:+ default "" (embed_url e)) <$> shown) +:+ nl
   end) +:+
  nl +:+ "---" +:+ nl +:+ nl.

  (** [function formatTextOutput(data)] *)
Definition formatTextOutput (d : UserData) : string :=
  let user := data_user d in
  let includeReactions :=
    match data_params d with Some ps => truthy (includeReactions ps) | None => false end in
  "Farcaster User Profile" +:+ nl +:+ "===================" +:+ nl +:+ nl +:+
  "Username: " +:+ user_username user +:+ nl +:+
  "Display Name: " +:+ orS (Some (displayName user)) "N/A" +:+ nl +:+
  "FID: " +:+ toString (user_fid user) +:+ nl +:+
  (if truthyS (Some (bio user)) then "Bio: " +:+ bio user +:+ nl else "") +:+
  (if truthyS (Some (pfp user)) then "Profile Picture: " +:+ pfp user +:+ nl else "") +:+
  nl +:+ "Posts" +:+ nl +:+ "=====" +:+ nl +:+ nl +:+
  (match data_casts d with
   | [] => "No posts found." +:+ nl
   | casts => join "" (imap (formatCast includeReactions) casts)
   end).

  (** What the handler answers: [c.redirect(url)] or [c.text(body, status)]. *)
Inductive HttpResponse : Type :=
  | Redirect (target : string)
  | Text (body : string) (status : Z).

Definition http_status (r : HttpResponse) : Z :=
  match r with Redirect _ => 302 | Text _ status => status end.

Section App.

  (** [Number(s)] on a query-string value: [None] is [NaN] (platform). *)
Variable Number : string → option Z.

  (** [String(v).toLowerCase() === "true"] *)
Definition flag (v : option string) : bool :=
  bool_decide (toLowerCase (default "undefined" v) = "true").

  (** [err instanceof Error ? err.message : "Unknown"] *)
Definition message_of (err : Exn) : string :=
  match err with ErrorObj _ message => message | NonError => "Unknown" end.

  (** The parameters that the handler leaves in [q] once it has parsed them. *)
Definition parsed (q : gmap string string) (fid : option Z) : FarcasterQueryParams :=
  {| fid := fid;
     username := (λ name, if truthyS (Some name) then strip_at (toLowerCase name) else name)
                   <$> q !! "username";
     limit := q !! "limit" ≫= Number;
     sortOrder := if bool_decide (q !! "sortOrder" = Some "oldest") then Some oldest
                  else if bool_decide (q !! "sortOrder" = Some "newest") then Some newest
                  else None;
     includeReplies := Some (flag (q !! "includeReplies"));
     all := Some (flag (q !! "all"));
     includeReactions := Some (flag (q !! "includeReactions"));
     includeParents := Some (flag (q !! "includeParents")) |}.

  (** [app.get("/", async (c) => { try { ... } catch (err) { ... } })], with
      [q] the query of the request. *)
Definition app_get (client : NeynarAPIClient) (q : gmap string string)
    (now_get now_set : Z) (cache : gmap string (CacheItem Z))
    : HttpResponse * gmap string (CacheItem Z) :=
  if bool_decide (q = ∅) then (Redirect "https://llm-fid.fun", cache)
  else if negb (truthyS (q !! "fid")) && negb (truthyS (q !! "username"))
  then (Text "fid or username required" 400, cache)
  else
    let fid_checked : HttpResponse + option Z :=
      if truthyS (q !! "fid") then
        match Number (default "" (q !! "fid")) with
        | None => inl (Text "Invalid FID" 400)
        | Some n => if n <=? 0 then inl (Text "Invalid FID" 400) else inr (Some n)
        end
      else inr None in
    match fid_checked with
    | inl rejected => (rejected, cache)
    | inr fid =>
        if truthyS (q !! "limit") &&
           match Number (default "" (q !! "limit")) with
           | None => true
           | Some n => n <=? 0
           end
        then (Text "Invalid limit" 400, cache)
        else if truthyS (q !! "sortOrder") &&
                negb (bool_decide (q !! "sortOrder" ∈ [Some "newest"; Some "oldest"]))
        then (Text "Invalid sortOrder (must be 'newest' or 'oldest')" 400, cache)
        else
          let params := parsed q fid in
          let ident : Z + string :=
            match fid with
            | Some n => inl n
            | None => inr (orS (username params) "")
            end in
          let '(fetched, cache') := fetchUserData client ident params now_get now_set cache in
          match fetched with
          | Ok d => (Text (formatTextOutput d) 200, cache')
          | Throw err => (Text ("Error: " +:+ message_of err) 500, cache')
          end
    end.

End App.

End Server.

(** ** Vocabulary of the statements *)
Module Vocabulary.

  (** The request with no option set, and requests with a single identifier. *)
Definition no_options : FarcasterQueryParams :=
  {| fid := None; username := None; limit := None; sortOrder := None;
     includeReplies := None; all := None; includeReactions := None;
     includeParents := None |}.

Definition set_limit (l : option Z) (p : FarcasterQueryParams) : FarcasterQueryParams :=
  {| fid := fid p; username := username p; limit := l; sortOrder := sortOrder p;
     includeReplies := includeReplies p; all := all p;
     includeReactions := includeReactions p; includeParents := includeParents p |}.

Definition set_username (u : option string) (p : FarcasterQueryParams) : FarcasterQueryParams :=
  {| fid := fid p; username := u; limit := limit p; sortOrder := sortOrder p;
     includeReplies := includeReplies p; all := all p;
     includeReactions := includeReactions p; includeParents := includeParents p |}.

Definition set_sortOrder (o : option SortOrder) (p : FarcasterQueryParams) : FarcasterQueryParams :=
  {| fid := fid p; username := username p; limit := limit p; sortOrder := o;
     includeReplies := includeReplies p; all := all p;
     includeReactions := includeReactions p; includeParents := includeParents p |}.

Definition set_includeReplies (b : option bool) (p : FarcasterQueryParams) : FarcasterQueryParams :=
  {| fid := fid p; username := username p; limit := limit p; sortOrder := sortOrder p;
     includeReplies := b; all := all p;
     includeReactions := includeReactions p; includeParents := includeParents p |}.

Definition set_includeParents (b : option bool) (p : FarcasterQueryParams) : FarcasterQueryParams :=
  {| fid := fid p; username := username p; limit := limit p; sortOrder := sortOrder p;
     includeReplies := includeReplies p; all := all p;
     includeReactions := includeReactions p; includeParents := b |}.

Definition set_includeReactions (b : option bool) (p : FarcasterQueryParams) : FarcasterQueryParams :=
  {| fid := fid p; username := username p; limit := limit p; sortOrder := sortOrder p;
     includeReplies := includeReplies p; all := all p;
     includeReactions := b; includeParents := includeParents p |}.

Definition set_all (b : option bool) (p : FarcasterQueryParams) : FarcasterQueryParams :=
  {| fid := fid p; username := username p; limit := limit p; sortOrder := sortOrder p;
     includeReplies := includeReplies p; all := b;
     includeReactions := includeReactions p; includeParents := includeParents p |}.

  (** The effective limit of a request: [options.limit || 50]. *)
Definition effective_limit (p : FarcasterQueryParams) : Z := orZ (limit p) 50.

  (** A request with every omitted option filled with its default: the
      limit with 50, the sort order with "newest", each flag with false.
      The identifier has no default. *)
Record Filled : Type := {
  f_fid : option Z;
  f_username : option string;
  f_limit : Z;
  f_sortOrder : SortOrder;
  f_includeReplies : bool;
  f_all : bool;
  f_includeReactions : bool;
  f_includeParents : bool;
}.

Definition fill_defaults (p : FarcasterQueryParams) : Filled :=
  {| f_fid := fid p;
     f_username := username p;
     f_limit := orZ (limit p) 50;
     f_sortOrder := default newest (sortOrder p);
     f_includeReplies := truthy (includeReplies p);
     f_all := truthy (all p);
     f_includeReactions := truthy (includeReactions p);
     f_includeParents := truthy (includeParents p) |}.

  (** What a parent lookup contributes to a batch: the transformed cast when
      the provider returns one, nothing when it returns none or rejects. *)
Definition parent_of (client : Server.NeynarAPIClient) (h : string) : option FarcasterCast :=
  match Server.lookupCastByHashOrUrl client h with
  | Ok (Some raw) => Some (Server.transformCast raw)
  | Ok None => None
  | Throw _ => None
  end.

  (** A cast with its parent link set from [parents], where there is one. *)
Definition attach_by (parents : string → option FarcasterCast) (c : FarcasterCast)
    : FarcasterCast :=
  match parentHash c with
  | Some h =>
      if truthyS (Some h) then
        match parents h with
        | Some p => Server.set_parentCast c (VObject p)
        | None => c
        end
      else c
  | None => c
  end.

  (** [if (cast) parentMap[hash] = cast], for the cast that the lookup of
      [h] delivers. *)
Definition assign_found (client : Server.NeynarAPIClient) (parentMap : Server.ParentMap)
    (h : string) : Server.ParentMap :=
  match parent_of client h with
  | Some p => Server.object_set parentMap h p
  | None => parentMap
  end.

  (** The parent map once the parents of [allCasts] are resolved: the cast
      found for each distinct hash is assigned under that hash, in order of
      first occurrence. *)
Definition parentMap_for (client : Server.NeynarAPIClient) (allCasts : list FarcasterCast)
    : Server.ParentMap :=
  foldl (assign_found client) Server.empty_object
        (Server.distinct [] (Server.referenced allCasts)).

  (** A hash that names no property that a plain object inherits from
      [Object.prototype]; every hash that starts with "0x" is one. *)
Definition plain (h : string) : Prop :=
  h ∉ "__proto__" :: Server.Object_prototype_names.

  (** The items that the pages of a feed retain, newest first: the full
      history of the user when all the pages are taken. *)
Definition history (includeReplies : bool) (pages : list (list Server.RawCast))
    : list FarcasterCast :=
  concat (Server.retained includeReplies <$> pages).

  (** The primary page loop of [fetchCasts], as [fetchCasts] enters it. *)
Definition primary_fetch (client : Server.NeynarAPIClient) (fid : Z)
    (params : FarcasterQueryParams) : Outcome (list FarcasterCast) :=
  let fetchAll := truthy (all params) in
  Server.paginate fetchAll
    (if fetchAll then Server.Infinity else Server.Finite (orZ (limit params) 50))
    (truthy (includeReplies params))
    (Server.fetchCastsForUser client fid (truthy (includeReplies params))) [].

  (** The [n] oldest items of a newest-first sequence, in chronological order. *)
Definition oldest_first (n : Z) (items : list FarcasterCast) : list FarcasterCast :=
  take (Z.to_nat n) (reverse items).

  (** The rate limiter as the specification describes it, told from the
      admitted requests alone. A request finds room when the admitted
      requests in the trailing window number less than 450 globally and less
      than 250 for its endpoint, each window taken at the reading of its
      pruning. *)
Definition room (log : list (string * Z)) (endpoint : string) (ticks : Server.Ticks) : bool :=
  (Z.of_nat (length (Server.in_window (Server.t_clean_global ticks) (Server.global_log log)))
     <? 450) &&
  (Z.of_nat (length (Server.in_window (Server.t_clean_endpoint ticks)
                                      (Server.endpoint_log endpoint log)))
     <? 250).

  (** Every pass that finds room is admitted with the time it read first;
      a pass that finds none admits nothing. *)
Fixpoint admitted (log : list (string * Z)) (passes : list Server.Pass)
    : list (string * Z) :=
  match passes with
  | [] => log
  | p :: passes' =>
      let endpoint := Server.pass_endpoint p in
      let ticks := Server.pass_ticks p in
      admitted (if room log endpoint ticks
                then log ++ [(endpoint, Server.t_now ticks)] else log) passes'
  end.

  (** A caller acquires its slot at its first attempt that finds room, each
      attempt being judged anew on the requests admitted by then; it
      acquires none while every attempt finds a ceiling reached. *)
Fixpoint acquired (log : list (string * Z)) (endpoint : string)
    (clock : list (Server.Ticks * list Server.Pass)) : option (list (string * Z)) :=
  match clock with
  | [] => None
  | (ticks, others) :: clock' =>
      if room log endpoint ticks then Some (log ++ [(endpoint, Server.t_now ticks)])
      else acquired (admitted log others) endpoint clock'
  end.

  (** The stored windows never hold more than the ceilings, and agree with the
      log of admitted requests on every window from time [t0] on. *)
Record consistent (t0 : Z) (rl : Server.RateLimiter) (log : list (string * Z)) : Prop := {
  global_bounded : Z.of_nat (length (Server.globalRequests rl)) ≤ Server.GLOBAL_LIMIT;
  endpoint_bounded : ∀ e l,
    Server.endpointRequests rl !! e = Some l → Z.of_nat (length l) ≤ Server.ENDPOINT_LIMIT;
  global_agrees : ∀ t, t0 ≤ t →
    Server.in_window t (Server.global_log log) = Server.in_window t (Server.globalRequests rl);
  endpoint_agrees : ∀ e t, t0 ≤ t →
    Server.in_window t (Server.endpoint_log e log) =
    Server.in_window t (default [] (Server.endpointRequests rl !! e));
}.

  (** A query that names a user, carries no fid, and passes the checks of
      the handler on [limit] and [sortOrder]. *)
Definition well_formed (Number : string → option Z) (q : gmap string string)
    (name : string) : Prop :=
  truthyS (q !! "fid") = false ∧
  q !! "username" = Some name ∧ truthyS (Some name) = true ∧
  (truthyS (q !! "limit") = true →
     ∃ n, Number (default "" (q !! "limit")) = Some n ∧ 0 < n) ∧
  (truthyS (q !! "sortOrder") = true →
     q !! "sortOrder" ∈ [Some "newest"; Some "oldest"]).

End Vocabulary.
Import Vocabulary.

(** ** Sample data *)
Module Samples.
Import Server.

  (** Three requests, two of them on the same endpoint. *)
Definition sample_passes : list Pass :=
  [ {| pass_endpoint := "/v2/farcaster/feed/user/casts";
       pass_ticks := {| t_now := 1000; t_clean_global := 1000; t_clean_endpoint := 1001 |} |};
    {| pass_endpoint := "/v2/farcaster/cast";
       pass_ticks := {| t_now := 1500; t_clean_global := 1500; t_clean_endpoint := 1500 |} |};
    {| pass_endpoint := "/v2/farcaster/cast";
       pass_ticks := {| t_now := 70000; t_clean_global := 70000; t_clean_endpoint := 70002 |} |} ].

  (** A top-level cast, and a reply to the cast [parent]. *)
Definition raw_cast (h : string) (stamp : string) : RawCast :=
  {| raw_hash := h; thread_hash := h; parent_hash := None;
     raw_author_fid := 3; raw_author_username := Some "alice";
     raw_text := "gm"; raw_timestamp := stamp;
     raw_embeds := None; likes_count := None; recasts_count := None |}.

Definition raw_reply (h parent : string) (stamp : string) : RawCast :=
  {| raw_hash := h; thread_hash := parent; parent_hash := Some parent;
     raw_author_fid := 3; raw_author_username := Some "alice";
     raw_text := "re"; raw_timestamp := stamp;
     raw_embeds := None; likes_count := None; recasts_count := None |}.

Definition c1 : RawCast := raw_cast "0x01" "2024-01-01".
Definition c2 : RawCast := raw_cast "0x02" "2024-01-02".
Definition c3 : RawCast := raw_cast "0x03" "2024-01-03".
Definition c4 : RawCast := raw_cast "0x04" "2024-01-04".
Definition c5 : RawCast := raw_cast "0x05" "2024-01-05".

Definition alice : RawUser :=
  {| raw_fid := 3; raw_username := "alice"; display_name := Some "Alice";
     profile_bio_text := None; pfp_url := None |}.

  (** A provider that knows the user alice (fid 3), whose five casts are
      served newest first on two pages, and which finds the casts 0x01 and
      0x02 by hash, finds no cast 0x0a, and fails on every other hash. *)
Definition sample_client : NeynarAPIClient :=
  {| lookupUserByUsername := λ name,
       if bool_decide (name = "alice") then Ok (Some alice) else Ok None;
     fetchBulkUsers := λ fids, if bool_decide (fids = [3]) then Ok [alice] else Ok [];
     fetchCastsForUser := λ fid _,
       if fid =? 3 then [Ok [c5; c4; c3]; Ok [c2; c1]] else [];
     lookupCastByHashOrUrl := λ h,
       if bool_decide (h = "0x01") then Ok (Some c1)
       else if bool_decide (h = "0x02") then Ok (Some c2)
       else if bool_decide (h = "0x0a") then Ok None
       else Throw (Error "upstream unavailable") |}.

  (** [{ fid: 3, limit: 2, sortOrder: "oldest" }] *)
Definition oldest_two : FarcasterQueryParams :=
  {| fid := Some 3; username := None; limit := Some 2; sortOrder := Some oldest;
     includeReplies := None; all := None; includeReactions := None;
     includeParents := None |}.

  (** [Number(s)] on the strings of decimal digits (the empty string is 0);
      every other string is taken to [NaN]. *)
Fixpoint digits (acc : Z) (s : string) : option Z :=
  match s with
  | EmptyString => Some acc
  | String c s' =>
      let d := nat_of_ascii c in
      if ((48 <=? d) && (d <=? 57))%nat
      then digits (10 * acc + Z.of_nat (d - 48)) s'
      else None
  end.

Definition Number_decimal (s : string) : option Z := digits 0 s.

  (** A query with the single key [username]. *)
Definition ghost_query : gmap string string := {[ "username" := "ghost" ]}.

  (** [URLSearchParams.prototype.toString()] on entries that need no escaping. *)
Definition plain_query (entries : list (string * string)) : string :=
  join "&" ((λ e, e.1 +:+ "=" +:+ e.2) <$> entries).

  (** A stand-in for the x402 wrapper, after section 4.6 of the
      specification: on a payment-required response it signs the challenge
      and retries once. *)
Definition retry_with_payment (base : Sdk.FetchFn) (signer : Sdk.EvmSigner) : Sdk.FetchFn :=
  λ url w,
    match base url w with
    | (Ok r, w1) =>
        if Sdk.resp_status r =? 402 then
          match Sdk.signTypedData signer (Sdk.resp_text r) with
          | Ok proof => base (url +:+ "&payment=" +:+ proof) w1
          | Throw e => (Throw e, w1)
          end
        else (Ok r, w1)
    | (Throw e, w1) => (Throw e, w1)
    end.

  (** A server that asks for a payment on every request that carries none,
      and has no [/estimate] route; the transport records each request. *)
Definition paywall : Sdk.FetchFn :=
  λ url w,
    (Ok {| Sdk.resp_status := 402; Sdk.resp_text := "payment required";
           Sdk.resp_json := None |},
     w ++ [url]).

Definition offline : Sdk.FetchFn :=
  λ url w, (Throw (ErrorObj "TypeError" "fetch failed"), w ++ [url]).

Definition paywall_config : Sdk.LlmFidConfig :=
  {| Sdk.cfg_baseUrl := Some "https://api.test.com"; Sdk.cfg_timeout := None;
     Sdk.cfg_signer := None; Sdk.cfg_fetch := Some paywall |}.

  (** [{ username: "vitalik", limit: 100 }] *)
Definition hundred : FarcasterQueryParams :=
  set_limit (Some 100) (set_username (Some "vitalik") no_options).

End Samples.
Import Samples.

(** ** The Bluesky client (the file that follows [src/sdk/src/types.ts]) *)
Module Bsky.

  (** [interface BlueskyQueryParams] *)
Record BlueskyQueryParams : Type := {
  handle : option string;
  did : option string;
  limit : option Z;
  sortOrder : option SortOrder;
  includeReplies : option bool;
  all : option bool;
  includeReactions : option bool;
  includeParents : option bool;
}.

Definition FREE_TIER_maxLimit : Z := 10.

  (** [function isFreeTier(options: BskyFetchOptions)] *)
Definition isFreeTier (options : BlueskyQueryParams) : bool :=
  let limit := orZ (limit options) 50 in
  if FREE_TIER_maxLimit <? limit then false
  else if truthy (all options) then false
  else if truthy (includeReplies options) then false
  else if truthy (includeParents options) then false
  else true.

  (** [function getPricingFingerprint(options: BskyFetchOptions)] *)
Definition getPricingFingerprint (options : BlueskyQueryParams) : string :=
  let parts := [
    orS (did options) (orS (handle options) "");
    if truthy (all options) then "all" else toString (orZ (limit options) 50);
    if truthy (includeReplies options) then "r" else "";
    if truthy (includeParents options) then "p" else "";
    if truthy (includeReactions options) then "x" else ""
  ] in
  join "|" parts.

End Bsky.

(** ** The RSS client, [src/sdk/src/rss-client.ts] *)
Module Rss.

  (** [interface RssQueryParams] *)
Record RssQueryParams : Type := {
  url : string;
  limit : option Z;
  all : option bool;
  includeContent : option bool;
  sortOrder : option SortOrder;
}.

  (** [const RSS_FREE_TIER = { maxItems: 5 }] *)
Definition RSS_FREE_TIER_maxItems : Z := 5.

  (** [function isFreeTier(options: RssFetchOptions)] *)
Definition isFreeTier (options : RssQueryParams) : bool :=
  let limit := orZ (limit options) 10 in
  if RSS_FREE_TIER_maxItems <? limit then false
  else if truthy (all options) then false
  else if truthy (includeContent options) then false
  else true.

  (** [function getPricingFingerprint(options: RssFetchOptions)] *)
Definition getPricingFingerprint (options : RssQueryParams) : string :=
  let parts := [
    orS (Some (url options)) "";
    if truthy (all options) then "all" else toString (orZ (limit options) 10);
    if truthy (includeContent options) then "c" else ""
  ] in
  join "|" parts.

  (** [function buildQueryString(options: RssFetchOptions)]: the entries set. *)
Definition queryEntries (options : RssQueryParams) : list (string * string) :=
  (if truthyS (Some (url options)) then [("url", url options)] else []) ++
  (if truthyZ (limit options) && negb (truthy (all options))
   then [("limit", toString (default 0 (limit options)))] else []) ++
  (if truthy (all options) then [("all", "true")] else []) ++
  (if truthy (includeContent options) then [("includeContent", "true")] else []) ++
  (match sortOrder options with Some oldest => [("sortOrder", "oldest")] | _ => [] end).

End Rss.

(** ** The Git client (the file that follows [src/sdk/tests/client.test.ts]) *)
Module Git.

  (** [interface GitQueryParams] *)
Record GitQueryParams : Type := {
  url : string;
  branch : option string;
  includeContent : option bool;
  maxFileSize : option Z;
  includeTree : option bool;
  includePatterns : option (list string);
  excludePatterns : option (list string);
}.

  (** [function isFreeTier(options: GitFetchOptions)] *)
Definition isFreeTier (options : GitQueryParams) : bool :=
  if truthy (includeContent options) then false
  else negb (truthy (includeTree options)).

  (** [options.includePatterns?.join(";") || ""] *)
Definition joined (patterns : option (list string)) : string :=
  orS (join ";" <$> patterns) "".

  (** [function getPricingFingerprint(options: GitFetchOptions)] *)
Definition getPricingFingerprint (options : GitQueryParams) : string :=
  let parts := [
    orS (Some (url options)) "";
    if truthy (includeTree options) then "t" else "";
    if truthy (includeContent options) then "c" else "";
    orS (branch options) "";
    joined (includePatterns options);
    joined (excludePatterns options)
  ] in
  join "|" parts.

  (** [options.includePatterns?.length] as a condition *)
Definition nonempty (patterns : option (list string)) : bool :=
  match patterns with Some (_ :: _) => true | _ => false end.

  (** [function buildQueryString(options: GitFetchOptions)]: the entries set. *)
Definition queryEntries (options : GitQueryParams) : list (string * string) :=
  (if truthyS (Some (url options)) then [("url", url options)] else []) ++
  (if truthyS (branch options) then [("branch", default "" (branch options))] else []) ++
  (if truthy (includeTree options) then [("includeTree", "true")] else []) ++
  (if truthy (includeContent options) then [("includeContent", "true")] else []) ++
  (if truthyZ (maxFileSize options)
   then [("maxFileSize", toString (default 0 (maxFileSize options)))] else []) ++
  (if nonempty (includePatterns options)
   then [("include", join "," (default [] (includePatterns options)))] else []) ++
  (if nonempty (excludePatterns options)
   then [("exclude", join "," (default [] (excludePatterns options)))] else []).

End Git.

(** ** Further vocabulary *)
Module Observations.

  (** Every timestamp that the limiter stores lies between [lo] and [hi]. *)
Definition stamped (lo hi : Z) (rl : Server.RateLimiter) : Prop :=
  Forall (λ ts, lo ≤ ts ≤ hi) (Server.globalRequests rl) ∧
  ∀ e l, Server.endpointRequests rl !! e = Some l → Forall (λ ts, lo ≤ ts ≤ hi) l.

  (** No window that the limiter stores is longer than its ceiling. *)
Definition within_ceilings (rl : Server.RateLimiter) : Prop :=
  Z.of_nat (length (Server.globalRequests rl)) ≤ Server.GLOBAL_LIMIT ∧
  ∀ e l, Server.endpointRequests rl !! e = Some l →
         Z.of_nat (length l) ≤ Server.ENDPOINT_LIMIT.

  (** The three steps of [fetchCasts] after its page loop: the order asked
      for, the parent links when parents are asked for, and the cut to the
      limit unless everything is asked for. *)
Definition ordered (params : FarcasterQueryParams) (fetched : list FarcasterCast)
    : list FarcasterCast :=
  match default newest (sortOrder params) with
  | oldest => reverse fetched
  | newest => fetched
  end.

  (** The links that [fetchCasts] sets on the casts [fetched] by its page
      loop when parents are asked for. *)
Definition enriched (client : Server.NeynarAPIClient) (params : FarcasterQueryParams)
    (fetched : list FarcasterCast) : FarcasterCast → FarcasterCast :=
  if truthy (includeParents params)
  then Server.attachParent (parentMap_for client (ordered params fetched))
  else id.

  (** Each cast linked to the parent that the lookup of its parent hash
      found, when parents are asked for. *)
Definition linked (client : Server.NeynarAPIClient) (params : FarcasterQueryParams)
    : FarcasterCast → FarcasterCast :=
  if truthy (includeParents params) then attach_by (parent_of client) else id.

  (** A cast without its parent link. *)
Definition unlinked (c : FarcasterCast) : FarcasterCast :=
  {| hash := hash c; threadHash := threadHash c; parentHash := parentHash c;
     parentCast := None;
     author_fid := author_fid c; author_username := author_username c;
     text := text c; timestamp := timestamp c; attachments := attachments c;
     embeds := embeds c; reactions := reactions c |}.

  (** A feed in which every parent hash is plain. *)
Definition plain_feed (feed : list (Outcome (list Server.RawCast))) : Prop :=
  ∀ page raw h, Ok page ∈ feed → raw ∈ page → Server.parent_hash raw = Some h → plain h.

Definition truncated (params : FarcasterQueryParams) (casts : list FarcasterCast)
    : list FarcasterCast :=
  if truthy (all params) then casts else slice0 (effective_limit params) casts.

  (** The batches of parent hashes that [fetchCasts] looks up for the casts
      [allCasts]. *)
Definition parent_batches (allCasts : list FarcasterCast) : list (list string) :=
  let parentHashes := Server.distinct [] (Server.referenced allCasts) in
  Server.batches (length parentHashes) 25 parentHashes.

Definition set_fid (f : option Z) (p : FarcasterQueryParams) : FarcasterQueryParams :=
  {| fid := f; username := username p; limit := limit p; sortOrder := sortOrder p;
     includeReplies := includeReplies p; all := all p;
     includeReactions := includeReactions p; includeParents := includeParents p |}.

  (** The estimate cache holds a fresh estimate for the request at time [now]:
      the test of [getServerEstimate]. *)
Definition fresh_estimate (estimateCache : gmap string Sdk.EstimateSlot)
    (options : FarcasterQueryParams) (now : Z) : bool :=
  match estimateCache !! Sdk.getPricingFingerprint options with
  | Some slot => now - Sdk.slot_timestamp slot <? Sdk.ESTIMATE_CACHE_TTL
  | None => false
  end.

#[global] Instance SortOrder_eq_dec : EqDecision SortOrder.
Proof. solve_decision. Defined.

  (** The query that reaches the worker when it holds exactly the entries
      that the client has set. *)
Definition sent_query (options : FarcasterQueryParams) : gmap string string :=
  list_to_map (Sdk.queryEntries options).

  (** The answer that the handler gives once [fetchUserData] has settled. *)
Definition answer_of (r : Outcome Server.UserData * gmap string (Server.CacheItem Z))
    : Server.HttpResponse * gmap string (Server.CacheItem Z) :=
  match r.1 with
  | Ok d => (Server.Text (Server.formatTextOutput d) 200, r.2)
  | Throw err => (Server.Text ("Error: " +:+ Server.message_of err) 500, r.2)
  end.

  (** Two requests that [fetchCasts] and [formatTextOutput] cannot tell
      apart. *)
Definition same_request (p1 p2 : FarcasterQueryParams) : Prop :=
  truthy (all p1) = truthy (all p2) ∧
  (truthy (all p1) = false → orZ (limit p1) 50 = orZ (limit p2) 50) ∧
  truthy (includeReplies p1) = truthy (includeReplies p2) ∧
  truthy (includeParents p1) = truthy (includeParents p2) ∧
  default newest (sortOrder p1) = default newest (sortOrder p2) ∧
  truthy (includeReactions p1) = truthy (includeReactions p2).

  (** The Farcaster request that corresponds to a Bluesky request: the
      handle for the user name, no fid. *)
Definition as_farcaster (b : Bsky.BlueskyQueryParams) : FarcasterQueryParams :=
  {| fid := None; username := Bsky.handle b; limit := Bsky.limit b;
     sortOrder := Bsky.sortOrder b; includeReplies := Bsky.includeReplies b;
     all := Bsky.all b; includeReactions := Bsky.includeReactions b;
     includeParents := Bsky.includeParents b |}.

  (** A Git request with other [includePatterns]. *)
Definition with_patterns (patterns : option (list string)) (o : Git.GitQueryParams)
    : Git.GitQueryParams :=
  {| Git.url := Git.url o; Git.branch := Git.branch o;
     Git.includeContent := Git.includeContent o; Git.maxFileSize := Git.maxFileSize o;
     Git.includeTree := Git.includeTree o; Git.includePatterns := patterns;
     Git.excludePatterns := Git.excludePatterns o |}.

  (** The normal form of a user name: lower case, one leading "@" removed. *)
Definition normal (name : string) : string := strip_at (toLowerCase name).

End Observations.
Import Observations.

(** ** More sample data *)
Module MoreSamples.

Definition quote : Sdk.ServerEstimate :=
  {| Sdk.price := "$0.0015"; Sdk.isFree := false; Sdk.castCount := Some 1200 |}.

  (** A server that answers every request with the estimate [quote]. *)
Definition estimator : Sdk.FetchFn :=
  λ url w,
    (Ok {| Sdk.resp_status := 200; Sdk.resp_text := ""; Sdk.resp_json := Some quote |},
     w ++ [url]).

Definition estimator_config : Sdk.LlmFidConfig :=
  {| Sdk.cfg_baseUrl := Some "https://api.test.com"; Sdk.cfg_timeout := None;
     Sdk.cfg_signer := None; Sdk.cfg_fetch := Some estimator |}.

Definition wallet : Sdk.EvmSigner :=
  {| Sdk.address := "0xabc"; Sdk.signTypedData := λ _, Ok "0xsigned" |}.

Definition wallet_config : Sdk.LlmFidConfig :=
  {| Sdk.cfg_baseUrl := Some "https://api.test.com"; Sdk.cfg_timeout := None;
     Sdk.cfg_signer := Some wallet; Sdk.cfg_fetch := Some paywall |}.


  (** The same provider without the reply to "constructor". *)
Definition reply_client : Server.NeynarAPIClient :=
  {| Server.lookupUserByUsername := Server.lookupUserByUsername sample_client;
     Server.fetchBulkUsers := Server.fetchBulkUsers sample_client;
     Server.fetchCastsForUser := λ _ _,
       [Ok [raw_reply "0x14" "0x0a" "2024-02-04";
            raw_reply "0x13" "0x02" "2024-02-03";
            raw_reply "0x11" "0x01" "2024-02-01"]];
     Server.lookupCastByHashOrUrl := Server.lookupCastByHashOrUrl sample_client |}.

  (** [{ fid: 3, includeReplies: true, includeParents: true }] *)
Definition with_parents : FarcasterQueryParams :=
  {| fid := Some 3; username := None; limit := None; sortOrder := None;
     includeReplies := Some true; all := None; includeReactions := None;
     includeParents := Some true |}.

End MoreSamples.
Import MoreSamples.

(* ===================================================================== *)
(** * Part II. Properties                                                 *)
(* ===================================================================== *)

(** ** The pricing classifier *)
Module SdkFacts.
Import Sdk.

Lemma isFreeTier_spec (options : FarcasterQueryParams) :
  isFreeTier options = true ↔
    effective_limit options ≤ 10 ∧ truthy (all options) = false ∧
    truthy (includeReplies options) = false ∧ truthy (includeParents options) = false.
Proof.
  unfold isFreeTier, effective_limit, FREE_TIER_maxLimit.
  destruct (Z.ltb_spec 10 (orZ (limit options) 50)) as [Hgt | Hle].
  - split; [discriminate | lia].
  - destruct (truthy (all options)), (truthy (includeReplies options)),
      (truthy (includeParents options)); intuition congruence.
Qed.

(** C3. On the reference Farcaster rule table, the free-tier classifier
    answers true for a limit of 10, false for a limit of 10 with replies,
    false for a limit of 11 and false for fetch-all; in general a request is
    free exactly when its effective limit is at most 10, fetch-all is not
    requested, and neither replies nor parents are requested. *)
Theorem isFreeTier_reference_table :
  isFreeTier (set_limit (Some 10) no_options) = true ∧
  isFreeTier (set_includeReplies (Some true) (set_limit (Some 10) no_options)) = false ∧
  isFreeTier (set_limit (Some 11) no_options) = false ∧
  isFreeTier (set_all (Some true) no_options) = false ∧
  ∀ options : FarcasterQueryParams,
    isFreeTier options = true ↔
      effective_limit options ≤ FREE_TIER_maxLimit ∧
      truthy (all options) = false ∧
      truthy (includeReplies options) = false ∧
      truthy (includeParents options) = false.
Proof.
  do 4 (split; [reflexivity |]).
  intros options. apply isFreeTier_spec.
Qed.

(** C4. Two requests that are equal once their omitted options are filled
    with the defaults have the same pricing fingerprint. *)
Theorem fingerprint_default_filling (p1 p2 : FarcasterQueryParams) :
  fill_defaults p1 = fill_defaults p2 →
  getPricingFingerprint p1 = getPricingFingerprint p2.
Proof.
  intros Heq. unfold fill_defaults in Heq.
  injection Heq as Hfid Huser Hlimit _ Hreplies Hall Hreact Hparents.
  unfold getPricingFingerprint.
  by rewrite Hfid, Huser, Hlimit, Hreplies, Hall, Hreact, Hparents.
Qed.

Lemma fingerprint_default_filling_witness :
  let explicit :=
    {| fid := None; username := Some "alice"; limit := Some 50;
       sortOrder := Some newest; includeReplies := Some false;
       all := Some false; includeReactions := Some false;
       includeParents := Some false |} in
  let omitted := set_username (Some "alice") no_options in
  fill_defaults explicit = fill_defaults omitted ∧
  getPricingFingerprint explicit = getPricingFingerprint omitted ∧
  getPricingFingerprint omitted = "alice|50|||".
Proof.
  split; [reflexivity |].
  split; [apply fingerprint_default_filling; reflexivity | vm_compute; reflexivity].
Defined.

End SdkFacts.

(** ** The TTL cache *)
Module CacheFacts.
Import Server.

Section TTL.
Context {T : Type}.
Implicit Types (cache : gmap string (CacheItem T)) (key : string) (v : T).

Lemma getCached_fresh cache key item now :
  cache !! key = Some item → now ≤ expiry item →
  getCached now key cache = (Some (data item), cache).
Proof.
  intros Hlook Hle. unfold getCached. rewrite Hlook.
  destruct (Z.ltb_spec (expiry item) now); [lia | done].
Qed.

Lemma getCached_stale cache key item now :
  cache !! key = Some item → expiry item < now →
  getCached now key cache = (None, delete key cache).
Proof.
  intros Hlook Hlt. unfold getCached. rewrite Hlook.
  destruct (Z.ltb_spec (expiry item) now); [done | lia].
Qed.

Lemma setCache_lookup cache key v ttl t0 :
  setCache t0 key v (Some ttl) cache !! key = Some {| data := v; expiry := t0 + ttl |}.
Proof. unfold setCache. by rewrite lookup_insert_eq. Qed.

(** C6, as the code has it. A value stored with [ttl] at time [t0] is
    returned by every read up to and including time [t0 + ttl], which leaves
    the cache as it is; a read strictly after [t0 + ttl] reports the value
    absent and evicts the entry. *)
Theorem ttl_cache_expiry cache key v (ttl t0 t : Z) :
  let stored := setCache t0 key v (Some ttl) cache in
  (t ≤ t0 + ttl → getCached t key stored = (Some v, stored)) ∧
  (t0 + ttl < t →
     getCached t key stored = (None, delete key stored) ∧
     (getCached t key stored).2 !! key = None).
Proof.
  intros stored. split.
  - intros Hle.
    by rewrite (getCached_fresh stored key _ t (setCache_lookup cache key v ttl t0)).
  - intros Hlt.
    rewrite (getCached_stale stored key _ t (setCache_lookup cache key v ttl t0)) by done.
    split; [done | apply lookup_delete_eq].
Qed.

End TTL.

Lemma ttl_cache_expiry_witness :
  let stored := setCache 5000 "fid:alice" 3 (Some 300000) (∅ : gmap string (CacheItem Z)) in
  getCached 305000 "fid:alice" stored = (Some 3, stored) ∧
  getCached 305001 "fid:alice" stored = (None, delete "fid:alice" stored).
Proof.
  split.
  - apply (proj1 (ttl_cache_expiry (∅ : gmap string (CacheItem Z)) "fid:alice" 3 300000 5000 305000)).
    lia.
  - apply (proj2 (ttl_cache_expiry (∅ : gmap string (CacheItem Z)) "fid:alice" 3 300000 5000 305001)).
    lia.
Defined.

(** C6, as the specification states it, fails at the boundary: a read at exactly
    [t0 + ttl] still returns the value. *)
Lemma ttl_cache_boundary_counterexample :
  ¬ (∀ (cache : gmap string (CacheItem Z)) key v (ttl t0 t : Z),
       t0 + ttl ≤ t →
       (getCached t key (setCache t0 key v (Some ttl) cache)).1 = None).
Proof.
  intros Hclaim.
  specialize (Hclaim ∅ "fid:alice" 3 300000 5000 305000 ltac:(lia)).
  vm_compute in Hclaim. discriminate.
Qed.

End CacheFacts.

(** ** The rate limiter *)
Module LimiterFacts.
Import Server.

Implicit Types (rl : RateLimiter) (log : list (string * Z)) (ticks : Ticks).

Lemma cleanOldRequests_length now requests :
  (length (cleanOldRequests now requests) ≤ length requests)%nat.
Proof. apply length_filter. Qed.

Lemma in_window_length t timestamps :
  (length (in_window t timestamps) ≤ length timestamps)%nat.
Proof. apply length_filter. Qed.

(** Once the clock has passed [tc], what pruning at [tc] removed is outside
    of every later window. *)
Lemma in_window_clean tc t requests :
  tc ≤ t → in_window t (cleanOldRequests tc requests) = in_window t requests.
Proof.
  intros Hle. unfold in_window, cleanOldRequests.
  rewrite list_filter_filter. apply list_filter_iff. intros ts. lia.
Qed.

Lemma in_window_app t l1 l2 :
  in_window t (l1 ++ l2) = in_window t l1 ++ in_window t l2.
Proof. apply filter_app. Qed.

Lemma global_log_app log1 log2 :
  global_log (log1 ++ log2) = global_log log1 ++ global_log log2.
Proof. apply fmap_app. Qed.

Lemma endpoint_log_app e log1 log2 :
  endpoint_log e (log1 ++ log2) = endpoint_log e log1 ++ endpoint_log e log2.
Proof. unfold endpoint_log. by rewrite filter_app, fmap_app. Qed.

Lemma endpoint_log_same e now : endpoint_log e [(e, now)] = [now].
Proof.
  unfold endpoint_log. rewrite filter_cons_True by done. done.
Qed.

Lemma endpoint_log_other e e' now : e' ≠ e → endpoint_log e [(e', now)] = [].
Proof.
  intros Hne. unfold endpoint_log. rewrite filter_cons_False by done. done.
Qed.

Lemma consistent_new t0 : consistent t0 new_RateLimiter [].
Proof.
  split; simpl.
  - unfold GLOBAL_LIMIT. lia.
  - intros e l Hl. by rewrite lookup_empty in Hl.
  - done.
  - intros e t _. by rewrite lookup_empty.
Qed.

(** What one pass does to the limiter. *)
Lemma waitForSlot_pass_cases rl endpoint ticks :
  let globalReqs := cleanOldRequests (t_clean_global ticks) (globalRequests rl) in
  let endpointReqs :=
    cleanOldRequests (t_clean_endpoint ticks)
                     (default [] (endpointRequests rl !! endpoint)) in
  let cleaned := {| endpointRequests := <[endpoint := endpointReqs]> (endpointRequests rl);
                    globalRequests := globalReqs |} in
  ((GLOBAL_LIMIT ≤ Z.of_nat (length globalReqs) ∨
    ENDPOINT_LIMIT ≤ Z.of_nat (length endpointReqs)) ∧
   ∃ waitTime, waitForSlot_pass rl endpoint ticks = Suspended waitTime cleaned)
  ∨
  (Z.of_nat (length globalReqs) < GLOBAL_LIMIT ∧
   Z.of_nat (length endpointReqs) < ENDPOINT_LIMIT ∧
   waitForSlot_pass rl endpoint ticks =
     Granted {| endpointRequests :=
                   <[endpoint := endpointReqs ++ [t_now ticks]]> (endpointRequests rl);
                 globalRequests := globalReqs ++ [t_now ticks] |}).
Proof.
  intros globalReqs endpointReqs cleaned. unfold waitForSlot_pass.
  fold globalReqs endpointReqs. fold cleaned.
  destruct (Z.leb_spec GLOBAL_LIMIT (Z.of_nat (length globalReqs))) as [Hg | Hg];
    destruct (Z.leb_spec ENDPOINT_LIMIT (Z.of_nat (length endpointReqs))) as [He | He];
    simpl.
  - left. split; [by left |].
    destruct globalReqs as [| o ?]; [by eexists |]. destruct (o =? 0); by eexists.
  - left. split; [by left |].
    destruct globalReqs as [| o ?]; [by eexists |]. destruct (o =? 0); by eexists.
  - left. split; [by right |].
    destruct endpointReqs as [| o ?]; [by eexists |]. destruct (o =? 0); by eexists.
  - right. split; [done |]. split; [done |].
    subst cleaned. simpl. by rewrite insert_insert_eq.
Qed.

Lemma consistent_pass t0 rl log endpoint ticks :
  consistent t0 rl log →
  t0 ≤ t_now ticks → t_now ticks ≤ t_clean_global ticks →
  t_clean_global ticks ≤ t_clean_endpoint ticks →
  let r := waitForSlot_pass rl endpoint ticks in
  consistent (t_clean_endpoint ticks) (limiter_of r) (log ++ recorded endpoint ticks r).
Proof.
  intros [Hgb Heb Hga Hea] H0 H1 H2 r. subst r.
  pose proof (cleanOldRequests_length (t_clean_global ticks) (globalRequests rl)) as Hlg.
  pose proof (cleanOldRequests_length (t_clean_endpoint ticks)
                (default [] (endpointRequests rl !! endpoint))) as Hle.
  assert (Hown : Z.of_nat (length (default [] (endpointRequests rl !! endpoint)))
                 ≤ ENDPOINT_LIMIT).
  { destruct (endpointRequests rl !! endpoint) as [l |] eqn:Hl; simpl.
    - by eapply Heb.
    - unfold ENDPOINT_LIMIT. lia. }
  destruct (waitForSlot_pass_cases rl endpoint ticks)
    as [[_ [waitTime ->]] | (Hg & He & ->)]; simpl.
  - rewrite app_nil_r. split; simpl.
    + lia.
    + intros e l. destruct (decide (endpoint = e)) as [-> | Hne].
      * rewrite lookup_insert_eq. intros [= <-]. lia.
      * rewrite lookup_insert_ne by done. apply Heb.
    + intros t Ht. rewrite in_window_clean by lia. apply Hga. lia.
    + intros e t Ht. destruct (decide (endpoint = e)) as [-> | Hne].
      * rewrite lookup_insert_eq. simpl. rewrite in_window_clean by lia.
        apply Hea. lia.
      * rewrite lookup_insert_ne by done. apply Hea. lia.
  - split; simpl.
    + rewrite length_app. simpl. lia.
    + intros e l. destruct (decide (endpoint = e)) as [-> | Hne].
      * rewrite lookup_insert_eq. intros [= <-]. rewrite length_app. simpl. lia.
      * rewrite lookup_insert_ne by done. apply Heb.
    + intros t Ht. rewrite global_log_app, !in_window_app.
      rewrite in_window_clean by lia. rewrite Hga by lia. done.
    + intros e t Ht. rewrite endpoint_log_app, in_window_app.
      destruct (decide (endpoint = e)) as [-> | Hne].
      * rewrite lookup_insert_eq. simpl. rewrite endpoint_log_same, in_window_app.
        rewrite in_window_clean by lia. rewrite Hea by lia. done.
      * rewrite lookup_insert_ne by done. rewrite endpoint_log_other by done.
        rewrite app_nil_r. apply Hea. lia.
Qed.

Lemma consistent_run passes : ∀ t0 rl log,
  consistent t0 rl log → monotone_clock t0 passes →
  consistent (last_tick t0 passes) (run rl log passes).1 (run rl log passes).2.
Proof.
  induction passes as [| p passes IH]; intros t0 rl log Hc Hm; simpl.
  - done.
  - destruct Hm as (H0 & H1 & H2 & Hm).
    apply IH; [| done]. by apply (consistent_pass t0).
Qed.

Lemma monotone_clock_app passes1 : ∀ t0 passes2,
  monotone_clock t0 (passes1 ++ passes2) ↔
  monotone_clock t0 passes1 ∧ monotone_clock (last_tick t0 passes1) passes2.
Proof.
  induction passes1 as [| p passes1 IH]; intros t0 passes2; simpl; [tauto |].
  rewrite IH. tauto.
Qed.

(** Pruning a stored window at a reading [t] of the running clock leaves
    the admitted requests that lie in the trailing window at [t]. *)
Lemma pruned_global t0 rl log t :
  consistent t0 rl log → t0 ≤ t →
  cleanOldRequests t (globalRequests rl) = in_window t (global_log log).
Proof. intros [_ _ Hga _] Ht. by rewrite Hga. Qed.

Lemma pruned_endpoint t0 rl log endpoint t :
  consistent t0 rl log → t0 ≤ t →
  cleanOldRequests t (default [] (endpointRequests rl !! endpoint)) =
  in_window t (endpoint_log endpoint log).
Proof. intros [_ _ _ Hea] Ht. by rewrite Hea. Qed.

(** A pass admits its request exactly when it finds room, and leaves the
    two windows it has pruned, with its own request added when admitted. *)
Lemma pass_finds_room t0 rl log endpoint ticks :
  consistent t0 rl log →
  t0 ≤ t_clean_global ticks → t0 ≤ t_clean_endpoint ticks →
  let r := waitForSlot_pass rl endpoint ticks in
  recorded endpoint ticks r =
    (if room log endpoint ticks then [(endpoint, t_now ticks)] else []) ∧
  globalRequests (limiter_of r) =
    in_window (t_clean_global ticks) (global_log log) ++ (recorded endpoint ticks r).*2 ∧
  endpointRequests (limiter_of r) !! endpoint =
    Some (in_window (t_clean_endpoint ticks) (endpoint_log endpoint log) ++
          (recorded endpoint ticks r).*2).
Proof.
  intros Hc Hg He r. subst r. unfold room.
  rewrite <- (pruned_global t0 rl log _ Hc Hg).
  rewrite <- (pruned_endpoint t0 rl log endpoint _ Hc He).
  destruct (waitForSlot_pass_cases rl endpoint ticks)
    as [[Hfull [waitTime ->]] | (Hgl & Hel & ->)]; simpl.
  - rewrite !app_nil_r, lookup_insert_eq. split; [| done].
    unfold GLOBAL_LIMIT, ENDPOINT_LIMIT in Hfull.
    destruct (Z.ltb_spec (Z.of_nat (length (cleanOldRequests (t_clean_global ticks)
                                              (globalRequests rl)))) 450);
      destruct (Z.ltb_spec (Z.of_nat (length (cleanOldRequests (t_clean_endpoint ticks)
                              (default [] (endpointRequests rl !! endpoint))))) 250);
      simpl; try done; lia.
  - rewrite lookup_insert_eq. split; [| done].
    unfold GLOBAL_LIMIT, ENDPOINT_LIMIT in Hgl, Hel.
    destruct (Z.ltb_spec (Z.of_nat (length (cleanOldRequests (t_clean_global ticks)
                                              (globalRequests rl)))) 450); [| lia].
    destruct (Z.ltb_spec (Z.of_nat (length (cleanOldRequests (t_clean_endpoint ticks)
                            (default [] (endpointRequests rl !! endpoint))))) 250); [| lia].
    done.
Qed.

(** The requests that the code admits are those that the specification
    admits. *)
Lemma run_admitted passes : ∀ t0 rl log,
  consistent t0 rl log → monotone_clock t0 passes →
  (run rl log passes).2 = admitted log passes.
Proof.
  induction passes as [| p passes IH]; intros t0 rl log Hc Hm; simpl; [done |].
  destruct Hm as (H0 & H1 & H2 & Hm).
  destruct (pass_finds_room t0 rl log (pass_endpoint p) (pass_ticks p) Hc
              ltac:(lia) ltac:(lia)) as (Hrec & _ & _).
  rewrite (IH (t_clean_endpoint (pass_ticks p))); [| by apply (consistent_pass t0) | done].
  rewrite Hrec. destruct (room log (pass_endpoint p) (pass_ticks p)); [done |].
  by rewrite app_nil_r.
Qed.

(** A call of [waitForSlot] acquires its slot as the specification says. *)
Lemma waitForSlot_acquired endpoint clock : ∀ t0 rl log,
  consistent t0 rl log → monotone_clock t0 (interleaving endpoint clock) →
  snd <$> waitForSlot rl log endpoint clock = acquired log endpoint clock.
Proof.
  induction clock as [| [ticks others] clock IH]; intros t0 rl log Hc Hm; [done |].
  unfold interleaving in Hm. rewrite fmap_cons, concat_cons in Hm.
  simpl in Hm. destruct Hm as (H0 & H1 & H2 & Hm).
  apply monotone_clock_app in Hm as [Hothers Hrest].
  destruct (pass_finds_room t0 rl log endpoint ticks Hc ltac:(lia) ltac:(lia))
    as (Hrec & _ & _).
  pose proof (consistent_pass t0 rl log endpoint ticks Hc H0 H1 H2) as Hc'.
  simpl in Hc'. simpl.
  destruct (waitForSlot_pass rl endpoint ticks) as [rl' | waitTime rl'] eqn:Hpass;
    simpl in Hrec, Hc'.
  - destruct (room log endpoint ticks); [done | discriminate].
  - destruct (room log endpoint ticks); [discriminate |].
    rewrite app_nil_r in Hc'.
    pose proof (consistent_run others _ rl' log Hc' Hothers) as Hc''.
    pose proof (run_admitted others _ rl' log Hc' Hothers) as Hlog.
    destruct (run rl' log others) as [rl'' log'] eqn:Hrun. simpl in Hc'', Hlog.
    rewrite <- Hlog. by apply (IH (last_tick (t_clean_endpoint ticks) others)).
Qed.

(** C1. Along every sequence of passes through [waitForSlot], by whatever
    callers, under a clock that does not go backwards:
    - at every time from the last reading on, the admitted requests whose
      timestamp lies in the trailing 60-second window number at most 250 for
      any endpoint and at most 450 globally;
    - the requests admitted are those that find room in the trailing
      windows: stale entries never hold a request back;
    - every further pass prunes both windows before it checks them: the
      windows it leaves hold exactly the admitted requests of the trailing
      window (and its own request when it admits it), and it admits its
      request exactly when these number less than the ceilings;
    - a call of [waitForSlot], with other callers running while it sleeps,
      returns with its request recorded at its first pass that finds room,
      judged anew after every sleep, and does not return before. *)
Theorem rate_limiter_ceilings (passes : list Pass) (t0 : Z) :
  monotone_clock t0 passes →
  let rl := (run new_RateLimiter [] passes).1 in
  let log := (run new_RateLimiter [] passes).2 in
  (∀ t endpoint, last_tick t0 passes ≤ t →
     (length (in_window t (endpoint_log endpoint log)) ≤ 250)%nat ∧
     (length (in_window t (global_log log)) ≤ 450)%nat) ∧
  log = admitted [] passes ∧
  (∀ endpoint ticks,
     last_tick t0 passes ≤ t_clean_global ticks →
     last_tick t0 passes ≤ t_clean_endpoint ticks →
     let r := waitForSlot_pass rl endpoint ticks in
     recorded endpoint ticks r =
       (if room log endpoint ticks then [(endpoint, t_now ticks)] else []) ∧
     globalRequests (limiter_of r) =
       in_window (t_clean_global ticks) (global_log log) ++ (recorded endpoint ticks r).*2 ∧
     endpointRequests (limiter_of r) !! endpoint =
       Some (in_window (t_clean_endpoint ticks) (endpoint_log endpoint log) ++
             (recorded endpoint ticks r).*2)) ∧
  (∀ endpoint clock,
     monotone_clock (last_tick t0 passes) (interleaving endpoint clock) →
     snd <$> waitForSlot rl log endpoint clock = acquired log endpoint clock).
Proof.
  intros Hclock rl log.
  pose proof (consistent_run passes t0 new_RateLimiter [] (consistent_new t0) Hclock) as Hc.
  fold rl log in Hc.
  split; [| split; [| split]].
  - intros t endpoint Ht. destruct Hc as [Hgb Heb Hga Hea]. split.
    + rewrite Hea by done.
      etransitivity; [apply in_window_length |].
      destruct (endpointRequests rl !! endpoint) as [l |] eqn:Hl; simpl; [| lia].
      apply Heb in Hl. unfold ENDPOINT_LIMIT in Hl. lia.
    + rewrite Hga by done.
      etransitivity; [apply in_window_length |].
      unfold GLOBAL_LIMIT in Hgb. lia.
  - apply (run_admitted passes t0); [apply consistent_new | done].
  - intros endpoint ticks Hg He. by apply (pass_finds_room (last_tick t0 passes)).
  - intros endpoint clock Hm. by apply (waitForSlot_acquired endpoint clock (last_tick t0 passes)).
Qed.

Lemma rate_limiter_ceilings_witness :
  monotone_clock 0 sample_passes ∧
  (run new_RateLimiter [] sample_passes).2 =
    [("/v2/farcaster/feed/user/casts", 1000); ("/v2/farcaster/cast", 1500);
     ("/v2/farcaster/cast", 70000)] ∧
  (length (in_window 70002 (global_log (run new_RateLimiter [] sample_passes).2)) ≤ 450)%nat ∧
  snd <$> waitForSlot (run new_RateLimiter [] sample_passes).1
            (run new_RateLimiter [] sample_passes).2 "/v2/farcaster/cast"
            [({| t_now := 70010; t_clean_global := 70010; t_clean_endpoint := 70011 |}, [])] =
    Some [("/v2/farcaster/feed/user/casts", 1000); ("/v2/farcaster/cast", 1500);
          ("/v2/farcaster/cast", 70000); ("/v2/farcaster/cast", 70010)].
Proof.
  assert (Hclock : monotone_clock 0 sample_passes) by (simpl; lia).
  destruct (rate_limiter_ceilings sample_passes 0 Hclock) as (Hbound & _ & _ & Hcall).
  split; [exact Hclock |]. split; [vm_compute; reflexivity |]. split.
  - apply (Hbound 70002 "/v2/farcaster/cast"). simpl. lia.
  - rewrite Hcall; [vm_compute; reflexivity |]. simpl. lia.
Defined.

(** A caller does not proceed after a single wait. 250 requests on an
    endpoint are admitted at time 1000; a caller arriving at 1200 is
    suspended; while it sleeps, 250 requests of other callers are admitted
    at 61050, the first 250 having left the window; waking up at 61100 the
    caller finds the window full again and is suspended a second time; its
    request is recorded at 121150, when it next wakes up. *)
Example caller_is_suspended_twice :
  let at_ t := {| t_now := t; t_clean_global := t; t_clean_endpoint := t |} in
  let other t := {| pass_endpoint := "/v2/farcaster/cast"; pass_ticks := at_ t |} in
  let sleep r := match r with Suspended waitTime _ => Some waitTime | Granted _ => None end in
  let start := run new_RateLimiter [] (replicate 250 (other 1000)) in
  let first := waitForSlot_pass start.1 "/v2/farcaster/cast" (at_ 1200) in
  let meanwhile := run (limiter_of first) start.2 (replicate 250 (other 61050)) in
  let second := waitForSlot_pass meanwhile.1 "/v2/farcaster/cast" (at_ 61100) in
  sleep first = Some 59900 ∧
  length meanwhile.2 = 500%nat ∧
  sleep second = Some 60050 ∧
  last <$> (snd <$> waitForSlot start.1 start.2 "/v2/farcaster/cast"
                      [(at_ 1200, replicate 250 (other 61050));
                       (at_ 61100, []);
                       (at_ 121150, [])]) =
    Some (Some ("/v2/farcaster/cast", 121150)).
Proof. vm_compute. repeat split; reflexivity. Qed.

(** The ceiling is reached: after 250 requests on one endpoint within the
    same millisecond, the next pass on that endpoint is suspended until the
    oldest one leaves the window, and records nothing. *)
Example endpoint_ceiling_suspends :
  let pass := {| pass_endpoint := "/v2/farcaster/cast";
                 pass_ticks := {| t_now := 1000; t_clean_global := 1000;
                                  t_clean_endpoint := 1000 |} |} in
  let '(rl, log) := run new_RateLimiter [] (replicate 250 pass) in
  length log = 250%nat ∧
  ∃ rl', waitForSlot_pass rl "/v2/farcaster/cast"
           {| t_now := 1200; t_clean_global := 1200; t_clean_endpoint := 1200 |}
         = Suspended 59900 rl' ∧
         globalRequests rl' = globalRequests rl.
Proof.
  vm_compute. split; [reflexivity |]. eexists. split; reflexivity.
Qed.

End LimiterFacts.

(** ** Parent resolution *)
Module ParentFacts.
Import Server.

Implicit Types (client : NeynarAPIClient) (h : string) (parentMap : ParentMap).

(** The [try]/[catch] around a lookup turns every failure into a missing cast. *)
Lemma lookupParent_total client h :
  lookupParent client h = Ok (h, parent_of client h).
Proof.
  unfold lookupParent, parent_of.
  by destruct (lookupCastByHashOrUrl client h) as [[raw |] | e].
Qed.

(** Hence no promise of a batch rejects, and [Promise.all] delivers the
    outcome of every lookup of the batch. *)
Lemma Promise_all_lookups client (batch : list string) :
  Promise_all (lookupParent client <$> batch) =
  Ok ((λ h, (h, parent_of client h)) <$> batch).
Proof.
  induction batch as [| h batch IH]; [done |].
  rewrite !fmap_cons. simpl. rewrite lookupParent_total. simpl. by rewrite IH.
Qed.

Lemma mergeResults_fold client (batch : list string) : ∀ parentMap,
  mergeResults parentMap ((λ h, (h, parent_of client h)) <$> batch) =
  foldl (assign_found client) parentMap batch.
Proof.
  unfold mergeResults. induction batch as [| h batch IH]; intros parentMap; [done |].
  rewrite fmap_cons. simpl. by rewrite IH.
Qed.

(** The batches are resolved one after the other, none of them rejects. *)
Lemma resolveBatches_fold client (bs : list (list string)) : ∀ parentMap,
  resolveBatches client bs parentMap = Ok (foldl (assign_found client) parentMap (concat bs)).
Proof.
  induction bs as [| batch bs IH]; intros parentMap; [done |].
  simpl. rewrite Promise_all_lookups. simpl.
  by rewrite IH, mergeResults_fold, foldl_app.
Qed.

(** The batches partition the hashes. *)
Lemma batches_concat (n : nat) : ∀ fuel (hashes : list string),
  (length hashes ≤ fuel)%nat → concat (batches fuel (S n) hashes) = hashes.
Proof.
  induction fuel as [| fuel IH]; intros hashes Hlen.
  - destruct hashes; [done | simpl in Hlen; lia].
  - destruct hashes as [| x hashes]; [done |].
    change (batches (S fuel) (S n) (x :: hashes))
      with (take (S n) (x :: hashes) :: batches fuel (S n) (drop (S n) (x :: hashes))).
    rewrite concat_cons, IH.
    + apply take_drop.
    + rewrite length_drop. simpl in *. lia.
Qed.

Lemma distinct_elem (hashes : list string) : ∀ seen h,
  h ∈ distinct seen hashes ↔ h ∈ hashes ∧ h ∉ seen.
Proof.
  induction hashes as [| x hashes IH]; intros seen h; simpl.
  - split; [by intros ?%elem_of_nil | by intros [?%elem_of_nil _]].
  - case_bool_decide as Hseen.
    + rewrite IH, elem_of_cons. split; [tauto |].
      intros [[-> | Hin] Hnot]; [done | tauto].
    + rewrite !elem_of_cons, IH, elem_of_cons. split.
      * intros [-> | (Hin & Hnot)]; [tauto |]. split; [tauto |].
        intros Hs. apply Hnot. auto.
      * intros [[-> | Hin] Hnot]; [by left |].
        destruct (decide (h = x)) as [-> | Hne]; [by left | right].
        split; [done |]. intros [? | ?]; done.
Qed.

Lemma distinct_referenced (allCasts : list FarcasterCast) h :
  h ∈ distinct [] (referenced allCasts) ↔ h ∈ referenced allCasts.
Proof. rewrite distinct_elem. split; [tauto |]. split; [done | by intros ?%elem_of_nil]. Qed.

(** The block that resolves the parents never rejects: it links the casts
    through the parent map that the lookups have filled. *)
Lemma resolveParents_total client (allCasts : list FarcasterCast) :
  resolveParents client allCasts =
  Ok (attachParent (parentMap_for client allCasts) <$> allCasts).
Proof.
  unfold resolveParents. rewrite resolveBatches_fold, batches_concat by done. done.
Qed.

(** *** What the parent map holds *)

Lemma object_set_own parentMap h (p : FarcasterCast) key :
  String.eqb key "__proto__" = false →
  own_props (object_set parentMap h p) !! key =
  if decide (key = h) then Some p else own_props parentMap !! key.
Proof.
  intros Hkey. unfold object_set.
  destruct (String.eqb_spec h "__proto__") as [-> | Hh]; simpl.
  - rewrite decide_False; [done |]. intros ->. by rewrite String.eqb_refl in Hkey.
  - destruct (decide (key = h)) as [-> | Hne];
      [by rewrite lookup_insert_eq | by rewrite lookup_insert_ne].
Qed.

Lemma object_set_proto_key parentMap h (p : FarcasterCast) :
  own_props (object_set parentMap h p) !! "__proto__" = own_props parentMap !! "__proto__".
Proof.
  unfold object_set. destruct (String.eqb_spec h "__proto__") as [-> | Hh]; simpl; [done |].
  by rewrite lookup_insert_ne.
Qed.

Lemma object_set_prototype parentMap h (p : FarcasterCast) :
  prototype (object_set parentMap h p) =
  if decide (h = "__proto__") then Some p else prototype parentMap.
Proof.
  unfold object_set. destruct (String.eqb_spec h "__proto__") as [-> | Hh]; simpl; [done |].
  by rewrite decide_False.
Qed.

(** An own property is the cast found for its key. *)
Lemma own_props_fold client (hs : list string) : ∀ parentMap key,
  String.eqb key "__proto__" = false →
  own_props (foldl (assign_found client) parentMap hs) !! key =
  if decide (key ∈ hs)
  then match parent_of client key with
       | Some p => Some p
       | None => own_props parentMap !! key
       end
  else own_props parentMap !! key.
Proof.
  induction hs as [| x hs IH]; intros parentMap key Hkey.
  - destruct (decide (key ∈ [])) as [Hin | Hin]; [by apply elem_of_nil in Hin | done].
  - simpl. rewrite IH by done.
    assert (Hstep : own_props (assign_found client parentMap x) !! key =
                    if decide (key = x)
                    then match parent_of client key with
                         | Some p => Some p
                         | None => own_props parentMap !! key
                         end
                    else own_props parentMap !! key).
    { unfold assign_found. destruct (decide (key = x)) as [-> | Hne].
      - destruct (parent_of client x) as [p |]; [| done].
        rewrite object_set_own by done. by rewrite decide_True.
      - destruct (parent_of client x) as [p |]; [| done].
        rewrite object_set_own by done. by rewrite decide_False. }
    rewrite Hstep.
    destruct (decide (key = x)) as [-> | Hne].
    + rewrite (decide_True (P := x ∈ x :: hs)) by (apply elem_of_cons; auto).
      destruct (parent_of client x); by case_decide.
    + destruct (decide (key ∈ hs)) as [Hin | Hnin].
      * rewrite (decide_True (P := key ∈ x :: hs)) by (apply elem_of_cons; auto). done.
      * rewrite (decide_False (P := key ∈ x :: hs)); [done |].
        intros [? | ?]%elem_of_cons; done.
Qed.

(** No assignment creates an own property [__proto__]. *)
Lemma own_props_fold_proto_key client (hs : list string) : ∀ parentMap,
  own_props (foldl (assign_found client) parentMap hs) !! "__proto__" =
  own_props parentMap !! "__proto__".
Proof.
  induction hs as [| x hs IH]; intros parentMap; [done |].
  simpl. rewrite IH. unfold assign_found.
  destruct (parent_of client x); [apply object_set_proto_key | done].
Qed.

(** The prototype is replaced by the cast found for the hash [__proto__]. *)
Lemma prototype_fold client (hs : list string) : ∀ parentMap,
  prototype (foldl (assign_found client) parentMap hs) =
  if decide ("__proto__" ∈ hs)
  then match parent_of client "__proto__" with
       | Some p => Some p
       | None => prototype parentMap
       end
  else prototype parentMap.
Proof.
  induction hs as [| x hs IH]; intros parentMap.
  - destruct (decide ("__proto__" ∈ [])) as [Hin | Hin]; [by apply elem_of_nil in Hin | done].
  - simpl. rewrite IH.
    assert (Hstep : prototype (assign_found client parentMap x) =
                    if decide (x = "__proto__")
                    then match parent_of client "__proto__" with
                         | Some p => Some p
                         | None => prototype parentMap
                         end
                    else prototype parentMap).
    { unfold assign_found. destruct (decide (x = "__proto__")) as [-> | Hne].
      - destruct (parent_of client "__proto__") as [p |]; [| done].
        rewrite object_set_prototype. by rewrite decide_True.
      - destruct (parent_of client x) as [p |]; [| done].
        rewrite object_set_prototype. by rewrite decide_False. }
    rewrite Hstep.
    destruct (decide (x = "__proto__")) as [-> | Hne].
    + rewrite (decide_True (P := "__proto__" ∈ "__proto__" :: hs))
        by (apply elem_of_cons; auto).
      destruct (parent_of client "__proto__"); by case_decide.
    + destruct (decide ("__proto__" ∈ hs)) as [Hin | Hnin].
      * rewrite (decide_True (P := "__proto__" ∈ x :: hs)) by (apply elem_of_cons; auto).
        done.
      * rewrite (decide_False (P := "__proto__" ∈ x :: hs)); [done |].
        intros [? | ?]%elem_of_cons; done.
Qed.

Lemma parentMap_for_prototype client (allCasts : list FarcasterCast) :
  "__proto__" ∉ referenced allCasts → prototype (parentMap_for client allCasts) = None.
Proof.
  intros Hnot. unfold parentMap_for. rewrite prototype_fold.
  rewrite decide_False; [done |]. by rewrite distinct_referenced.
Qed.


Lemma plain_not_proto h : plain h → String.eqb h "__proto__" = false.
Proof.
  intros Hplain. destruct (String.eqb_spec h "__proto__") as [-> | Hne]; [| done].
  destruct Hplain. by left.
Qed.


(** The hash of a parent that was found evaluates to that parent. *)
Lemma object_get_found client (allCasts : list FarcasterCast) h (p : FarcasterCast) :
  h ∈ referenced allCasts → parent_of client h = Some p →
  object_get (parentMap_for client allCasts) h = VObject p.
Proof.
  intros Hin Hfound. unfold object_get, parentMap_for.
  destruct (String.eqb_spec h "__proto__") as [-> | Hne].
  - rewrite own_props_fold_proto_key, prototype_fold. simpl. rewrite lookup_empty.
    rewrite decide_True by by rewrite distinct_referenced.
    by rewrite Hfound.
  - rewrite own_props_fold by by apply String.eqb_neq.
    rewrite decide_True by by rewrite distinct_referenced.
    by rewrite Hfound.
Qed.



Lemma object_get_plain client (allCasts : list FarcasterCast) h :
  parent_of client h = None → plain h → "__proto__" ∉ referenced allCasts →
  object_get (parentMap_for client allCasts) h = VUndefined.
Proof.
  intros Hnone Hplain Hnot. unfold object_get.
  rewrite (parentMap_for_prototype client allCasts Hnot). simpl.
  unfold parentMap_for. rewrite own_props_fold by by apply plain_not_proto.
  rewrite Hnone. simpl. rewrite lookup_empty.
  assert (Hown : (if decide (h ∈ distinct [] (referenced allCasts))
                  then @None FarcasterCast else None) = None) by by case_decide.
  rewrite Hown, plain_not_proto by done.
  rewrite bool_decide_eq_false_2; [done |].
  intros Hin. apply Hplain. by right.
Qed.

Lemma referenced_elem (allCasts : list FarcasterCast) (c : FarcasterCast) h :
  c ∈ allCasts → parentHash c = Some h → truthyS (Some h) = true →
  h ∈ referenced allCasts.
Proof.
  intros Hc Hh Htruthy. apply list_elem_of_omap. exists c. split; [done |].
  by rewrite Hh, Htruthy.
Qed.

Lemma referenced_hash (allCasts : list FarcasterCast) h :
  h ∈ referenced allCasts → ∃ c, c ∈ allCasts ∧ parentHash c = Some h.
Proof.
  intros (c & Hc & Hh)%list_elem_of_omap. exists c. split; [done |].
  by destruct (truthyS (parentHash c)).
Qed.

(** Where every parent hash is plain, each cast is linked to the parent that
    the lookup of its hash found, and to nothing else. *)
Lemma attachParent_plain client (allCasts : list FarcasterCast) (c : FarcasterCast) :
  c ∈ allCasts → "__proto__" ∉ referenced allCasts →
  (∀ h, parentHash c = Some h → plain h) →
  attachParent (parentMap_for client allCasts) c = attach_by (parent_of client) c.
Proof.
  intros Hc Hnot Hplain. unfold attachParent, attach_by.
  destruct (parentHash c) as [h |] eqn:Hh; [| done].
  destruct (truthyS (Some h)) eqn:Htruthy; [| done]. simpl.
  destruct (parent_of client h) as [p |] eqn:Hfound.
  - by rewrite (object_get_found client allCasts h p)
      by eauto using referenced_elem.
  - by rewrite (object_get_plain client allCasts h) by auto.
Qed.

Lemma resolveParents_plain client (allCasts : list FarcasterCast) :
  (∀ c h, c ∈ allCasts → parentHash c = Some h → plain h) →
  attachParent (parentMap_for client allCasts) <$> allCasts =
  attach_by (parent_of client) <$> allCasts.
Proof.
  intros Hplain. apply list_fmap_ext. intros i c Hc.
  apply list_elem_of_lookup_2 in Hc.
  apply attachParent_plain; [done | | by eauto].
  intros (c0 & Hc0 & Hh)%referenced_hash.
  apply (Hplain c0 "__proto__" Hc0 Hh). by left.
Qed.

Lemma attachParent_unlinked parentMap (c : FarcasterCast) :
  unlinked (attachParent parentMap c) = unlinked c.
Proof. unfold attachParent. by destruct (_ && _). Qed.

Lemma attachParent_top_level parentMap (c : FarcasterCast) :
  parentHash c = None → attachParent parentMap c = c.
Proof. intros Hnone. unfold attachParent. by rewrite Hnone. Qed.

(** *** [fetchCasts] as a pipeline *)

Lemma slice0_fmap {A B} (f : A → B) (k : Z) (l : list A) :
  slice0 k (f <$> l) = f <$> slice0 k l.
Proof. unfold slice0. rewrite length_fmap. by destruct (k <? 0); rewrite fmap_take. Qed.

Lemma truncated_fmap params (f : FarcasterCast → FarcasterCast) (l : list FarcasterCast) :
  truncated params (f <$> l) = f <$> truncated params l.
Proof. unfold truncated. destruct (truthy (all params)); [done | apply slice0_fmap]. Qed.

Lemma truncated_elem params (l : list FarcasterCast) (c : FarcasterCast) :
  c ∈ truncated params l → c ∈ l.
Proof.
  unfold truncated, slice0. destruct (truthy (all params)); [done |].
  destruct (_ <? 0); intros [i Hc]%list_elem_of_lookup;
    apply lookup_take_Some in Hc as [Hc _]; by eapply list_elem_of_lookup_2.
Qed.

(** [fetchCasts] is its page loop followed by ordering, linking and cutting. *)
Lemma fetchCasts_pipeline client (fid : Z) params :
  fetchCasts client fid params =
  bind (primary_fetch client fid params)
       (λ fetched,
          Ok (truncated params (enriched client params fetched <$> ordered params fetched))).
Proof.
  unfold fetchCasts, primary_fetch.
  destruct (paginate _ _ _ _ _) as [fetched | e]; [| done]. simpl.
  unfold truncated, enriched, ordered, effective_limit.
  destruct (truthy (includeParents params)).
  - destruct (truthy (all params)); destruct (default newest (sortOrder params));
      by rewrite resolveParents_total.
  - simpl. rewrite list_fmap_id.
    destruct (truthy (all params)); by destruct (default newest (sortOrder params)).
Qed.

(** What the page loop accumulates is drawn from what the pages retain. *)
Lemma paginate_Forall (P : FarcasterCast → Prop) fetchAll limit ir :
  ∀ (responses : list (Outcome (list RawCast))) acc out,
    (∀ page, Ok page ∈ responses → Forall P (retained ir page)) →
    Forall P acc → paginate fetchAll limit ir responses acc = Ok out → Forall P out.
Proof.
  induction responses as [| res rest IH]; intros acc out Hpage Hacc; simpl.
  - by intros [= <-].
  - destruct res as [casts | e]; [| done]. simpl.
    assert (Hacc' : Forall P (acc ++ retained ir casts)).
    { apply Forall_app. split; [done |]. apply Hpage. by left. }
    destruct (_ && _); [| by intros [= <-]].
    apply IH; [| done]. intros page Hin. apply Hpage. by right.
Qed.

(** The casts that the page loop delivers are fresh from [transformCast]:
    they carry no parent link, and no empty parent hash. *)
Lemma primary_fetch_fresh client (fid : Z) params (fetched : list FarcasterCast) :
  primary_fetch client fid params = Ok fetched →
  Forall (λ c, parentCast c = None ∧ ∀ h, parentHash c = Some h → truthyS (Some h) = true)
         fetched.
Proof.
  unfold primary_fetch.
  apply paginate_Forall; [| constructor].
  intros page _. unfold retained. apply Forall_fmap, Forall_forall.
  intros raw _. simpl. split; [done |].
  intros h. destruct (truthyS (parent_hash raw)) eqn:Htruthy; [| done].
  intros Hh. by rewrite Hh in Htruthy.
Qed.

Lemma ordered_elem params (fetched : list FarcasterCast) (c : FarcasterCast) :
  c ∈ ordered params fetched ↔ c ∈ fetched.
Proof.
  unfold ordered. destruct (default newest (sortOrder params)); [done |].
  apply elem_of_reverse.
Qed.



End ParentFacts.

(** ** Pagination *)
Module PaginationFacts.
Import Server ParentFacts.

Lemma history_cons ir (page : list RawCast) pages :
  history ir (page :: pages) = retained ir page ++ history ir pages.
Proof. done. Qed.

Lemma history_app ir (ps1 ps2 : list (list RawCast)) :
  history ir (ps1 ++ ps2) = history ir ps1 ++ history ir ps2.
Proof. unfold history. by rewrite fmap_app, concat_app. Qed.

Lemma history_take_mono ir (pages : list (list RawCast)) (j k : nat) :
  (j ≤ k)%nat →
  (length (history ir (take j pages)) ≤ length (history ir (take k pages)))%nat.
Proof.
  intros Hjk. replace k with (j + (k - j))%nat by lia.
  rewrite <- take_take_drop, history_app, length_app. lia.
Qed.

Lemma history_take_1 ir (page : list RawCast) rest :
  history ir (take 1 (page :: rest)) = retained ir page.
Proof. unfold history. simpl. apply app_nil_r. Qed.

Lemma history_take_S ir (page : list RawCast) rest k :
  history ir (take (S k) (page :: rest)) = retained ir page ++ history ir (take k rest).
Proof. done. Qed.

(** The last page ends the loop. *)
Lemma paginate_last fetchAll limit ir (page : list RawCast) acc :
  paginate fetchAll limit ir [Ok page] acc = Ok (acc ++ retained ir page).
Proof. done. Qed.

(** Before the last page, the bounded loop goes on while the retained items
    number less than the limit. *)
Lemma paginate_more n ir (page : list RawCast) next rest acc :
  paginate false (Finite n) ir (Ok page :: next :: rest) acc =
  if Z.of_nat (length (acc ++ retained ir page)) <? n
  then paginate false (Finite n) ir (next :: rest) (acc ++ retained ir page)
  else Ok (acc ++ retained ir page).
Proof. done. Qed.

(** The bounded page loop stops at the first page after which the retained
    items number at least [n], or at the last page. *)
Lemma paginate_bounded (n : Z) ir : ∀ (pages : list (list RawCast)) acc,
  ∃ k, (k ≤ length pages)%nat ∧ (pages ≠ [] → (1 ≤ k)%nat) ∧
       ((k < length pages)%nat →
        n ≤ Z.of_nat (length (acc ++ history ir (take k pages)))) ∧
       (∀ j, (1 ≤ j < k)%nat →
             Z.of_nat (length (acc ++ history ir (take j pages))) < n) ∧
       paginate false (Finite n) ir (Ok <$> pages) acc =
         Ok (acc ++ history ir (take k pages)).
Proof.
  induction pages as [| page rest IH]; intros acc.
  - exists 0%nat. simpl. rewrite app_nil_r. repeat split; try done; lia.
  - destruct rest as [| page' rest'].
    + exists 1%nat. rewrite history_take_1.
      change (Ok <$> [page]) with [@Ok (list RawCast) page].
      rewrite paginate_last. simpl. repeat split; try done; lia.
    + change (Ok <$> page :: page' :: rest')
        with (@Ok (list RawCast) page :: (Ok <$> page' :: rest')).
      rewrite fmap_cons, paginate_more, <- fmap_cons.
      destruct (Z.ltb_spec (Z.of_nat (length (acc ++ retained ir page))) n) as [Hlt | Hge].
      * destruct (IH (acc ++ retained ir page)) as (k & Hk & Hpos & Hstop & Hmin & Hrun).
        exists (S k). rewrite history_take_S, app_assoc.
        split; [simpl in *; lia |]. split; [lia |].
        split; [intros Hlen; apply Hstop; simpl in *; lia |].
        split; [| exact Hrun].
        intros j Hj. destruct j as [| j]; [lia |].
        rewrite history_take_S, app_assoc.
        destruct j as [| j].
        -- simpl. by rewrite app_nil_r.
        -- apply Hmin. lia.
      * exists 1%nat. rewrite history_take_1.
        split; [simpl; lia |]. split; [lia |]. split; [intros _; lia |].
        split; [intros j Hj; lia | done].
Qed.

(** C2, as the code has it. For the sort order "oldest" and a bounded limit
    [n], [fetchCasts] stops fetching at the first page after which the
    retained items number at least [n] (or at the last page), and returns
    the [n] oldest items of the pages it fetched, in chronological order,
    with the parent links that these pages give when parents are asked for;
    these are the [n] oldest items of the full history when the pages that
    were not fetched retain no item, and in particular when the pages before
    the last retain fewer than [n] items. *)
Theorem oldest_limit_truncates_fetched_pages client (fid n : Z)
    (params : FarcasterQueryParams) (pages : list (list RawCast)) :
  sortOrder params = Some oldest →
  truthy (all params) = false →
  limit params = Some n → 0 < n →
  fetchCastsForUser client fid (truthy (includeReplies params)) = Ok <$> pages →
  let ir := truthy (includeReplies params) in
  let oldest_of fetched :=
    Ok (enriched client params fetched <$> oldest_first n fetched) in
  (∃ k, (k ≤ length pages)%nat ∧ (pages ≠ [] → (1 ≤ k)%nat) ∧
        ((k < length pages)%nat → n ≤ Z.of_nat (length (history ir (take k pages)))) ∧
        (∀ j, (1 ≤ j < k)%nat → Z.of_nat (length (history ir (take j pages))) < n) ∧
        fetchCasts client fid params = oldest_of (history ir (take k pages)) ∧
        (history ir (drop k pages) = [] →
         fetchCasts client fid params = oldest_of (history ir pages))) ∧
  (Z.of_nat (length (history ir (take (length pages - 1) pages))) < n →
   fetchCasts client fid params = oldest_of (history ir pages)).
Proof.
  intros Hsort Hall Hlimit Hpos Hpages ir oldest_of.
  assert (Hshape : ∀ fetched,
            paginate false (Finite n) ir (Ok <$> pages) [] = Ok fetched →
            fetchCasts client fid params = oldest_of fetched).
  { intros fetched Hrun. rewrite fetchCasts_pipeline. unfold primary_fetch.
    rewrite Hall, Hlimit, Hpages. fold ir.
    assert (Hn : orZ (Some n) 50 = n).
    { simpl. destruct (Z.eqb_spec n 0); [lia | done]. }
    rewrite Hn, Hrun. simpl. unfold oldest_of. f_equal.
    unfold truncated, effective_limit. rewrite Hall, Hlimit, Hn, slice0_fmap.
    f_equal. unfold oldest_first, slice0, ordered. rewrite Hsort. simpl.
    by destruct (Z.ltb_spec n 0); [lia |]. }
  destruct (paginate_bounded n ir pages []) as (k & Hk & Hone & Hstop & Hmin & Hrun).
  simpl in Hstop, Hmin, Hrun.
  split.
  - exists k. repeat split; try done; [by apply Hshape |].
    intros Hrest. apply Hshape. rewrite Hrun. f_equal.
    rewrite <- (take_drop k pages) at 2. by rewrite history_app, Hrest, app_nil_r.
  - intros Hfew. apply Hshape. rewrite Hrun.
    destruct (decide (k < length pages)%nat) as [Hlt | Hge].
    + specialize (Hstop Hlt).
      pose proof (history_take_mono ir pages k (length pages - 1) ltac:(lia)). lia.
    + by rewrite take_ge by lia.
Qed.

Lemma oldest_limit_truncates_fetched_pages_witness :
  fetchCasts sample_client 3 oldest_two =
    Ok (oldest_first 2 (history false (take 1 [[c5; c4; c3]; [c2; c1]]))) ∧
  ∃ k, (k ≤ 2)%nat ∧
       fetchCasts sample_client 3 oldest_two =
         Ok (id <$> oldest_first 2 (history false (take k [[c5; c4; c3]; [c2; c1]]))).
Proof.
  split; [vm_compute; reflexivity |].
  destruct (oldest_limit_truncates_fetched_pages sample_client 3 2 oldest_two
              [[c5; c4; c3]; [c2; c1]])
    as [(k & Hk & _ & _ & _ & Hrun & _) _];
    [reflexivity | reflexivity | reflexivity | lia | reflexivity |].
  exists k. split; [exact Hk | exact Hrun].
Defined.

(** C2, as the specification states it, fails as soon as the first page already holds
    [n] items: on a history of five casts served on two pages, "oldest" with
    a limit of 2 returns the casts 0x03 and 0x04, the two oldest of the first
    page, and not the casts 0x01 and 0x02, the two oldest of the history. *)
Lemma oldest_limit_counterexample :
  let full := history false [[c5; c4; c3]; [c2; c1]] in
  fetchCastsForUser sample_client 3 false = Ok <$> [[c5; c4; c3]; [c2; c1]] ∧
  fetchCasts sample_client 3 oldest_two = Ok (transformCast <$> [c3; c4]) ∧
  oldest_first 2 full = transformCast <$> [c1; c2] ∧
  fetchCasts sample_client 3 oldest_two ≠ Ok (oldest_first 2 full).
Proof.
  intros full. split; [reflexivity |]. split; [vm_compute; reflexivity |].
  split; [vm_compute; reflexivity |].
  vm_compute. discriminate.
Qed.

End PaginationFacts.

(** ** The request handler *)
Module HandlerFacts.
Import Server.

Lemma orS_some (s : string) : orS (Some s) "" = s.
Proof. by destruct s. Qed.

(** What the handler answers once the checks are passed, when the
    resolution of the user name rejects. *)
Lemma fetchUserData_resolution_fails client name params now_get now_set cache e cache' :
  resolveFid client name now_get now_set cache = (Throw e, cache') →
  fetchUserData client (inr name) params now_get now_set cache = (Throw e, cache').
Proof. intros Hres. unfold fetchUserData. by rewrite Hres. Qed.

Lemma parsed_username Number q fid name :
  q !! "username" = Some name → truthyS (Some name) = true →
  orS (username (parsed Number q fid)) "" = strip_at (toLowerCase name).
Proof.
  intros Huser Hname. unfold parsed. simpl. rewrite Huser. simpl.
  destruct name as [| c name']; [done |]. apply orS_some.
Qed.

Lemma app_get_resolution_fails Number client q name now_get now_set cache e cache' :
  well_formed Number q name →
  resolveFid client (strip_at (toLowerCase name)) now_get now_set cache = (Throw e, cache') →
  app_get Number client q now_get now_set cache =
    (Text ("Error: " +:+ message_of e) 500, cache').
Proof.
  intros (Hfid & Huser & Hname & Hlimit & Hsort) Hres.
  assert (Hsorted : truthyS (q !! "sortOrder") &&
                    negb (bool_decide (q !! "sortOrder" ∈ [Some "newest"; Some "oldest"]))
                    = false).
  { destruct (truthyS (q !! "sortOrder")); [| done].
    by rewrite (bool_decide_eq_true_2 _ (Hsort eq_refl)). }
  assert (Hlimited : truthyS (q !! "limit") &&
                     match Number (default "" (q !! "limit")) with
                     | None => true
                     | Some n => n <=? 0
                     end = false).
  { destruct (truthyS (q !! "limit")); [| done].
    destruct (Hlimit eq_refl) as (n & -> & Hn). simpl. lia. }
  assert (Hnamed : truthyS (q !! "username") = true) by by rewrite Huser.
  unfold app_get.
  rewrite bool_decide_eq_false_2
    by (intros ->; by rewrite lookup_empty in Huser).
  rewrite Hfid, Hnamed, Hlimited, Hsorted. cbn [negb andb].
  rewrite (parsed_username Number q None name Huser Hname).
  by rewrite (fetchUserData_resolution_fails _ _ _ _ _ _ _ _ Hres).
Qed.

(** A miss of the provider makes [resolveFid] reject with "User not found",
    and a failure of the provider makes it reject with that failure. *)
Lemma resolveFid_not_found client name now_get now_set cache :
  truthyZ (getCached now_get ("fid:" +:+ strip_at (toLowerCase name)) cache).1 = false →
  lookupUserByUsername client (strip_at (toLowerCase name)) = Ok None →
  (resolveFid client name now_get now_set cache).1 =
    Throw (Error ("User not found: " +:+ name)).
Proof.
  intros Hmiss Hlook. unfold resolveFid.
  destruct (getCached now_get _ cache) as [cached cache1]. simpl in Hmiss.
  by rewrite Hmiss, Hlook.
Qed.

Lemma resolveFid_upstream client name now_get now_set cache e :
  truthyZ (getCached now_get ("fid:" +:+ strip_at (toLowerCase name)) cache).1 = false →
  lookupUserByUsername client (strip_at (toLowerCase name)) = Throw e →
  (resolveFid client name now_get now_set cache).1 = Throw e.
Proof.
  intros Hmiss Hlook. unfold resolveFid.
  destruct (getCached now_get _ cache) as [cached cache1]. simpl in Hmiss.
  by rewrite Hmiss, Hlook.
Qed.

(** C7, as the code has it. When the resolution of the user name of a
    well-formed query rejects, the handler answers with status 500 and the
    text "Error: " followed by the message of the rejection. This is so when
    the provider reports no match (the message is then "User not found: "
    followed by the name) and equally when the provider fails: the two are
    told apart by the text only, not by the status. *)
Theorem not_found_is_answered_with_500 Number client q name now_get now_set cache :
  well_formed Number q name →
  let user := strip_at (toLowerCase name) in
  let answer := (app_get Number client q now_get now_set cache).1 in
  (∀ e, (resolveFid client user now_get now_set cache).1 = Throw e →
        answer = Text ("Error: " +:+ message_of e) 500) ∧
  (truthyZ (getCached now_get ("fid:" +:+ strip_at (toLowerCase user)) cache).1 = false →
   (lookupUserByUsername client (strip_at (toLowerCase user)) = Ok None →
      answer = Text ("Error: User not found: " +:+ user) 500) ∧
   (∀ kind message,
      lookupUserByUsername client (strip_at (toLowerCase user)) = Throw (ErrorObj kind message) →
      answer = Text ("Error: " +:+ message) 500)).
Proof.
  intros Hwf user answer.
  assert (Hany : ∀ e, (resolveFid client user now_get now_set cache).1 = Throw e →
                      answer = Text ("Error: " +:+ message_of e) 500).
  { intros e He. subst answer.
    destruct (resolveFid client user now_get now_set cache) as [r cache'] eqn:Hres.
    simpl in He. subst r.
    by rewrite (app_get_resolution_fails Number client q name _ _ _ _ _ Hwf Hres). }
  split; [exact Hany |]. intros Hmiss. split.
  - intros Hnone.
    apply (Hany (Error ("User not found: " +:+ user))).
    by apply resolveFid_not_found.
  - intros kind message Hfail.
    apply (Hany (ErrorObj kind message)).
    by apply resolveFid_upstream.
Qed.

Lemma not_found_is_answered_with_500_witness :
  well_formed Number_decimal ghost_query "ghost" ∧
  (app_get Number_decimal sample_client ghost_query 1000 1001 ∅).1 =
    Text ("Error: User not found: " +:+ "ghost") 500.
Proof.
  assert (Hwf : well_formed Number_decimal ghost_query "ghost").
  { unfold well_formed, ghost_query. repeat split; try done; vm_compute; discriminate. }
  split; [exact Hwf |].
  apply (proj2 (not_found_is_answered_with_500 Number_decimal sample_client
                  ghost_query "ghost" 1000 1001 ∅ Hwf));
    reflexivity.
Defined.

(** C7, as the specification states it, fails: the provider has no user "ghost", the
    resolution rejects with "User not found", and the handler answers with
    status 500, which is no 4xx status. *)
Lemma not_found_status_counterexample :
  lookupUserByUsername sample_client "ghost" = Ok None ∧
  (resolveFid sample_client "ghost" 1000 1001 ∅).1 =
    Throw (Error "User not found: ghost") ∧
  (app_get Number_decimal sample_client ghost_query 1000 1001 ∅).1 =
    Text "Error: User not found: ghost" 500 ∧
  ¬ (400 ≤ http_status (app_get Number_decimal sample_client ghost_query 1000 1001 ∅).1 < 500).
Proof.
  split; [reflexivity |]. split; [reflexivity |]. split; [reflexivity |].
  vm_compute. intros [_ Hlt]. discriminate Hlt.
Qed.

End HandlerFacts.

(** ** The client *)
Module ClientFacts.
Import Sdk.

Section Client.
Variable URLSearchParams_toString : list (string * string) → string.
Variable wrapFetchWithPayment : FetchFn → EvmSigner → FetchFn.
Variable globalThis_fetch : FetchFn.
Variable DEFAULT_BASE_URL : string.

Local Abbreviation new_client :=
  (new_LlmFidClient wrapFetchWithPayment globalThis_fetch DEFAULT_BASE_URL).
Local Abbreviation fetch := (Sdk.fetch URLSearchParams_toString).
Local Abbreviation getUrl := (Sdk.getUrl URLSearchParams_toString).
Local Abbreviation getServerEstimate := (Sdk.getServerEstimate URLSearchParams_toString).
Local Abbreviation buildQueryString := (Sdk.buildQueryString URLSearchParams_toString).

(** Without a signer the transport of the client is the base transport. *)
Lemma no_signer_no_wrapper config :
  cfg_signer config = None →
  fetchFn (new_client config) = default globalThis_fetch (cfg_fetch config) ∧
  fetchFn (new_client config) = baseFetchFn (new_client config) ∧
  hasSigner (new_client config) = false.
Proof. intros Hnone. unfold new_LlmFidClient. by rewrite Hnone. Qed.

(** C8. For a client constructed without a signer, the transport of the
    client is the base transport itself, and a fetch (of a request that
    names a user) for which the base transport delivers a payment-required
    response returns the text and the status 402 of that response, without
    rejecting, and leaves the network as the one call of the base transport
    left it: there is no retry. *)
Theorem payment_required_without_signer config (options : FarcasterQueryParams)
    (w w' : World) (response : Response) :
  cfg_signer config = None →
  truthyZ (fid options) || truthyS (username options) = true →
  let c := new_client config in
  let transport := default globalThis_fetch (cfg_fetch config) in
  transport (getUrl c options) w = (Ok response, w') →
  resp_status response = 402 →
  fetchFn c = transport ∧
  fetch c options w =
    (Ok {| result_text := resp_text response; result_status := 402 |}, w').
Proof.
  intros Hnone Hident c transport Hsend Hstatus. subst c transport.
  destruct (no_signer_no_wrapper config Hnone) as (Hfn & _ & _).
  split; [exact Hfn |].
  unfold Sdk.fetch.
  assert (Hguard : negb (truthyZ (fid options)) && negb (truthyS (username options)) = false).
  { destruct (truthyZ (fid options)), (truthyS (username options)); done. }
  rewrite Hguard, Hfn.
  unfold Sdk.getUrl in Hsend. rewrite Hsend. by rewrite Hstatus.
Qed.

(** C10. When the request is in the free tier, [getServerEstimate] returns
    the free estimate and leaves the network and the estimate cache as they
    are. When it is not, [getServerEstimate] never rejects; and when no
    fresh estimate is cached, so that the estimate is requested, a request
    that rejects, or whose response is not ok, makes it return null and
    leaves the estimate cache as it is. *)
Theorem getServerEstimate_free_or_null (c : LlmFidClient) (options : FarcasterQueryParams)
    (now_check now_store : Z) (estimateCache : gmap string EstimateSlot) (w : World) :
  let run := getServerEstimate c options now_check now_store estimateCache w in
  let url := baseUrl c +:+ "/estimate?" +:+ buildQueryString options in
  let fresh :=
    match estimateCache !! getPricingFingerprint options with
    | Some slot => now_check - slot_timestamp slot <? ESTIMATE_CACHE_TTL
    | None => false
    end in
  (isFreeTier options = true →
     run = (Ok (Some {| price := "$0"; isFree := true; castCount := None |}),
            estimateCache, w)) ∧
  (isFreeTier options = false →
     (∃ result, run.1.1 = Ok result) ∧
     (fresh = false →
        run.2 = (baseFetchFn c url w).2 ∧
        ((∃ e, (baseFetchFn c url w).1 = Throw e) ∨
         (∃ response, (baseFetchFn c url w).1 = Ok response ∧ resp_ok response = false) →
         run = (Ok None, estimateCache, (baseFetchFn c url w).2)))).
Proof.
  intros run url fresh. subst run. unfold Sdk.getServerEstimate. split.
  - by intros ->.
  - intros ->.
    assert (Hrequest :
      let r := estimate_request URLSearchParams_toString c options
                 (getPricingFingerprint options) now_store estimateCache w in
      (∃ result, r.1.1 = Ok result) ∧
      r.2 = (baseFetchFn c url w).2 ∧
      ((∃ e, (baseFetchFn c url w).1 = Throw e) ∨
       (∃ response, (baseFetchFn c url w).1 = Ok response ∧ resp_ok response = false) →
       r = (Ok None, estimateCache, (baseFetchFn c url w).2))).
    { unfold estimate_request. fold url.
      destruct (baseFetchFn c url w) as [[response | e] w1]; simpl.
      - destruct (resp_ok response) eqn:Hok; simpl.
        + unfold json. destruct (resp_json response) as [estimate |]; simpl.
          * split; [by eexists |]. split; [done |].
            intros [[e [=]] | (r & [= <-] & Hr)]. congruence.
          * split; [by eexists |]. done.
        + split; [by eexists |]. done.
      - split; [by eexists |]. done. }
    simpl in Hrequest. destruct Hrequest as (Hok & Hworld & Hnull).
    subst fresh.
    destruct (estimateCache !! getPricingFingerprint options) as [slot |].
    + destruct (now_check - slot_timestamp slot <? ESTIMATE_CACHE_TTL).
      * split; [by eexists | done].
      * split; [done |]. by intros _.
    + split; [done |]. by intros _.
Qed.

End Client.

Lemma payment_required_without_signer_witness :
  let c := new_LlmFidClient retry_with_payment offline "https://api.llm-fid.fun"
             paywall_config in
  Sdk.fetch plain_query c hundred [] =
    (Ok {| result_text := "payment required"; result_status := 402 |},
     ["https://api.test.com?username=vitalik&limit=100"]).
Proof.
  intros c.
  apply (proj2 (payment_required_without_signer plain_query retry_with_payment offline
                  "https://api.llm-fid.fun" paywall_config hundred []
                  ["https://api.test.com?username=vitalik&limit=100"]
                  {| resp_status := 402; resp_text := "payment required";
                     resp_json := None |}
                  eq_refl eq_refl eq_refl eq_refl)).
Defined.

Lemma getServerEstimate_free_or_null_witness :
  let c := new_LlmFidClient retry_with_payment offline "https://api.llm-fid.fun"
             paywall_config in
  Sdk.getServerEstimate plain_query c (set_limit (Some 10) (set_username (Some "vitalik") no_options))
      1000 1001 ∅ [] =
    (Ok (Some {| price := "$0"; isFree := true; castCount := None |}), ∅, []) ∧
  Sdk.getServerEstimate plain_query c hundred 1000 1001 ∅ [] =
    (Ok None, ∅, ["https://api.test.com/estimate?username=vitalik&limit=100"]).
Proof.
  intros c. split.
  - apply (proj1 (getServerEstimate_free_or_null plain_query c
                    (set_limit (Some 10) (set_username (Some "vitalik") no_options))
                    1000 1001 ∅ [])).
    reflexivity.
  - destruct (getServerEstimate_free_or_null plain_query c hundred 1000 1001 ∅ [])
      as [_ Hpaid].
    destruct (Hpaid ltac:(reflexivity)) as [_ Hrequested].
    destruct (Hrequested ltac:(vm_compute; reflexivity)) as [_ Hnull].
    apply Hnull. right. eexists. split; reflexivity.
Defined.

End ClientFacts.

(** ** The default limit *)
Module DefaultFacts.
Import Sdk Server ParentFacts PaginationFacts.






End DefaultFacts.

(** ** More on the TTL cache *)
Module CacheMore.
Import Server.

Section Cache.
Context {T : Type}.
Implicit Types (cache : gmap string (CacheItem T)) (key : string) (v : T).

Lemma getCached_lookup_other cache key key' t :
  key ≠ key' → (getCached t key' cache).2 !! key = cache !! key.
Proof.
  intros Hne. unfold getCached.
  destruct (cache !! key') as [item |]; [destruct (expiry item <? t) |]; simpl;
    by rewrite ?lookup_delete_ne.
Qed.

Lemma getCached_by_lookup cache1 cache2 key t :
  cache1 !! key = cache2 !! key →
  (getCached t key cache1).1 = (getCached t key cache2).1.
Proof.
  intros Heq. unfold getCached. rewrite Heq.
  destruct (cache2 !! key) as [item |]; [by destruct (expiry item <? t) | done].
Qed.

Lemma getCached_absent cache key t :
  (getCached t key cache).1 = None → (getCached t key cache).2 = delete key cache.
Proof.
  unfold getCached.
  destruct (cache !! key) as [item |]; [destruct (expiry item <? t) |]; done.
Qed.

(** X1. The keys of the cache are independent: storing under one key, or
    reading one key (with the eviction this may cause), does not change what
    a read of another key returns. *)
Theorem cache_keys_are_independent cache key key' v (ttl : option Z) (t0 t1 t : Z) :
  key ≠ key' →
  (getCached t key' (setCache t0 key v ttl cache)).1 = (getCached t key' cache).1 ∧
  (getCached t key' (getCached t1 key cache).2).1 = (getCached t key' cache).1.
Proof.
  intros Hne. split; apply getCached_by_lookup.
  - unfold setCache. by rewrite lookup_insert_ne.
  - by apply getCached_lookup_other.
Qed.

(** X2. A read that returns a value leaves the cache as it is; a read that
    reports the value absent leaves no entry under the key, so that every
    read after it, at whatever time, reports the value absent until the key
    is stored again. *)
Theorem cache_read_effects cache key (t : Z) :
  (∀ v, (getCached t key cache).1 = Some v → (getCached t key cache).2 = cache) ∧
  ((getCached t key cache).1 = None →
     (getCached t key cache).2 = delete key cache ∧
     ∀ t', getCached t' key (getCached t key cache).2 =
           (None, (getCached t key cache).2)).
Proof.
  unfold getCached.
  destruct (cache !! key) as [item |] eqn:Hlook;
    [destruct (expiry item <? t) |]; simpl; split; try done.
  - intros _. split; [done |]. intros t'.
    by rewrite lookup_delete_eq, delete_delete_eq.
  - intros _. split; [done |]. intros t'.
    by rewrite lookup_delete_eq, delete_delete_eq.
Qed.

End Cache.

Lemma cache_read_effects_witness :
  let cache := setCache 0 "fid:bob" 7 (Some 300000) (∅ : gmap string (CacheItem Z)) in
  (getCached 300000 "fid:bob" cache).2 = cache ∧
  getCached 5 "fid:bob" (getCached 300001 "fid:bob" cache).2 =
    (None, (getCached 300001 "fid:bob" cache).2).
Proof.
  intros cache. split.
  - apply (proj1 (cache_read_effects cache "fid:bob" 300000) 7). reflexivity.
  - apply (proj2 (cache_read_effects cache "fid:bob" 300001)). reflexivity.
Defined.

Lemma cache_keys_are_independent_witness :
  let cache := setCache 0 "fid:bob" 7 (Some 300000) (∅ : gmap string (CacheItem Z)) in
  (getCached 1000 "fid:bob" (setCache 500 "fid:alice" 3 None cache)).1 = Some 7.
Proof.
  intros cache.
  rewrite (proj1 (cache_keys_are_independent cache "fid:alice" "fid:bob" 3 None 500 0 1000
                    ltac:(discriminate))).
  reflexivity.
Defined.

End CacheMore.

(** ** More on identifier resolution *)
Module ResolveMore.
Import Server.

Implicit Types (client : NeynarAPIClient) (cache : gmap string (CacheItem Z)).

(** X3. Once a user name has been resolved through the provider, every
    resolution of a name with the same normal form (lower case, one leading
    "@" removed) within 300000 ms of the store returns the same fid from the
    cache: the provider is not consulted, and the cache is left as it is. *)
Theorem resolveFid_serves_from_cache client username (now_get now_set : Z) cache
    (fid : Z) cache' :
  truthyZ (getCached now_get ("fid:" +:+ strip_at (toLowerCase username)) cache).1 = false →
  resolveFid client username now_get now_set cache = (Ok fid, cache') →
  ∀ client' username' (t t' : Z),
    strip_at (toLowerCase username') = strip_at (toLowerCase username) →
    t ≤ now_set + 300000 →
    resolveFid client' username' t t' cache' = (Ok fid, cache').
Proof.
  intros Hmiss Hfirst client' username' t t' Hsame Ht.
  unfold resolveFid in Hfirst.
  destruct (getCached now_get _ cache) as [cached cache1]. simpl in Hmiss.
  rewrite Hmiss in Hfirst.
  destruct (lookupUserByUsername client _) as [user | e]; [| done].
  destruct (truthyZ (raw_fid <$> user)) eqn:Hfid; [| done].
  simpl in Hfirst. injection Hfirst as <- <-.
  unfold resolveFid. rewrite Hsame.
  rewrite (CacheFacts.getCached_fresh _ _ _ _
             (CacheFacts.setCache_lookup cache1 _ _ 300000 now_set)) by (simpl; lia).
  destruct user as [user |]; [| done]. simpl in *. by rewrite Hfid.
Qed.

(** X4. A failed resolution is not cached: when the cache holds no live
    entry for the name and the resolution rejects (the provider has no
    match, or fails), the cache holds no entry for the name afterwards and
    every other entry is as before. *)
Theorem resolveFid_failure_is_not_cached client username (now_get now_set : Z) cache
    (e : Exn) cache' :
  (getCached now_get ("fid:" +:+ strip_at (toLowerCase username)) cache).1 = None →
  resolveFid client username now_get now_set cache = (Throw e, cache') →
  cache' = delete ("fid:" +:+ strip_at (toLowerCase username)) cache ∧
  ((lookupUserByUsername client (strip_at (toLowerCase username)) = Throw e) ∨
   (e = Error ("User not found: " +:+ username) ∧
    ∃ user, lookupUserByUsername client (strip_at (toLowerCase username)) = Ok user ∧
            truthyZ (raw_fid <$> user) = false)).
Proof.
  intros Hmiss Hres.
  pose proof (CacheMore.getCached_absent cache _ now_get Hmiss) as Hevict.
  unfold resolveFid in Hres.
  destruct (getCached now_get _ cache) as [cached cache1]. simpl in Hmiss, Hevict.
  subst cached cache1. simpl in Hres.
  destruct (lookupUserByUsername client _) as [user | e'] eqn:Hlook.
  - destruct (truthyZ (raw_fid <$> user)) eqn:Hfid; [done |].
    simpl in Hres. injection Hres as <- <-. split; [done |]. right. eauto.
  - injection Hres as <- <-. split; [done |]. by left.
Qed.

Lemma resolveFid_serves_from_cache_witness :
  let first := resolveFid sample_client "@Alice" 1000 1001 ∅ in
  first.1 = Ok 3 ∧
  resolveFid {| lookupUserByUsername := λ _, Throw (Error "offline");
                fetchBulkUsers := λ _, Ok [];
                fetchCastsForUser := λ _ _, [];
                lookupCastByHashOrUrl := λ _, Ok None |}
             "alice" 301001 301002 first.2 = (Ok 3, first.2).
Proof.
  intros first. split; [reflexivity |].
  apply (resolveFid_serves_from_cache sample_client "@Alice" 1000 1001 ∅ 3 first.2).
  - reflexivity.
  - reflexivity.
  - reflexivity.
  - lia.
Defined.

Lemma resolveFid_failure_is_not_cached_witness :
  (resolveFid sample_client "ghost" 1000 1001 ∅).2 = delete "fid:ghost" ∅.
Proof.
  apply (resolveFid_failure_is_not_cached sample_client "ghost" 1000 1001 ∅
           (Error "User not found: ghost")); reflexivity.
Defined.

End ResolveMore.

(** ** More on the rate limiter *)
Module LimiterMore.
Import Server LimiterFacts.

Implicit Types (rl : RateLimiter) (log : list (string * Z)) (ticks : Ticks).

Lemma own_window_bounded rl endpoint :
  within_ceilings rl →
  Z.of_nat (length (default [] (endpointRequests rl !! endpoint))) ≤ ENDPOINT_LIMIT.
Proof.
  intros [_ He]. destruct (endpointRequests rl !! endpoint) as [l |] eqn:Hl; simpl.
  - by eapply He.
  - unfold ENDPOINT_LIMIT. lia.
Qed.

Lemma within_ceilings_pass rl endpoint ticks :
  within_ceilings rl → within_ceilings (limiter_of (waitForSlot_pass rl endpoint ticks)).
Proof.
  intros Hb. pose proof (own_window_bounded rl endpoint Hb) as Hown.
  destruct Hb as [Hg He].
  pose proof (cleanOldRequests_length (t_clean_global ticks) (globalRequests rl)).
  pose proof (cleanOldRequests_length (t_clean_endpoint ticks)
                (default [] (endpointRequests rl !! endpoint))).
  destruct (waitForSlot_pass_cases rl endpoint ticks)
    as [[_ [waitTime ->]] | (Hgl & Hel & ->)]; split; simpl.
  - lia.
  - intros e l. destruct (decide (endpoint = e)) as [-> | Hne].
    + rewrite lookup_insert_eq. intros [= <-]. lia.
    + rewrite lookup_insert_ne by done. apply He.
  - rewrite length_app. simpl. lia.
  - intros e l. destruct (decide (endpoint = e)) as [-> | Hne].
    + rewrite lookup_insert_eq. intros [= <-]. rewrite length_app. simpl. lia.
    + rewrite lookup_insert_ne by done. apply He.
Qed.

Lemma within_ceilings_run passes : ∀ rl log,
  within_ceilings rl → within_ceilings (run rl log passes).1.
Proof.
  induction passes as [| p passes IH]; intros rl log Hb; simpl; [done |].
  apply IH. by apply within_ceilings_pass.
Qed.

(** X5. Whatever the clock does, the windows that the limiter stores never
    grow beyond the ceilings: the global window holds at most 450 timestamps
    and the window of each endpoint at most 250. *)
Theorem limiter_memory_is_bounded (passes : list Pass) :
  let rl := (run new_RateLimiter [] passes).1 in
  (length (globalRequests rl) ≤ 450)%nat ∧
  ∀ endpoint l, endpointRequests rl !! endpoint = Some l → (length l ≤ 250)%nat.
Proof.
  intros rl.
  destruct (within_ceilings_run passes new_RateLimiter []) as [Hg He].
  { split; simpl; [unfold GLOBAL_LIMIT; lia |].
    intros e l Hl. by rewrite lookup_empty in Hl. }
  fold rl in Hg, He. unfold GLOBAL_LIMIT in Hg. split; [lia |].
  intros endpoint l Hl. apply He in Hl. unfold ENDPOINT_LIMIT in Hl. lia.
Qed.

Lemma run_under_capacity passes : ∀ rl log (n : Z),
  Z.of_nat (length (globalRequests rl)) ≤ n →
  (∀ e l, endpointRequests rl !! e = Some l → Z.of_nat (length l) ≤ n) →
  n + Z.of_nat (length passes) ≤ ENDPOINT_LIMIT →
  (run rl log passes).2 =
    log ++ ((λ p, (pass_endpoint p, t_now (pass_ticks p))) <$> passes).
Proof.
  induction passes as [| p passes IH]; intros rl log n Hg He Hn; simpl.
  - by rewrite app_nil_r.
  - simpl in Hn. unfold ENDPOINT_LIMIT in *.
    pose proof (cleanOldRequests_length (t_clean_global (pass_ticks p)) (globalRequests rl)).
    pose proof (cleanOldRequests_length (t_clean_endpoint (pass_ticks p))
                  (default [] (endpointRequests rl !! pass_endpoint p))).
    assert (Hown : Z.of_nat (length (default [] (endpointRequests rl !! pass_endpoint p))) ≤ n).
    { destruct (endpointRequests rl !! pass_endpoint p) as [l |] eqn:Hl; simpl.
      - by eapply He.
      - lia. }
    destruct (waitForSlot_pass_cases rl (pass_endpoint p) (pass_ticks p))
      as [[Hfull _] | (_ & _ & ->)].
    + unfold GLOBAL_LIMIT, ENDPOINT_LIMIT in Hfull. lia.
    + simpl. rewrite (IH _ _ (n + 1)).
      * by rewrite <- app_assoc.
      * simpl. rewrite length_app. simpl. lia.
      * simpl. intros e l. destruct (decide (e = pass_endpoint p)) as [-> | Hne].
        -- rewrite lookup_insert_eq. intros [= <-]. rewrite length_app. simpl. lia.
        -- rewrite lookup_insert_ne by done. intros Hl. apply He in Hl. lia.
      * lia.
Qed.

(** X6. The limiter does not hold back traffic that is under capacity: of
    the first 250 passes of a process, on whatever endpoints and at whatever
    times, every one records its request, with the time it read first. *)
Theorem first_requests_are_all_granted (passes : list Pass) :
  (length passes ≤ 250)%nat →
  (run new_RateLimiter [] passes).2 =
    (λ p, (pass_endpoint p, t_now (pass_ticks p))) <$> passes.
Proof.
  intros Hlen.
  rewrite (run_under_capacity passes new_RateLimiter [] 0); simpl.
  - done.
  - lia.
  - intros e l Hl. by rewrite lookup_empty in Hl.
  - unfold ENDPOINT_LIMIT. lia.
Qed.

Lemma first_requests_are_all_granted_witness :
  (run new_RateLimiter [] sample_passes).2 =
    [("/v2/farcaster/feed/user/casts", 1000); ("/v2/farcaster/cast", 1500);
     ("/v2/farcaster/cast", 70000)].
Proof.
  rewrite (first_requests_are_all_granted sample_passes) by (simpl; lia).
  reflexivity.
Defined.

Lemma clean_stamped lo hi now (requests : list Z) :
  Forall (λ ts, lo ≤ ts ≤ hi) requests →
  Forall (λ ts, lo ≤ ts ≤ hi ∧ now - ts < WINDOW_MS) (cleanOldRequests now requests).
Proof.
  rewrite !Forall_forall. intros Hall ts [Hin Hts]%list_elem_of_filter. auto.
Qed.

Lemma stamped_default lo hi rl endpoint :
  stamped lo hi rl → Forall (λ ts, lo ≤ ts ≤ hi) (default [] (endpointRequests rl !! endpoint)).
Proof.
  intros [_ He]. destruct (endpointRequests rl !! endpoint) as [l |] eqn:Hl; simpl; eauto.
Qed.

Lemma stamped_pass lo hi rl endpoint ticks :
  stamped lo hi rl → lo ≤ t_now ticks →
  ∀ hi', hi ≤ hi' → t_now ticks ≤ hi' →
  stamped lo hi' (limiter_of (waitForSlot_pass rl endpoint ticks)).
Proof.
  intros Hs Hlo hi' Hhi Hnow.
  pose proof (stamped_default lo hi rl endpoint Hs) as Hown.
  destruct Hs as [Hg He].
  assert (Hwiden : ∀ l : list Z, Forall (λ ts, lo ≤ ts ≤ hi) l → Forall (λ ts, lo ≤ ts ≤ hi') l).
  { intros l Hl. eapply Forall_impl; [exact Hl |]. simpl. intros; lia. }
  assert (Hclean : ∀ now (l : list Z), Forall (λ ts, lo ≤ ts ≤ hi) l →
                     Forall (λ ts, lo ≤ ts ≤ hi') (cleanOldRequests now l)).
  { intros now l Hl. eapply Forall_impl; [by apply clean_stamped |]. simpl. intros; lia. }
  destruct (waitForSlot_pass_cases rl endpoint ticks)
    as [[_ [waitTime ->]] | (_ & _ & ->)]; split; simpl.
  - by apply Hclean.
  - intros e l. destruct (decide (endpoint = e)) as [-> | Hne].
    + rewrite lookup_insert_eq. intros [= <-]. by apply Hclean.
    + rewrite lookup_insert_ne by done. intros Hl. eauto.
  - apply Forall_app. split; [by apply Hclean |]. repeat constructor; lia.
  - intros e l. destruct (decide (endpoint = e)) as [-> | Hne].
    + rewrite lookup_insert_eq. intros [= <-].
      apply Forall_app. split; [by apply Hclean |]. repeat constructor; lia.
    + rewrite lookup_insert_ne by done. intros Hl. eauto.
Qed.

Lemma stamped_run passes : ∀ t0 lo rl log,
  lo ≤ t0 → stamped lo t0 rl → monotone_clock t0 passes →
  stamped lo (last_tick t0 passes) (run rl log passes).1.
Proof.
  induction passes as [| p passes IH]; intros t0 lo rl log Hlo Hs Hm; simpl; [done |].
  destruct Hm as (H0 & H1 & H2 & Hm).
  apply IH; [lia | | done].
  apply (stamped_pass lo t0); [done | lia | lia | lia].
Qed.

Lemma stamped_new lo hi : stamped lo hi new_RateLimiter.
Proof. split; simpl; [constructor |]. intros e l Hl. by rewrite lookup_empty in Hl. Qed.

(** Pruning after the window has passed over the oldest timestamp of a
    window drops at least that timestamp. *)
Lemma clean_drops_oldest t oldest (rest : list Z) :
  WINDOW_MS ≤ t - oldest →
  (length (cleanOldRequests t (oldest :: rest)) ≤ length rest)%nat.
Proof.
  intros Hold. unfold cleanOldRequests.
  rewrite filter_cons_False by lia. apply length_filter.
Qed.

(** The sleep of a suspended pass, and the window that held it back as the
    pass left it. *)
Lemma suspension_bounds (passes : list Pass) (t0 : Z)
    (endpoint : string) (ticks : Ticks) (waitTime : Z) (rl' : RateLimiter) :
  0 < t0 → monotone_clock t0 passes →
  last_tick t0 passes ≤ t_now ticks →
  t_now ticks ≤ t_clean_global ticks →
  t_clean_global ticks ≤ t_clean_endpoint ticks →
  waitForSlot_pass (run new_RateLimiter [] passes).1 endpoint ticks = Suspended waitTime rl' →
  100 < waitTime ≤ WINDOW_MS + 100 ∧
  ∀ t, t_now ticks + waitTime ≤ t →
    if GLOBAL_LIMIT <=? Z.of_nat (length (globalRequests rl'))
    then Z.of_nat (length (cleanOldRequests t (globalRequests rl'))) < GLOBAL_LIMIT
    else Z.of_nat (length (cleanOldRequests t (default [] (endpointRequests rl' !! endpoint))))
         < ENDPOINT_LIMIT.
Proof.
  intros Hpos Hclock Hlast Hnow Hclean.
  set (rl := (run new_RateLimiter [] passes).1).
  pose proof (stamped_run passes t0 t0 new_RateLimiter [] ltac:(lia)
                (stamped_new t0 t0) Hclock) as Hs.
  fold rl in Hs.
  pose proof (within_ceilings_run passes new_RateLimiter []
                ltac:(split; simpl; [unfold GLOBAL_LIMIT; lia |];
                      intros e l Hl; by rewrite lookup_empty in Hl)) as Hb.
  fold rl in Hb.
  pose proof (own_window_bounded rl endpoint Hb) as Hown.
  pose proof (stamped_default _ _ rl endpoint Hs) as Hsown.
  destruct Hb as [Hgb _]. destruct Hs as [Hsg _].
  pose proof (clean_stamped _ _ (t_clean_global ticks) _ Hsg) as Hcg.
  pose proof (clean_stamped _ _ (t_clean_endpoint ticks) _ Hsown) as Hce.
  pose proof (cleanOldRequests_length (t_clean_global ticks) (globalRequests rl)) as Hlg.
  pose proof (cleanOldRequests_length (t_clean_endpoint ticks)
                (default [] (endpointRequests rl !! endpoint))) as Hle.
  unfold waitForSlot_pass.
  set (globalReqs := cleanOldRequests (t_clean_global ticks) (globalRequests rl)) in *.
  set (endpointReqs := cleanOldRequests (t_clean_endpoint ticks)
                         (default [] (endpointRequests rl !! endpoint))) in *.
  unfold GLOBAL_LIMIT, ENDPOINT_LIMIT, WINDOW_MS in *.
  destruct (Z.leb_spec 450 (Z.of_nat (length globalReqs))) as [Hg | Hg]; simpl.
  - destruct globalReqs as [| o rest] eqn:Hreqs; [simpl in Hg; lia |].
    apply Forall_cons in Hcg as [Ho _].
    destruct (Z.eqb_spec o 0); [lia |].
    intros [= <- <-]. simpl.
    split; [lia |]. intros t Ht.
    destruct (Z.leb_spec 450 (Z.of_nat (S (length rest)))); [| simpl in Hg; lia].
    pose proof (clean_drops_oldest t o rest ltac:(unfold WINDOW_MS; lia)).
    simpl in Hlg. lia.
  - destruct (Z.leb_spec 250 (Z.of_nat (length endpointReqs))) as [He | He]; [| done].
    destruct endpointReqs as [| o rest] eqn:Hreqs; [simpl in He; lia |].
    apply Forall_cons in Hce as [Ho _].
    destruct (Z.eqb_spec o 0); [lia |].
    intros [= <- <-]. simpl.
    split; [lia |]. intros t Ht.
    destruct (Z.leb_spec 450 (Z.of_nat (length globalReqs))); [lia |].
    rewrite lookup_insert_eq. simpl.
    pose proof (clean_drops_oldest t o rest ltac:(unfold WINDOW_MS; lia)).
    simpl in Hle. lia.
Qed.

(** X7. For a process whose clock started after time 0 and does not go
    backwards, a pass that is suspended sleeps for more than 100 ms and at
    most 60100 ms (the fallback of one second on a missing oldest request is
    never taken). The sleep lets the oldest request leave the window that
    held the caller back: at any reading of the clock after the sleep, that
    window as the pass left it, pruned, is below its ceiling; in other
    words, of the requests admitted before the suspension, fewer than the
    ceiling lie in the trailing window. Requests that other callers record
    during the sleep are not counted here: they can fill the window again. *)
Theorem suspension_is_bounded_and_frees_a_slot (passes : list Pass) (t0 : Z)
    (endpoint : string) (ticks : Ticks) (waitTime : Z) (rl' : RateLimiter) :
  0 < t0 → monotone_clock t0 passes →
  last_tick t0 passes ≤ t_now ticks →
  t_now ticks ≤ t_clean_global ticks →
  t_clean_global ticks ≤ t_clean_endpoint ticks →
  waitForSlot_pass (run new_RateLimiter [] passes).1 endpoint ticks = Suspended waitTime rl' →
  let log := (run new_RateLimiter [] passes).2 in
  100 < waitTime ≤ WINDOW_MS + 100 ∧
  ∀ t, t_clean_endpoint ticks ≤ t → t_now ticks + waitTime ≤ t →
    if GLOBAL_LIMIT <=? Z.of_nat (length (globalRequests rl'))
    then Z.of_nat (length (cleanOldRequests t (globalRequests rl'))) < GLOBAL_LIMIT ∧
         Z.of_nat (length (in_window t (global_log log))) < GLOBAL_LIMIT
    else Z.of_nat (length (cleanOldRequests t (default [] (endpointRequests rl' !! endpoint))))
           < ENDPOINT_LIMIT ∧
         Z.of_nat (length (in_window t (endpoint_log endpoint log))) < ENDPOINT_LIMIT.
Proof.
  intros Hpos Hclock Hlast Hnow Hclean Hpass log.
  destruct (suspension_bounds passes t0 endpoint ticks waitTime rl'
              Hpos Hclock Hlast Hnow Hclean Hpass) as [Hsleep Hfree].
  split; [exact Hsleep |]. intros t Hlate Ht. specialize (Hfree t Ht).
  pose proof (consistent_run passes t0 new_RateLimiter [] (consistent_new t0) Hclock) as Hc.
  destruct (pass_finds_room (last_tick t0 passes) _ _ endpoint ticks Hc
              ltac:(lia) ltac:(lia)) as (_ & Hglobal & Hendpoint).
  rewrite Hpass in Hglobal, Hendpoint. simpl in Hglobal, Hendpoint.
  rewrite app_nil_r in Hglobal, Hendpoint. fold log in Hglobal, Hendpoint.
  destruct (GLOBAL_LIMIT <=? Z.of_nat (length (globalRequests rl'))).
  - split; [exact Hfree |].
    rewrite Hglobal in Hfree.
    change (cleanOldRequests t ?l) with (in_window t l) in Hfree.
    by rewrite (in_window_clean (t_clean_global ticks)) in Hfree by lia.
  - split; [exact Hfree |].
    rewrite Hendpoint in Hfree. simpl in Hfree.
    change (cleanOldRequests t ?l) with (in_window t l) in Hfree.
    by rewrite (in_window_clean (t_clean_endpoint ticks)) in Hfree by lia.
Qed.

(** X8. After a quiet minute every caller passes at once: when the clock
    has not gone backwards and both prunings of a pass read a time at least
    60000 ms after the last reading before it, the pass records its request,
    and the request is then the only one in the global window and in the
    window of its endpoint. *)
Theorem quiet_minute_empties_the_windows (passes : list Pass) (t0 : Z)
    (endpoint : string) (ticks : Ticks) :
  monotone_clock t0 passes →
  last_tick t0 passes + WINDOW_MS ≤ t_clean_global ticks →
  t_clean_global ticks ≤ t_clean_endpoint ticks →
  ∃ rl', waitForSlot_pass (run new_RateLimiter [] passes).1 endpoint ticks = Granted rl' ∧
         globalRequests rl' = [t_now ticks] ∧
         endpointRequests rl' !! endpoint = Some [t_now ticks].
Proof.
  intros Hclock Hquiet Hclean.
  set (rl := (run new_RateLimiter [] passes).1).
  pose proof (stamped_run passes t0 t0 new_RateLimiter [] ltac:(lia)
                (stamped_new t0 t0) Hclock) as Hs.
  fold rl in Hs.
  pose proof (stamped_default _ _ rl endpoint Hs) as Hsown.
  destruct Hs as [Hsg _].
  assert (Hempty : ∀ now (l : list Z),
            Forall (λ ts, t0 ≤ ts ≤ last_tick t0 passes) l →
            last_tick t0 passes + WINDOW_MS ≤ now → cleanOldRequests now l = []).
  { intros now l Hl Hlate. induction l as [| ts l IH]; [done |].
    apply Forall_cons in Hl as [Hts Hl]. unfold cleanOldRequests.
    rewrite filter_cons_False by lia. by apply IH. }
  assert (Hquiet' : last_tick t0 passes + WINDOW_MS ≤ t_clean_endpoint ticks) by lia.
  unfold waitForSlot_pass.
  rewrite (Hempty _ _ Hsg Hquiet), (Hempty _ _ Hsown Hquiet'). simpl.
  eexists. split; [done |]. split; [done |]. simpl. by rewrite lookup_insert_eq.
Qed.

Lemma suspension_is_bounded_and_frees_a_slot_witness :
  let pass := {| pass_endpoint := "/v2/farcaster/cast";
                 pass_ticks := {| t_now := 1000; t_clean_global := 1000;
                                  t_clean_endpoint := 1000 |} |} in
  let late := {| t_now := 1200; t_clean_global := 1200; t_clean_endpoint := 1200 |} in
  ∃ rl', waitForSlot_pass (run new_RateLimiter [] (replicate 250 pass)).1
           "/v2/farcaster/cast" late = Suspended 59900 rl' ∧
         100 < 59900 ≤ WINDOW_MS + 100.
Proof.
  intros pass late.
  assert (Hclock : ∀ n, monotone_clock 1000 (replicate n pass)).
  { induction n as [| n IH]; simpl; [done |]. repeat split; try lia. exact IH. }
  assert (Hlast : ∀ n, last_tick 1000 (replicate n pass) = 1000).
  { induction n as [| n IH]; simpl; [done | exact IH]. }
  assert (Hrun : ∃ rl', waitForSlot_pass (run new_RateLimiter [] (replicate 250 pass)).1
                          "/v2/farcaster/cast" late = Suspended 59900 rl').
  { vm_compute. eexists. reflexivity. }
  destruct Hrun as [rl' Hrun]. exists rl'. split; [exact Hrun |].
  apply (suspension_is_bounded_and_frees_a_slot (replicate 250 pass) 1000
           "/v2/farcaster/cast" late 59900 rl').
  - lia.
  - apply Hclock.
  - rewrite Hlast. simpl. lia.
  - simpl. lia.
  - simpl. lia.
  - exact Hrun.
Defined.

Lemma quiet_minute_empties_the_windows_witness :
  ∃ rl', waitForSlot_pass (run new_RateLimiter [] sample_passes).1 "/v2/farcaster/cast"
           {| t_now := 130002; t_clean_global := 130002; t_clean_endpoint := 130003 |}
         = Granted rl' ∧
         globalRequests rl' = [130002] ∧
         endpointRequests rl' !! "/v2/farcaster/cast" = Some [130002].
Proof.
  apply (quiet_minute_empties_the_windows sample_passes 0 "/v2/farcaster/cast"
           {| t_now := 130002; t_clean_global := 130002; t_clean_endpoint := 130003 |}).
  - simpl. lia.
  - simpl. unfold WINDOW_MS. lia.
  - simpl. lia.
Defined.

End LimiterMore.

(** ** More on [fetchCasts] *)
Module FetchMore.
Import Server ParentFacts PaginationFacts.

Implicit Types (client : NeynarAPIClient) (params : FarcasterQueryParams)
  (pages : list (list RawCast)).

(** Every hash starting with "0x" is plain. *)
Lemma hex_is_plain (digits : string) : plain ("0x" +:+ digits).
Proof.
  unfold plain, Object_prototype_names. rewrite !elem_of_cons, elem_of_nil.
  intros Hin. repeat (destruct Hin as [Hin | Hin]; [discriminate |]). done.
Qed.

(** In a feed whose parent hashes are plain, the casts of the page loop
    reference plain hashes only. *)
Lemma primary_fetch_plain client (fid : Z) params (fetched : list FarcasterCast) :
  plain_feed (fetchCastsForUser client fid (truthy (includeReplies params))) →
  primary_fetch client fid params = Ok fetched →
  ∀ c h, c ∈ fetched → parentHash c = Some h → plain h.
Proof.
  intros Hplain Hfetch.
  assert (Hall : Forall (λ c, ∀ h, parentHash c = Some h → plain h) fetched).
  { unfold primary_fetch in Hfetch.
    eapply paginate_Forall; [| constructor | exact Hfetch].
    intros page Hpage. unfold retained. apply Forall_fmap, Forall_forall.
    intros raw [_ Hraw]%list_elem_of_filter h. simpl.
    destruct (truthyS (parent_hash raw)); [| done].
    intros Hh. by apply (Hplain page raw h). }
  rewrite Forall_forall in Hall. intros c h Hc. by apply Hall.
Qed.

(** There, the links that [fetchCasts] sets are the parents found. *)
Lemma enriched_plain client (fid : Z) params (fetched : list FarcasterCast) :
  plain_feed (fetchCastsForUser client fid (truthy (includeReplies params))) →
  primary_fetch client fid params = Ok fetched →
  ∀ shown : list FarcasterCast, (∀ c, c ∈ shown → c ∈ fetched) →
    enriched client params fetched <$> shown = linked client params <$> shown.
Proof.
  intros Hplain Hfetch shown Hshown.
  pose proof (primary_fetch_plain client fid params fetched Hplain Hfetch) as Hhashes.
  unfold enriched, linked. destruct (truthy (includeParents params)); [| done].
  apply list_fmap_ext. intros i c Hc. apply list_elem_of_lookup_2, Hshown in Hc.
  apply attachParent_plain.
  - by apply ordered_elem.
  - intros (c0 & Hc0 & Hh)%referenced_hash. apply ordered_elem in Hc0.
    apply (Hhashes c0 "__proto__" Hc0 Hh). by left.
  - intros h. by apply Hhashes.
Qed.

(** When everything is asked for, the loop takes every page. *)
Lemma paginate_all limit ir : ∀ pages acc,
  paginate true limit ir (Ok <$> pages) acc = Ok (acc ++ history ir pages).
Proof.
  induction pages as [| page rest IH]; intros acc.
  - simpl. by rewrite app_nil_r.
  - destruct rest as [| page' rest'].
    + change (Ok <$> [page]) with [@Ok (list RawCast) page].
      rewrite paginate_last. unfold history. simpl. by rewrite app_nil_r.
    + specialize (IH (acc ++ retained ir page)).
      rewrite history_cons, app_assoc, <- IH. done.
Qed.

(** X9. With the sort order "newest" (or none) and a bounded limit, given
    or defaulted to 50, [fetchCasts] returns the first items of the full
    history, up to the limit, newest first, however many pages it has
    fetched; with parents asked for, the items carry the links that the
    fetched pages give: where the parent hashes of the feed are plain, each
    item carries the parent found for it. *)
Theorem newest_limit_is_a_prefix_of_the_history client (fid : Z) params pages :
  sortOrder params ≠ Some oldest →
  truthy (all params) = false →
  0 < effective_limit params →
  fetchCastsForUser client fid (truthy (includeReplies params)) = Ok <$> pages →
  let shown := take (Z.to_nat (effective_limit params))
                    (history (truthy (includeReplies params)) pages) in
  (∃ fetched, primary_fetch client fid params = Ok fetched ∧
     fetchCasts client fid params = Ok (enriched client params fetched <$> shown)) ∧
  (plain_feed (Ok <$> pages) →
   fetchCasts client fid params = Ok (linked client params <$> shown)).
Proof.
  intros Hsort Hall Hpos Hpages shown.
  set (ir := truthy (includeReplies params)) in *.
  set (n := effective_limit params) in *.
  destruct (paginate_bounded n ir pages []) as (k & Hk & _ & Hstop & _ & Hrun).
  simpl in Hstop, Hrun.
  assert (Hfetch : primary_fetch client fid params = Ok (history ir (take k pages))).
  { unfold primary_fetch. fold ir. rewrite Hall, Hpages. exact Hrun. }
  assert (Hshown : truncated params (ordered params (history ir (take k pages))) = shown).
  { unfold truncated, ordered. rewrite Hall.
    assert (Hnewest : default newest (sortOrder params) = newest).
    { destruct (sortOrder params) as [[] |]; done. }
    rewrite Hnewest. unfold slice0. fold n. destruct (Z.ltb_spec n 0); [lia |].
    unfold shown.
    destruct (decide (k < length pages)%nat) as [Hlt | Hge].
    - rewrite <- (take_drop k pages) at 2. rewrite history_app.
      rewrite take_app_le; [done |]. specialize (Hstop Hlt). lia.
    - by rewrite (take_ge pages k) by lia. }
  assert (Hresult : fetchCasts client fid params =
                    Ok (enriched client params (history ir (take k pages)) <$> shown)).
  { rewrite fetchCasts_pipeline, Hfetch. simpl. by rewrite truncated_fmap, Hshown. }
  split; [by eexists |].
  intros Hplain. rewrite Hresult. f_equal.
  apply (enriched_plain client fid); [by fold ir; rewrite Hpages | done |].
  intros c Hc. rewrite <- Hshown in Hc.
  by apply truncated_elem, ordered_elem in Hc.
Qed.

(** X10. When everything is asked for, [fetchCasts] returns every retained
    item of every page, whatever the limit says, in the order asked for;
    where the parent hashes of the feed are plain, each item carries the
    parent found for it when parents are asked for. *)
Theorem fetch_all_returns_the_whole_history client (fid : Z) params pages :
  truthy (all params) = true →
  fetchCastsForUser client fid (truthy (includeReplies params)) = Ok <$> pages →
  let full := history (truthy (includeReplies params)) pages in
  fetchCasts client fid params =
    Ok (enriched client params full <$> ordered params full) ∧
  (plain_feed (Ok <$> pages) →
   fetchCasts client fid params = Ok (linked client params <$> ordered params full)) ∧
  fetchCasts client fid params = fetchCasts client fid (set_limit None params).
Proof.
  intros Hall Hpages full.
  assert (Hfetch : primary_fetch client fid params = Ok full).
  { unfold primary_fetch. rewrite Hall, Hpages. apply paginate_all. }
  assert (Hresult : fetchCasts client fid params =
                    Ok (enriched client params full <$> ordered params full)).
  { rewrite fetchCasts_pipeline, Hfetch. simpl. unfold truncated. by rewrite Hall. }
  split; [exact Hresult |]. split.
  - intros Hplain. rewrite Hresult. f_equal.
    apply (enriched_plain client fid); [by rewrite Hpages | done |].
    intros c. apply ordered_elem.
  - unfold fetchCasts. simpl. by rewrite Hall.
Qed.

(** X11. A bounded request never returns more items than its limit, whatever
    the provider serves. *)
Theorem bounded_fetch_respects_the_limit client (fid : Z) params (casts : list FarcasterCast) :
  truthy (all params) = false →
  0 ≤ effective_limit params →
  fetchCasts client fid params = Ok casts →
  Z.of_nat (length casts) ≤ effective_limit params.
Proof.
  intros Hall Hpos. rewrite fetchCasts_pipeline.
  destruct (primary_fetch client fid params) as [fetched | e]; [| done].
  simpl. intros [= <-]. unfold truncated, slice0. rewrite Hall.
  destruct (Z.ltb_spec (effective_limit params) 0); [lia |].
  rewrite length_take. lia.
Qed.

Lemma newest_limit_is_a_prefix_of_the_history_witness :
  fetchCasts sample_client 3 (set_limit (Some 4) (set_sortOrder (Some newest) no_options)) =
    Ok (transformCast <$> [c5; c4; c3; c2]).
Proof.
  rewrite (proj2 (newest_limit_is_a_prefix_of_the_history sample_client 3
                    (set_limit (Some 4) (set_sortOrder (Some newest) no_options))
                    [[c5; c4; c3]; [c2; c1]]
                    ltac:(discriminate) eq_refl eq_refl eq_refl)).
  - reflexivity.
  - intros page raw h Hpage Hraw Hh. exfalso.
    apply list_elem_of_fmap in Hpage as (page' & [= <-] & Hpage).
    vm_compute in Hpage, Hraw.
    repeat (apply elem_of_cons in Hpage as [-> | Hpage];
            [repeat (apply elem_of_cons in Hraw as [-> | Hraw]; [discriminate |]);
             by apply elem_of_nil in Hraw |]).
    by apply elem_of_nil in Hpage.
Defined.

Lemma fetch_all_returns_the_whole_history_witness :
  fetchCasts sample_client 3
      (set_all (Some true) (set_limit (Some 2) (set_sortOrder (Some oldest) no_options))) =
    Ok (transformCast <$> [c1; c2; c3; c4; c5]).
Proof.
  rewrite (proj1 (fetch_all_returns_the_whole_history sample_client 3
             (set_all (Some true) (set_limit (Some 2) (set_sortOrder (Some oldest) no_options)))
             [[c5; c4; c3]; [c2; c1]] eq_refl eq_refl)).
  reflexivity.
Defined.

Lemma bounded_fetch_respects_the_limit_witness :
  ∃ casts, fetchCasts sample_client 3 oldest_two = Ok casts ∧ Z.of_nat (length casts) ≤ 2.
Proof.
  exists (transformCast <$> [c3; c4]). split; [reflexivity |].
  apply (bounded_fetch_respects_the_limit sample_client 3 oldest_two);
    [reflexivity | vm_compute; discriminate | reflexivity].
Defined.

Lemma retained_top_level page :
  Forall (λ c, parentHash c = None ∧ parentCast c = None) (retained false page).
Proof.
  unfold retained. apply Forall_fmap, Forall_forall.
  intros raw [Hkeep _]%list_elem_of_filter. simpl in *.
  by destruct (truthyS (parent_hash raw)).
Qed.

Lemma primary_fetch_ignores_parents client (fid : Z) params b :
  primary_fetch client fid (set_includeParents b params) = primary_fetch client fid params.
Proof. done. Qed.

(** X12. Without [includeReplies], no reply is returned, even when the
    provider serves replies: every returned item has neither a parent hash
    nor a parent link; and asking for parents then changes nothing. *)
Theorem replies_are_filtered_out client (fid : Z) params (casts : list FarcasterCast) :
  truthy (includeReplies params) = false →
  fetchCasts client fid params = Ok casts →
  Forall (λ c, parentHash c = None ∧ parentCast c = None) casts ∧
  fetchCasts client fid (set_includeParents None params) = Ok casts.
Proof.
  intros Hreplies. rewrite !fetchCasts_pipeline, primary_fetch_ignores_parents.
  destruct (primary_fetch client fid params) as [fetched | e] eqn:Hfetch; [| done].
  simpl. intros [= <-].
  assert (Hfetched : Forall (λ c, parentHash c = None ∧ parentCast c = None) fetched).
  { unfold primary_fetch in Hfetch. rewrite Hreplies in Hfetch.
    eapply paginate_Forall; [| constructor | exact Hfetch].
    intros page _. apply retained_top_level. }
  assert (Hordered : Forall (λ c, parentHash c = None ∧ parentCast c = None)
                            (ordered params fetched)).
  { unfold ordered. destruct (default newest (sortOrder params)); [done |].
    by apply Forall_reverse. }
  assert (Hsame : enriched client params fetched <$> ordered params fetched =
                  ordered params fetched).
  { transitivity (id <$> ordered params fetched); [| apply list_fmap_id].
    apply list_fmap_ext. intros i c Hc.
    unfold enriched. destruct (truthy (includeParents params)); [| done].
    apply attachParent_top_level.
    by apply (proj1 (Forall_lookup_1 _ _ _ _ Hordered Hc)). }
  rewrite Hsame. split.
  - unfold truncated, slice0. destruct (truthy (all params)); [done |].
    destruct (_ <? 0); by apply Forall_take.
  - unfold enriched. simpl. by rewrite list_fmap_id.
Qed.

Lemma replies_are_filtered_out_witness :
  let client :=
    {| lookupUserByUsername := lookupUserByUsername sample_client;
       fetchBulkUsers := fetchBulkUsers sample_client;
       fetchCastsForUser := λ _ _, [Ok [c5; raw_reply "0x14" "0x01" "2024-01-04"; c3]];
       lookupCastByHashOrUrl := lookupCastByHashOrUrl sample_client |} in
  fetchCasts client 3 (set_includeParents (Some true) no_options) =
    Ok (transformCast <$> [c5; c3]) ∧
  fetchCasts client 3 (set_includeParents None (set_includeParents (Some true) no_options)) =
    Ok (transformCast <$> [c5; c3]).
Proof.
  intros client. split; [reflexivity |].
  apply (proj2 (replies_are_filtered_out client 3 (set_includeParents (Some true) no_options)
                  (transformCast <$> [c5; c3]) eq_refl eq_refl)).
Defined.

Lemma below_mono (len1 len2 : nat) limit :
  (len1 ≤ len2)%nat → below len2 limit = true → below len1 limit = true.
Proof. intros Hle. destruct limit as [| n]; simpl; [done |]. lia. Qed.

Lemma paginate_reaches_failure fetchAll limit ir e rest : ∀ pages acc,
  fetchAll || below (length (acc ++ history ir pages)) limit = true →
  paginate fetchAll limit ir ((Ok <$> pages) ++ Throw e :: rest) acc = Throw e.
Proof.
  induction pages as [| page pages IH]; intros acc Hgo; [done |].
  rewrite fmap_cons. simpl.
  assert (Hcursor : match (Ok <$> pages) ++ Throw e :: rest with
                    | [] => false | _ :: _ => true end = true).
  { by destruct pages. }
  rewrite Hcursor. simpl.
  rewrite history_cons, app_assoc in Hgo.
  assert (Hnow : fetchAll || below (length (acc ++ retained ir page)) limit = true).
  { destruct fetchAll; [done |]. simpl in *.
    eapply below_mono; [| exact Hgo]. rewrite (length_app (acc ++ _)). lia. }
  rewrite Hnow. by apply IH.
Qed.

(** X13. A failure of the provider in the page loop is fatal to the whole
    request: when everything is asked for, or the pages served before the
    failing one retain fewer items than the limit, [fetchCasts] rejects with
    the failure of that page, and nothing of the pages before it is returned. *)
Theorem upstream_failure_is_fatal client (fid : Z) params pages (e : Exn)
    (rest : list (Outcome (list RawCast))) :
  fetchCastsForUser client fid (truthy (includeReplies params)) =
    (Ok <$> pages) ++ Throw e :: rest →
  truthy (all params) = true ∨
  Z.of_nat (length (history (truthy (includeReplies params)) pages)) < effective_limit params →
  fetchCasts client fid params = Throw e.
Proof.
  intros Hpages Hreach. rewrite fetchCasts_pipeline. unfold primary_fetch.
  rewrite Hpages, paginate_reaches_failure; [done |].
  destruct (truthy (all params)); [done |]. simpl.
  destruct Hreach as [? | Hlt]; [done |]. unfold effective_limit in Hlt. lia.
Qed.

Lemma upstream_failure_is_fatal_witness :
  let client :=
    {| lookupUserByUsername := lookupUserByUsername sample_client;
       fetchBulkUsers := fetchBulkUsers sample_client;
       fetchCastsForUser := λ _ _, [Ok [c5; c4; c3]; Throw (Error "429"); Ok [c2; c1]];
       lookupCastByHashOrUrl := lookupCastByHashOrUrl sample_client |} in
  fetchCasts client 3 (set_limit (Some 4) no_options) = Throw (Error "429").
Proof.
  intros client.
  apply (upstream_failure_is_fatal client 3 (set_limit (Some 4) no_options)
           [[c5; c4; c3]] (Error "429") [Ok [c2; c1]]).
  - reflexivity.
  - right. vm_compute. reflexivity.
Defined.

Lemma paginate_stops_early (n : Z) ir (rest : list (Outcome (list RawCast))) :
  ∀ pages acc,
    pages ≠ [] → n ≤ Z.of_nat (length (acc ++ history ir pages)) →
    paginate false (Finite n) ir ((Ok <$> pages) ++ rest) acc =
    paginate false (Finite n) ir (Ok <$> pages) acc.
Proof.
  induction pages as [| page pages IH]; intros acc Hne Hfull; [done |].
  destruct pages as [| page' pages'].
  - change (Ok <$> [page]) with [@Ok (list RawCast) page].
    rewrite paginate_last. simpl.
    rewrite history_take_1 in Hfull || (unfold history in Hfull; simpl in Hfull;
                                        rewrite app_nil_r in Hfull).
    destruct rest as [| r rest']; [done |]. simpl.
    destruct (Z.ltb_spec (Z.of_nat (length (acc ++ retained ir page))) n); [lia | done].
  - specialize (IH (acc ++ retained ir page) ltac:(done)).
    rewrite !fmap_cons, <- !app_comm_cons, !paginate_more.
    rewrite !fmap_cons, <- !app_comm_cons in IH.
    destruct (Z.ltb_spec (Z.of_nat (length (acc ++ retained ir page))) n) as [Hlt | Hge];
      [| done].
    apply IH. by rewrite history_cons, app_assoc in Hfull.
Qed.

(** The parent map depends on the provider through its lookups only. *)
Lemma parentMap_for_ext client client' (allCasts : list FarcasterCast) :
  lookupCastByHashOrUrl client = lookupCastByHashOrUrl client' →
  parentMap_for client allCasts = parentMap_for client' allCasts.
Proof.
  intros Hlookup. unfold parentMap_for.
  generalize empty_object. induction (distinct [] (referenced allCasts)) as [| h hs IH];
    intros parentMap; [done |].
  simpl. rewrite IH. f_equal. unfold assign_found, parent_of. by rewrite Hlookup.
Qed.

(** X14. Pages beyond the one that fills the limit are never requested: when
    the first pages of the feed, all served, retain at least as many items
    as the limit of a bounded request, [fetchCasts] returns what it returns
    when the feed ends with these pages, whatever the provider would have
    answered to further page requests. *)
Theorem later_pages_are_not_requested client client' (fid : Z) params pages
    (rest : list (Outcome (list RawCast))) :
  pages ≠ [] →
  truthy (all params) = false →
  effective_limit params ≤ Z.of_nat (length (history (truthy (includeReplies params)) pages)) →
  fetchCastsForUser client fid (truthy (includeReplies params)) = (Ok <$> pages) ++ rest →
  fetchCastsForUser client' fid (truthy (includeReplies params)) = Ok <$> pages →
  lookupCastByHashOrUrl client' = lookupCastByHashOrUrl client →
  fetchCasts client fid params = fetchCasts client' fid params.
Proof.
  intros Hne Hall Hfull Hpages Hpages' Hlookup.
  rewrite !fetchCasts_pipeline. unfold primary_fetch.
  rewrite Hall, Hpages, Hpages', paginate_stops_early by done.
  destruct (paginate _ _ _ _ _) as [fetched | e]; [| done]. simpl.
  unfold enriched. by rewrite (parentMap_for_ext client' client).
Qed.

Lemma later_pages_are_not_requested_witness :
  let client :=
    {| lookupUserByUsername := lookupUserByUsername sample_client;
       fetchBulkUsers := fetchBulkUsers sample_client;
       fetchCastsForUser := λ _ _, [Ok [c5; c4; c3]; Throw (Error "429"); Ok [c2; c1]];
       lookupCastByHashOrUrl := lookupCastByHashOrUrl sample_client |} in
  let client' :=
    {| lookupUserByUsername := lookupUserByUsername sample_client;
       fetchBulkUsers := fetchBulkUsers sample_client;
       fetchCastsForUser := λ _ _, [Ok [c5; c4; c3]];
       lookupCastByHashOrUrl := lookupCastByHashOrUrl sample_client |} in
  fetchCasts client 3 oldest_two = fetchCasts client' 3 oldest_two ∧
  fetchCasts client 3 oldest_two = Ok (transformCast <$> [c3; c4]).
Proof.
  intros client client'. split; [| reflexivity].
  apply (later_pages_are_not_requested client client' 3 oldest_two [[c5; c4; c3]]
           [Throw (Error "429"); Ok [c2; c1]]).
  - discriminate.
  - reflexivity.
  - vm_compute. discriminate.
  - reflexivity.
  - reflexivity.
  - reflexivity.
Defined.

Lemma distinct_NoDup (hashes : list string) : ∀ seen, NoDup (distinct seen hashes).
Proof.
  induction hashes as [| h hashes IH]; intros seen; simpl; [constructor |].
  case_bool_decide; [apply IH |]. constructor; [| apply IH].
  intros [_ Hnot]%distinct_elem. apply Hnot. by left.
Qed.

Lemma batches_sizes (n : nat) : ∀ fuel (hashes : list string),
  Forall (λ batch, (1 ≤ length batch ≤ S n)%nat) (batches fuel (S n) hashes).
Proof.
  induction fuel as [| fuel IH]; intros hashes; [constructor |].
  destruct hashes as [| h hashes]; [constructor |].
  change (batches (S fuel) (S n) (h :: hashes))
    with (take (S n) (h :: hashes) :: batches fuel (S n) (drop (S n) (h :: hashes))).
  constructor; [| apply IH].
  rewrite length_take. simpl. lia.
Qed.

(** X15. The parents are looked up economically: the batches of hashes that
    [fetchCasts] looks up hold each parent hash once, however many casts
    reply to it; they hold exactly the non-empty parent hashes of the casts;
    and every batch holds between 1 and 25 hashes. *)
Theorem parents_are_looked_up_once client (allCasts : list FarcasterCast) :
  resolveParents client allCasts =
    bind (resolveBatches client (parent_batches allCasts) empty_object)
         (λ parentMap, Ok (attachParent parentMap <$> allCasts)) ∧
  NoDup (concat (parent_batches allCasts)) ∧
  Forall (λ batch, (1 ≤ length batch ≤ 25)%nat) (parent_batches allCasts) ∧
  ∀ h, h ∈ concat (parent_batches allCasts) ↔
       ∃ c, c ∈ allCasts ∧ parentHash c = Some h ∧ h ≠ "".
Proof.
  split; [done |]. unfold parent_batches. rewrite batches_concat by done.
  split; [apply distinct_NoDup |]. split; [apply batches_sizes |].
  intros h. rewrite distinct_elem. unfold referenced. rewrite list_elem_of_omap.
  split.
  - intros [(c & Hc & Hh) _]. exists c. split; [done |].
    destruct (parentHash c) as [h' |]; [| done].
    destruct h'; simpl in Hh; [done |]. by injection Hh as <-.
  - intros (c & Hc & Hh & Hne). split; [| by intros ?%elem_of_nil].
    exists c. split; [done |]. rewrite Hh. by destruct h.
Qed.

(** Asking for parents touches the parent links only. *)
Lemma fetchCasts_unlinked client (fid : Z) params b :
  fetchCasts client fid (set_includeParents None params) =
  bind (fetchCasts client fid (set_includeParents b params))
       (λ casts, Ok (unlinked <$> casts)).
Proof.
  rewrite !fetchCasts_pipeline, !primary_fetch_ignores_parents.
  destruct (primary_fetch client fid params) as [fetched | e] eqn:Hfetch; [| done].
  simpl. f_equal. rewrite <- truncated_fmap, <- list_fmap_compose.
  unfold enriched at 1. simpl. rewrite list_fmap_id.
  change (truncated (set_includeParents None params)) with (truncated params).
  change (truncated (set_includeParents b params)) with (truncated params).
  change (ordered (set_includeParents None params)) with (ordered params).
  change (ordered (set_includeParents b params)) with (ordered params).
  f_equal. transitivity (id <$> ordered params fetched); [by rewrite list_fmap_id |].
  apply list_fmap_ext. intros i c Hc. simpl.
  pose proof (primary_fetch_fresh client fid params fetched Hfetch) as Hfresh.
  rewrite Forall_forall in Hfresh.
  apply list_elem_of_lookup_2, ordered_elem, Hfresh in Hc as [Hlink _].
  assert (Hunlinked : unlinked c = c) by (destruct c; simpl in Hlink; by subst).
  unfold enriched. destruct (truthy _); [| done].
  by rewrite attachParent_unlinked.
Qed.

Lemma fetchCasts_without_parents client (fid : Z) params b :
  truthy b = false →
  fetchCasts client fid (set_includeParents b params) =
  fetchCasts client fid (set_includeParents None params).
Proof. intros Hb. unfold fetchCasts. simpl. by rewrite Hb. Qed.

(** X16. Asking for parents changes nothing but the parent links: without
    its links, the answer is the answer of the same request without
    parents, and the request rejects exactly when that request rejects.
    Where the parent hashes of the feed are plain, the answer is that of the
    request without parents with each item linked to the parent found for
    its parent hash, and no other item linked. *)
Theorem parents_only_add_links client (fid : Z) params :
  fetchCasts client fid (set_includeParents None params) =
    bind (fetchCasts client fid (set_includeParents (Some true) params))
         (λ casts, Ok (unlinked <$> casts)) ∧
  (plain_feed (fetchCastsForUser client fid (truthy (includeReplies params))) →
   fetchCasts client fid (set_includeParents (Some true) params) =
     bind (fetchCasts client fid (set_includeParents None params))
          (λ casts, Ok (attach_by (parent_of client) <$> casts))).
Proof.
  split; [apply fetchCasts_unlinked |].
  intros Hplain.
  rewrite !fetchCasts_pipeline, !primary_fetch_ignores_parents.
  destruct (primary_fetch client fid params) as [fetched | e] eqn:Hfetch; [| done].
  simpl. f_equal.
  change (truncated (set_includeParents None params)) with (truncated params).
  change (truncated (set_includeParents (Some true) params)) with (truncated params).
  change (ordered (set_includeParents None params)) with (ordered params).
  change (ordered (set_includeParents (Some true) params)) with (ordered params).
  rewrite <- truncated_fmap. f_equal.
  unfold enriched at 2. simpl. rewrite list_fmap_id.
  rewrite (enriched_plain client fid (set_includeParents (Some true) params) fetched);
    [done | done | by rewrite primary_fetch_ignores_parents |].
  intros c. apply ordered_elem.
Qed.

Lemma parents_only_add_links_witness :
  fetchCasts reply_client 3 with_parents =
    bind (fetchCasts reply_client 3 (set_includeParents None with_parents))
         (λ casts, Ok (attach_by (parent_of reply_client) <$> casts)) ∧
  (parentCast <$> default [] (match fetchCasts reply_client 3 with_parents with
                              | Ok casts => Some casts
                              | Throw _ => None
                              end)) =
    [None; Some (VObject (transformCast c2)); Some (VObject (transformCast c1))].
Proof.
  split; [| vm_compute; reflexivity].
  apply (proj2 (parents_only_add_links reply_client 3 with_parents)).
  intros page raw h Hpage Hraw Hh.
  apply elem_of_cons in Hpage as [[= ->] | Hpage]; [| by apply elem_of_nil in Hpage].
  repeat (apply elem_of_cons in Hraw as [-> | Hraw];
          [injection Hh as <-; apply (hex_is_plain _) |]).
  by apply elem_of_nil in Hraw.
Defined.

End FetchMore.

(** ** More on the client *)
Module ClientMore.
Import Sdk.

Lemma pretty_N_go_grows (x : N) : ∀ s, (String.length s ≤ String.length (pretty_N_go x s))%nat.
Proof.
  induction (N.lt_wf_0 x) as [x _ IH]; intros s.
  destruct (decide (0 < x)%N) as [Hpos | Hzero].
  - rewrite pretty_N_go_step by done.
    etransitivity; [| apply IH; by apply N.div_lt]. simpl. lia.
  - replace x with 0%N by lia. by rewrite pretty_N_go_0.
Qed.

(** The decimal form of an integer is never the empty string. *)
Lemma toString_nonempty (n : Z) : toString n ≠ "".
Proof.
  assert (Hpos : ∀ p : positive, pretty (N.pos p) ≠ "").
  { intros p. unfold pretty, pretty_N. rewrite decide_False by done.
    rewrite pretty_N_go_step by lia. intros Hempty.
    pose proof (pretty_N_go_grows (N.pos p `div` 10)
                  (String (pretty_N_char (N.pos p `mod` 10)) "")) as Hlen.
    rewrite Hempty in Hlen. simpl in Hlen. lia. }
  unfold toString, pretty, pretty_Z. destruct n as [| p | p]; [done | apply Hpos | done].
Qed.

Lemma orS_nonempty (s d : string) : s ≠ "" → orS (Some s) d = s.
Proof. by destruct s. Qed.

(** X17. The pricing fingerprint does not tell a fid from a user name that
    is spelled with the same digits: the request for the fid [n] and the
    request for the user named by the decimal form of [n] have the same
    fingerprint, and so share one cached estimate. *)
Theorem fingerprint_conflates_fid_and_digits (n : Z) (options : FarcasterQueryParams) :
  getPricingFingerprint (set_fid (Some n) options) =
  getPricingFingerprint (set_fid None (set_username (Some (toString n)) options)).
Proof.
  unfold getPricingFingerprint. cbn -[orS toString join].
  by rewrite !(orS_nonempty (toString n)) by apply toString_nonempty.
Qed.

Section Client.
Variable URLSearchParams_toString : list (string * string) → string.
Variable wrapFetchWithPayment : FetchFn → EvmSigner → FetchFn.
Variable globalThis_fetch : FetchFn.
Variable DEFAULT_BASE_URL : string.

Local Abbreviation new_client :=
  (new_LlmFidClient wrapFetchWithPayment globalThis_fetch DEFAULT_BASE_URL).
Local Abbreviation fetch := (Sdk.fetch URLSearchParams_toString).
Local Abbreviation getServerEstimate := (Sdk.getServerEstimate URLSearchParams_toString).
Local Abbreviation estimate_request := (Sdk.estimate_request URLSearchParams_toString).
Local Abbreviation buildQueryString := (Sdk.buildQueryString URLSearchParams_toString).

Lemma getServerEstimate_not_fresh c options now_check now_store estimateCache w :
  isFreeTier options = false →
  fresh_estimate estimateCache options now_check = false →
  getServerEstimate c options now_check now_store estimateCache w =
  estimate_request c options (getPricingFingerprint options) now_store estimateCache w.
Proof.
  intros Hpaid Hstale. unfold Sdk.getServerEstimate, fresh_estimate in *. rewrite Hpaid.
  destruct (estimateCache !! getPricingFingerprint options) as [slot |]; [| done].
  by rewrite Hstale.
Qed.

(** X18. An estimate obtained from the server is served from the estimate
    cache for the next 60000 ms: every request with the same pricing
    fingerprint that is not free (for one, the same request with another
    sort order) gets the same estimate without a network request, by
    whatever client holds the cache; from 60000 ms on the estimate is
    requested again. *)
Theorem estimate_is_cached_for_a_minute (c : LlmFidClient) (options : FarcasterQueryParams)
    (now_check now_store : Z) (estimateCache estimateCache' : gmap string EstimateSlot)
    (w w' : World) (estimate : ServerEstimate) :
  isFreeTier options = false →
  fresh_estimate estimateCache options now_check = false →
  getServerEstimate c options now_check now_store estimateCache w =
    (Ok (Some estimate), estimateCache', w') →
  (∀ c' options' (t t' : Z) w'',
     getPricingFingerprint options' = getPricingFingerprint options →
     isFreeTier options' = false →
     getServerEstimate c' options' t t' estimateCache' w'' =
       if t - now_store <? ESTIMATE_CACHE_TTL
       then (Ok (Some estimate), estimateCache', w'')
       else estimate_request c' options' (getPricingFingerprint options) t' estimateCache' w'') ∧
  (∀ o, getPricingFingerprint (set_sortOrder o options) = getPricingFingerprint options ∧
        isFreeTier (set_sortOrder o options) = false).
Proof.
  intros Hpaid Hstale Hfirst.
  rewrite getServerEstimate_not_fresh in Hfirst by done.
  unfold Sdk.estimate_request in Hfirst.
  destruct (baseFetchFn c _ w) as [[response | e] w1]; simpl in Hfirst; [| done].
  destruct (resp_ok response); simpl in Hfirst; [| done].
  unfold json in Hfirst. destruct (resp_json response) as [est |]; simpl in Hfirst; [| done].
  injection Hfirst as <- <- <-.
  split; [| by intros o].
  intros c' options' t t' w'' Hsame Hpaid'.
  unfold Sdk.getServerEstimate. rewrite Hpaid', Hsame, lookup_insert_eq. simpl.
  by destruct (t - now_store <? ESTIMATE_CACHE_TTL).
Qed.

(** X19. Estimates are never paid for: the estimate is requested through
    the base transport, so that, with or without a signer, a
    payment-required response to the estimate request is answered by null
    after this one request, and nothing is cached. *)
Theorem estimate_request_is_never_paid config (options : FarcasterQueryParams)
    (now_check now_store : Z) (estimateCache : gmap string EstimateSlot)
    (w w' : World) (response : Response) :
  isFreeTier options = false →
  fresh_estimate estimateCache options now_check = false →
  let c := new_client config in
  default globalThis_fetch (cfg_fetch config)
          (baseUrl c +:+ "/estimate?" +:+ buildQueryString options) w = (Ok response, w') →
  resp_status response = 402 →
  getServerEstimate c options now_check now_store estimateCache w =
    (Ok None, estimateCache, w').
Proof.
  intros Hpaid Hstale c Hsend Hstatus. subst c.
  rewrite getServerEstimate_not_fresh by done.
  assert (Hbase : baseFetchFn (new_client config) =
                  default globalThis_fetch (cfg_fetch config)) by done.
  unfold Sdk.estimate_request. rewrite Hbase, Hsend. simpl.
  unfold resp_ok. rewrite Hstatus. done.
Qed.

End Client.

Lemma estimate_is_cached_for_a_minute_witness :
  let c := new_LlmFidClient retry_with_payment offline "https://api.llm-fid.fun"
             estimator_config in
  let first := Sdk.getServerEstimate plain_query c hundred 1000 1001 ∅ [] in
  first.1.1 = Ok (Some quote) ∧
  Sdk.getServerEstimate plain_query c (set_sortOrder (Some oldest) hundred)
      61000 61001 first.1.2 first.2 =
    (Ok (Some quote), first.1.2, first.2).
Proof.
  intros c first. split; [reflexivity |].
  destruct (estimate_is_cached_for_a_minute plain_query c hundred 1000 1001 ∅
              first.1.2 [] first.2 quote) as [Hcached _];
    [reflexivity | reflexivity | reflexivity |].
  rewrite (Hcached c (set_sortOrder (Some oldest) hundred) 61000 61001 first.2)
    by reflexivity.
  reflexivity.
Defined.

Lemma estimate_request_is_never_paid_witness :
  let c := new_LlmFidClient retry_with_payment offline "https://api.llm-fid.fun"
             wallet_config in
  Sdk.getServerEstimate plain_query c hundred 1000 1001 ∅ [] =
    (Ok None, ∅, ["https://api.test.com/estimate?username=vitalik&limit=100"]) ∧
  (Sdk.fetch plain_query c hundred []).2 =
    ["https://api.test.com?username=vitalik&limit=100";
     "https://api.test.com?username=vitalik&limit=100&payment=0xsigned"].
Proof.
  intros c. split; [| reflexivity].
  apply (estimate_request_is_never_paid plain_query retry_with_payment offline
           "https://api.llm-fid.fun" wallet_config hundred 1000 1001 ∅ []
           ["https://api.test.com/estimate?username=vitalik&limit=100"]
           {| resp_status := 402; resp_text := "payment required"; resp_json := None |});
    reflexivity.
Defined.

End ClientMore.

(** ** More on the request handler *)
Module HandlerMore.
Import Server.

(** X20. The handler answers with one of the statuses 200, 302, 400 and
    500; it redirects exactly the requests without any query parameter; and
    an answer that is a redirect or a 400 is given before any lookup: the
    cache is left as it is, and the answer is the same whatever the provider
    and the clock are. *)
Theorem handler_rejects_before_any_lookup (Number : string → option Z) client
    (q : gmap string string) (now_get now_set : Z) (cache : gmap string (CacheItem Z)) :
  let answer := app_get Number client q now_get now_set cache in
  http_status answer.1 ∈ [200; 302; 400; 500] ∧
  (http_status answer.1 = 302 ↔ q = ∅) ∧
  (http_status answer.1 = 302 ∨ http_status answer.1 = 400 →
   answer.2 = cache ∧
   ∀ client' t t', app_get Number client' q t t' cache = answer).
Proof.
  intros answer. subst answer. unfold app_get.
  case_bool_decide as Hempty; [simpl; split; [set_solver | done] |].
  destruct (negb (truthyS (q !! "fid")) && negb (truthyS (q !! "username")));
    [simpl; split; [set_solver | split; [done | done]] |].
  destruct (truthyS (q !! "fid")).
  - destruct (Number (default "" (q !! "fid"))) as [n |];
      [| simpl; split; [set_solver | split; [done | done]]].
    destruct (n <=? 0); [simpl; split; [set_solver | split; [done | done]] |].
    destruct (truthyS (q !! "limit") && _);
      [simpl; split; [set_solver | split; [done | done]] |].
    destruct (truthyS (q !! "sortOrder") && _);
      [simpl; split; [set_solver | split; [done | done]] |].
    destruct (fetchUserData client _ _ now_get now_set cache) as [[d | e] cache'];
      simpl; (split; [set_solver | split; [done | intros [? | ?]; done]]).
  - destruct (truthyS (q !! "limit") && _);
      [simpl; split; [set_solver | split; [done | done]] |].
    destruct (truthyS (q !! "sortOrder") && _);
      [simpl; split; [set_solver | split; [done | done]] |].
    destruct (fetchUserData client _ _ now_get now_set cache) as [[d | e] cache'];
      simpl; (split; [set_solver | split; [done | intros [? | ?]; done]]).
Qed.

Lemma handler_rejects_before_any_lookup_witness :
  app_get Number_decimal sample_client {[ "username" := "alice"; "limit" := "ten" ]} 5 6 ∅ =
    (Text "Invalid limit" 400, ∅) ∧
  app_get Number_decimal
      {| lookupUserByUsername := λ _, Throw (Error "offline");
         fetchBulkUsers := λ _, Ok [];
         fetchCastsForUser := λ _ _, [];
         lookupCastByHashOrUrl := λ _, Ok None |}
      {[ "username" := "alice"; "limit" := "ten" ]} 7 8 ∅ =
    app_get Number_decimal sample_client {[ "username" := "alice"; "limit" := "ten" ]} 5 6 ∅.
Proof.
  split; [vm_compute; reflexivity |].
  apply (proj2 (proj2 (proj2 (handler_rejects_before_any_lookup Number_decimal sample_client
                  {[ "username" := "alice"; "limit" := "ten" ]} 5 6 ∅)) ltac:(right; vm_compute; reflexivity))).
Defined.

(** The text of a cast does not show its parent link. *)
Lemma formatCast_ignores_parent b (i : nat) (c : FarcasterCast) :
  formatCast b i (unlinked c) = formatCast b i c.
Proof. done. Qed.

Lemma formatTextOutput_ignores_parents user (casts : list FarcasterCast) params b :
  formatTextOutput {| data_user := user; data_casts := unlinked <$> casts;
                      data_params := Some (set_includeParents b params) |} =
  formatTextOutput {| data_user := user; data_casts := casts; data_params := Some params |}.
Proof.
  destruct casts as [| c casts]; [done |].
  assert (Himap : imap (formatCast (truthy (includeReactions params)))
                       (unlinked <$> c :: casts)
                  = imap (formatCast (truthy (includeReactions params))) (c :: casts)).
  { rewrite imap_fmap. apply imap_ext. intros i x _. apply formatCast_ignores_parent. }
  unfold formatTextOutput.
  change (data_casts {| data_user := user; data_casts := unlinked <$> c :: casts;
                        data_params := Some (set_includeParents b params) |})
    with (unlinked c :: (unlinked <$> casts)).
  cbn -[imap join formatCast toString String.append nl orS truthyS unlinked].
  rewrite <- fmap_cons. by rewrite Himap.
Qed.

Lemma respond_ignores_parents client (ident : Z + string) params b
    (now_get now_set : Z) (cache : gmap string (CacheItem Z)) :
  (let '(fetched, cache') :=
     fetchUserData client ident (set_includeParents b params) now_get now_set cache in
   match fetched with
   | Ok d => (Text (formatTextOutput d) 200, cache')
   | Throw err => (Text ("Error: " +:+ message_of err) 500, cache')
   end) =
  (let '(fetched, cache') :=
     fetchUserData client ident (set_includeParents None params) now_get now_set cache in
   match fetched with
   | Ok d => (Text (formatTextOutput d) 200, cache')
   | Throw err => (Text ("Error: " +:+ message_of err) 500, cache')
   end).
Proof.
  unfold fetchUserData.
  destruct (match ident with
            | inl n => (Ok n, cache)
            | inr name => resolveFid client name now_get now_set cache
            end) as [[fid | e] cache']; [| done].
  simpl. destruct (fetchBulkUsers client [fid]) as [[| u users] | e]; [done | | done].
  simpl. rewrite (FetchMore.fetchCasts_unlinked client fid params b).
  destruct (fetchCasts client fid (set_includeParents b params)) as [casts | e]; [| done].
  simpl. do 2 f_equal. symmetry.
  apply (formatTextOutput_ignores_parents _ _ (set_includeParents b params) None).
Qed.

Lemma parsed_insert_parents Number (q : gmap string string) fid v :
  parsed Number (<["includeParents" := v]> q) fid =
  set_includeParents (Some (flag (Some v))) (parsed Number q fid).
Proof.
  unfold parsed, set_includeParents. simpl.
  rewrite lookup_insert_eq. by rewrite !lookup_insert_ne by done.
Qed.

(** X21. The answer of the handler does not depend on [includeParents]:
    whether the query asks for parents or not, and whatever the parent
    lookups return, the handler answers with the same status and the same
    text, and leaves the same cache. (With parents asked for, the parents
    are looked up, but the text shows none of them.) *)
Theorem answer_ignores_includeParents (Number : string → option Z) client
    (q : gmap string string) (v : string) (now_get now_set : Z)
    (cache : gmap string (CacheItem Z)) :
  q ≠ ∅ →
  app_get Number client (<["includeParents" := v]> q) now_get now_set cache =
  app_get Number client q now_get now_set cache.
Proof.
  intros Hne. unfold app_get.
  rewrite (bool_decide_eq_false_2 (<["includeParents" := v]> q = ∅))
    by apply insert_non_empty.
  rewrite (bool_decide_eq_false_2 (q = ∅)) by done.
  rewrite !(lookup_insert_ne q "includeParents") by done.
  destruct (negb (truthyS (q !! "fid")) && negb (truthyS (q !! "username"))); [done |].
  assert (Htail : ∀ fid : option Z,
    (let params := parsed Number (<["includeParents" := v]> q) fid in
     let ident : Z + string :=
       match fid with Some n => inl n | None => inr (orS (username params) "") end in
     let '(fetched, cache') := fetchUserData client ident params now_get now_set cache in
     match fetched with
     | Ok d => (Text (formatTextOutput d) 200, cache')
     | Throw err => (Text ("Error: " +:+ message_of err) 500, cache')
     end) =
    (let params := parsed Number q fid in
     let ident : Z + string :=
       match fid with Some n => inl n | None => inr (orS (username params) "") end in
     let '(fetched, cache') := fetchUserData client ident params now_get now_set cache in
     match fetched with
     | Ok d => (Text (formatTextOutput d) 200, cache')
     | Throw err => (Text ("Error: " +:+ message_of err) 500, cache')
     end)).
  { intros fid. cbv zeta. rewrite parsed_insert_parents.
    change (username (set_includeParents (Some (flag (Some v))) (parsed Number q fid)))
      with (username (parsed Number q fid)).
    rewrite respond_ignores_parents.
    change (parsed Number q fid)
      with (set_includeParents (includeParents (parsed Number q fid)) (parsed Number q fid)) at 3.
    by rewrite (respond_ignores_parents _ _ (parsed Number q fid)
                  (includeParents (parsed Number q fid))). }
  destruct (truthyS (q !! "fid")).
  - destruct (Number (default "" (q !! "fid"))) as [n |]; [| done].
    destruct (n <=? 0); [done |].
    destruct (truthyS (q !! "limit") && _); [done |].
    destruct (truthyS (q !! "sortOrder") && _); [done |].
    apply (Htail (Some n)).
  - destruct (truthyS (q !! "limit") && _); [done |].
    destruct (truthyS (q !! "sortOrder") && _); [done |].
    apply (Htail None).
Qed.

Lemma answer_ignores_includeParents_witness :
  app_get Number_decimal sample_client
      {[ "includeParents" := "true"; "fid" := "3"; "limit" := "2" ]} 5 6 ∅ =
  app_get Number_decimal sample_client {[ "fid" := "3"; "limit" := "2" ]} 5 6 ∅.
Proof.
  apply (answer_ignores_includeParents Number_decimal sample_client
           {[ "fid" := "3"; "limit" := "2" ]} "true" 5 6 ∅).
  vm_compute. discriminate.
Defined.

Lemma respond_ignores_username client (n : Z) params u
    (now_get now_set : Z) (cache : gmap string (CacheItem Z)) :
  (let '(fetched, cache') :=
     fetchUserData client (inl n) (set_username u params) now_get now_set cache in
   match fetched with
   | Ok d => (Text (formatTextOutput d) 200, cache')
   | Throw err => (Text ("Error: " +:+ message_of err) 500, cache')
   end) =
  (let '(fetched, cache') :=
     fetchUserData client (inl n) params now_get now_set cache in
   match fetched with
   | Ok d => (Text (formatTextOutput d) 200, cache')
   | Throw err => (Text ("Error: " +:+ message_of err) 500, cache')
   end).
Proof.
  unfold fetchUserData. simpl.
  destruct (fetchBulkUsers client [n]) as [[| user users] | e]; [done | | done].
  simpl. change (fetchCasts client n (set_username u params)) with (fetchCasts client n params).
  by destruct (fetchCasts client n params).
Qed.

Lemma fetchUserData_by_fid_keeps_cache client (n : Z) params
    (now_get now_set : Z) (cache : gmap string (CacheItem Z)) :
  (fetchUserData client (inl n) params now_get now_set cache).2 = cache.
Proof. done. Qed.

Lemma parsed_delete_username Number (q : gmap string string) fid :
  parsed Number (delete "username" q) fid = set_username None (parsed Number q fid).
Proof.
  unfold parsed, set_username. simpl.
  rewrite lookup_delete_eq. by rewrite !lookup_delete_ne by done.
Qed.

(** X22. A fid takes precedence over a user name: when the query carries a
    fid that reads as a positive number, the handler answers as it answers
    the same query without [username]; the name is not resolved, and the
    cache is left as it is. *)
Theorem fid_takes_precedence (Number : string → option Z) client
    (q : gmap string string) (n : Z) (now_get now_set : Z)
    (cache : gmap string (CacheItem Z)) :
  truthyS (q !! "fid") = true →
  Number (default "" (q !! "fid")) = Some n → 0 < n →
  app_get Number client q now_get now_set cache =
    app_get Number client (delete "username" q) now_get now_set cache ∧
  (app_get Number client q now_get now_set cache).2 = cache.
Proof.
  intros Hfid Hnum Hpos.
  assert (Hne : q ≠ ∅).
  { intros ->. by rewrite lookup_empty in Hfid. }
  assert (Hne' : delete "username" q ≠ ∅).
  { intros Hempty. assert (Hl : delete "username" q !! "fid" = None) by by rewrite Hempty.
    rewrite lookup_delete_ne in Hl by done. by rewrite Hl in Hfid. }
  unfold app_get.
  rewrite (bool_decide_eq_false_2 (delete "username" q = ∅)) by done.
  rewrite (bool_decide_eq_false_2 (q = ∅)) by done.
  rewrite (lookup_delete_ne q "username" "fid") by done.
  rewrite (lookup_delete_ne q "username" "limit") by done.
  rewrite (lookup_delete_ne q "username" "sortOrder") by done.
  rewrite Hfid, Hnum. simpl.
  destruct (Z.leb_spec n 0); [lia |].
  destruct (truthyS (q !! "limit") && _); [done |].
  destruct (truthyS (q !! "sortOrder") && _); [done |].
  rewrite parsed_delete_username, respond_ignores_username.
  split; [done |].
  pose proof (fetchUserData_by_fid_keeps_cache client n (parsed Number q (Some n))
                now_get now_set cache) as Hcache.
  destruct (fetchUserData client (inl n) (parsed Number q (Some n)) now_get now_set cache)
    as [[d | e] cache']; by simpl in *.
Qed.

Lemma fid_takes_precedence_witness :
  app_get Number_decimal sample_client {[ "fid" := "3"; "username" := "ghost" ]} 5 6 ∅ =
  app_get Number_decimal sample_client (delete "username" {[ "fid" := "3"; "username" := "ghost" ]})
          5 6 ∅ ∧
  http_status (app_get Number_decimal sample_client
                 {[ "fid" := "3"; "username" := "ghost" ]} 5 6 ∅).1 = 200.
Proof.
  split; [| vm_compute; reflexivity].
  apply (fid_takes_precedence Number_decimal sample_client
           {[ "fid" := "3"; "username" := "ghost" ]} 3 5 6 ∅);
    [reflexivity | reflexivity | lia].
Defined.

End HandlerMore.

(** ** The client and the worker together *)
Module RoundTrip.
Import Sdk Server.

Lemma seg_other (c : bool) (k k' v : string) :
  k ≠ k' → (list_to_map (if c then [(k, v)] else []) : gmap string string) !! k' = None.
Proof. intros Hne. destruct c; simpl; [by rewrite lookup_insert_ne | done]. Qed.

Lemma seg_same (c : bool) (k v : string) :
  (list_to_map (if c then [(k, v)] else []) : gmap string string) !! k =
  if c then Some v else None.
Proof. destruct c; simpl; [by rewrite lookup_insert_eq | done]. Qed.

(** The entries of the query, as eight optional entries. *)
Lemma queryEntries_segments (options : FarcasterQueryParams) :
  queryEntries options =
  (if truthyZ (fid options) then [("fid", toString (default 0 (fid options)))] else []) ++
  (if truthyS (username options)
   then [("username", normal (default "" (username options)))] else []) ++
  (if truthyZ (limit options) && negb (truthy (all options))
   then [("limit", toString (default 0 (limit options)))] else []) ++
  (if truthy (all options) then [("all", "true")] else []) ++
  (if truthy (includeReplies options) then [("includeReplies", "true")] else []) ++
  (if truthy (includeParents options) then [("includeParents", "true")] else []) ++
  (if bool_decide (sortOrder options = Some oldest) then [("sortOrder", "oldest")] else []) ++
  (if truthy (includeReactions options) then [("includeReactions", "true")] else []).
Proof. unfold queryEntries. by destruct (sortOrder options) as [[] |]. Qed.

Ltac query_lookup :=
  unfold sent_query; rewrite queryEntries_segments;
  rewrite !list_to_map_app, !lookup_union;
  rewrite ?seg_same, ?seg_other by done;
  repeat match goal with |- context [if ?c then _ else _] => destruct c end; done.

Lemma sent_fid options :
  sent_query options !! "fid" =
  if truthyZ (fid options) then Some (toString (default 0 (fid options))) else None.
Proof. query_lookup. Qed.

Lemma sent_username options :
  sent_query options !! "username" =
  if truthyS (username options) then Some (normal (default "" (username options))) else None.
Proof. query_lookup. Qed.

Lemma sent_limit options :
  sent_query options !! "limit" =
  if truthyZ (limit options) && negb (truthy (all options))
  then Some (toString (default 0 (limit options))) else None.
Proof. query_lookup. Qed.

Lemma sent_all options :
  sent_query options !! "all" = if truthy (all options) then Some "true" else None.
Proof. query_lookup. Qed.

Lemma sent_includeReplies options :
  sent_query options !! "includeReplies" =
  if truthy (includeReplies options) then Some "true" else None.
Proof. query_lookup. Qed.

Lemma sent_includeParents options :
  sent_query options !! "includeParents" =
  if truthy (includeParents options) then Some "true" else None.
Proof. query_lookup. Qed.

Lemma sent_sortOrder options :
  sent_query options !! "sortOrder" =
  if bool_decide (sortOrder options = Some oldest) then Some "oldest" else None.
Proof. query_lookup. Qed.

Lemma sent_includeReactions options :
  sent_query options !! "includeReactions" =
  if truthy (includeReactions options) then Some "true" else None.
Proof. query_lookup. Qed.

Lemma queryEntries_keys options :
  (queryEntries options).*1 `sublist_of`
  ["fid"; "username"; "limit"; "all"; "includeReplies"; "includeParents";
   "sortOrder"; "includeReactions"].
Proof.
  rewrite queryEntries_segments, !fmap_app.
  change ["fid"; "username"; "limit"; "all"; "includeReplies"; "includeParents";
          "sortOrder"; "includeReactions"]
    with (["fid"] ++ ["username"] ++ ["limit"] ++ ["all"] ++ ["includeReplies"] ++
          ["includeParents"] ++ ["sortOrder"] ++ ["includeReactions"]).
  repeat apply sublist_app;
    match goal with |- context [if ?c then _ else _] => destruct c end;
    simpl; (reflexivity || apply sublist_nil_l).
Qed.

(** X23. The query that the client builds sets every key at most once, so
    that no [set] replaces another; it never carries a limit together with
    [all]; it carries a sort order only when the order is "oldest"; and it
    carries a user name in normal form only. *)
Theorem query_entries_are_consistent (options : FarcasterQueryParams) :
  NoDup (queryEntries options).*1 ∧
  ¬ (is_Some (sent_query options !! "limit") ∧ is_Some (sent_query options !! "all")) ∧
  (∀ v, sent_query options !! "sortOrder" = Some v →
        v = "oldest" ∧ sortOrder options = Some oldest) ∧
  (∀ v, sent_query options !! "username" = Some v →
        ∃ name, username options = Some name ∧ v = normal name) ∧
  (∀ k v, (k, v) ∈ queryEntries options ↔ sent_query options !! k = Some v).
Proof.
  assert (Hnodup : NoDup (queryEntries options).*1).
  { eapply sublist_NoDup; [| apply queryEntries_keys].
    apply (bool_decide_unpack _). by vm_compute. }
  split; [exact Hnodup |]. split; [| split; [| split]].
  - rewrite sent_limit, sent_all. intros [[v Hl] [v' Ha]].
    destruct (truthy (all options)); [| done].
    by rewrite andb_false_r in Hl.
  - intros v. rewrite sent_sortOrder. case_bool_decide; [| done]. by intros [= <-].
  - intros v. rewrite sent_username.
    destruct (username options) as [name |]; [| done].
    destruct (truthyS (Some name)); [| done]. intros [= <-]. by exists name.
  - intros k v. unfold sent_query. by apply elem_of_list_to_map.
Qed.

Lemma query_entries_are_consistent_witness :
  sent_query hundred !! "limit" = Some "100" ∧
  ("limit", "100") ∈ queryEntries hundred.
Proof.
  split; [vm_compute; reflexivity |].
  apply (proj2 (proj2 (proj2 (proj2 (query_entries_are_consistent hundred))))).
  vm_compute. reflexivity.
Defined.

Lemma fetchCasts_same client (f : Z) (p1 p2 : FarcasterQueryParams) :
  same_request p1 p2 → fetchCasts client f p1 = fetchCasts client f p2.
Proof.
  intros (Hall & Hlimit & Hreplies & Hparents & Hsort & _).
  unfold fetchCasts. rewrite Hall, Hreplies, Hparents, Hsort.
  destruct (truthy (all p2)) eqn:Hall2; [done |].
  by rewrite (Hlimit Hall).
Qed.

Lemma formatTextOutput_same user (casts : list FarcasterCast) (p1 p2 : FarcasterQueryParams) :
  truthy (includeReactions p1) = truthy (includeReactions p2) →
  formatTextOutput {| data_user := user; data_casts := casts; data_params := Some p1 |} =
  formatTextOutput {| data_user := user; data_casts := casts; data_params := Some p2 |}.
Proof.
  intros Hsame. unfold formatTextOutput.
  cbn [data_params data_user data_casts]. by rewrite Hsame.
Qed.

Lemma answer_same client (ident : Z + string) (p1 p2 : FarcasterQueryParams)
    (now_get now_set : Z) (cache : gmap string (CacheItem Z)) :
  same_request p1 p2 →
  answer_of (fetchUserData client ident p1 now_get now_set cache) =
  answer_of (fetchUserData client ident p2 now_get now_set cache).
Proof.
  intros Hsame. unfold fetchUserData.
  destruct (match ident with
            | inl n => (Ok n, cache)
            | inr name => resolveFid client name now_get now_set cache
            end) as [[f | e] cache']; [| done].
  unfold answer_of. simpl.
  destruct (fetchBulkUsers client [f]) as [[| u users] | e]; [done | | done].
  simpl. rewrite (fetchCasts_same client f p1 p2 Hsame).
  destruct (fetchCasts client f p2) as [casts | e]; [| done].
  simpl. do 2 f_equal. apply formatTextOutput_same. apply Hsame.
Qed.

Lemma answer_of_spec (r : Outcome UserData * gmap string (CacheItem Z)) :
  (let '(fetched, cache') := r in
   match fetched with
   | Ok d => (Text (formatTextOutput d) 200, cache')
   | Throw err => (Text ("Error: " +:+ message_of err) 500, cache')
   end) = answer_of r.
Proof. by destruct r as [[d | e] cache']. Qed.

Lemma truthyS_toString (n : Z) : truthyS (Some (toString n)) = true.
Proof.
  pose proof (ClientMore.toString_nonempty n). simpl. by destruct (toString n).
Qed.

(** What the handler parses out of the query of the client. *)
Lemma parsed_sent_query Number (options : FarcasterQueryParams) (f : option Z) :
  (∀ l, limit options = Some l → l ≠ 0 → truthy (all options) = false →
        0 < l ∧ Number (toString l) = Some l) →
  same_request (parsed Number (sent_query options) f) options.
Proof.
  intros Hlimit. unfold same_request, parsed.
  cbn [all limit includeReplies includeParents includeReactions sortOrder].
  rewrite sent_all, sent_limit, sent_includeReplies, sent_includeParents,
    sent_sortOrder, sent_includeReactions.
  assert (Hflag : ∀ b : bool, flag (if b then Some "true" else None) = b).
  { by intros []. }
  rewrite !Hflag. cbn [truthy].
  assert (Hid : ∀ b : bool, (if b then true else false) = b) by by intros [].
  repeat split; try (by destruct (truthy _)).
  - intros Hall. destruct (truthy (all options)); [done |].
    rewrite andb_true_r.
    destruct (limit options) as [l |] eqn:Hl; [| done]. simpl.
    destruct (Z.eqb_spec l 0) as [-> | Hne]; [done |]. simpl.
    destruct (Hlimit l eq_refl Hne eq_refl) as [_ ->]. simpl.
    by destruct (Z.eqb_spec l 0).
  - destruct (decide (sortOrder options = Some oldest)) as [Hold | Hold].
    + rewrite !(bool_decide_eq_true_2 (sortOrder options = Some oldest)) by done.
      by rewrite Hold.
    + rewrite !(bool_decide_eq_false_2 (sortOrder options = Some oldest)) by done.
      simpl. by destruct (sortOrder options) as [[] |].
Qed.

(** X24. The worker reads the query of the client as the client meant it:
    for a request whose fid and limit, where given and not 0, are positive
    and read back from their decimal form, and which names a user, the
    handler answers the query built by the client with the answer that
    [fetchUserData] gives on the options of the client themselves, for the
    fid if there is one and for the user name in normal form otherwise. *)
Theorem worker_reads_the_client_query (Number : string → option Z) client
    (options : FarcasterQueryParams) (now_get now_set : Z)
    (cache : gmap string (CacheItem Z)) :
  (∀ n, fid options = Some n → n ≠ 0 → 0 < n ∧ Number (toString n) = Some n) →
  (∀ l, limit options = Some l → l ≠ 0 → truthy (all options) = false →
        0 < l ∧ Number (toString l) = Some l) →
  truthyZ (fid options) || truthyS (normal <$> username options) = true →
  app_get Number client (sent_query options) now_get now_set cache =
  answer_of (fetchUserData client
               (if truthyZ (fid options) then inl (default 0 (fid options))
                else inr (normal (normal (default "" (username options)))))
               options now_get now_set cache).
Proof.
  intros Hfid Hlimit Hident.
  pose proof (parsed_sent_query Number options) as Hparsed.
  assert (Hne : sent_query options ≠ ∅).
  { intros Hempty.
    assert (Hf : sent_query options !! "fid" = None) by by rewrite Hempty.
    assert (Hu : sent_query options !! "username" = None) by by rewrite Hempty.
    rewrite sent_fid in Hf. rewrite sent_username in Hu.
    destruct (truthyZ (fid options)); [done |].
    destruct (username options) as [[| a u] |]; done. }
  assert (Hsorted :
    truthyS (if bool_decide (sortOrder options = Some oldest) then Some "oldest" else None) &&
    negb (bool_decide ((if bool_decide (sortOrder options = Some oldest)
                        then Some "oldest" else None : option string)
                       ∈ [Some "newest"; Some "oldest"])) = false).
  { destruct (bool_decide (sortOrder options = Some oldest)); [| done].
    rewrite bool_decide_eq_true_2; [done |].
    apply elem_of_cons. right. apply elem_of_cons. by left. }
  assert (Hlimited :
    truthyS (if truthyZ (limit options) && negb (truthy (all options))
             then Some (toString (default 0 (limit options))) else None) &&
    match Number (default "" (if truthyZ (limit options) && negb (truthy (all options))
                              then Some (toString (default 0 (limit options))) else None)) with
    | Some n => n <=? 0
    | None => true
    end = false).
  { destruct (limit options) as [l |] eqn:Hl; [| done]. simpl.
    destruct (Z.eqb_spec l 0) as [-> | Hnz]; [done |].
    destruct (truthy (all options)) eqn:Hall; [done |]. simpl.
    destruct (Hlimit l eq_refl Hnz eq_refl) as [Hpos ->].
    destruct (Z.leb_spec l 0); [lia |]. apply andb_false_r. }
  assert (Htail : ∀ f : option Z,
    (let '(fetched, cache') :=
       fetchUserData client
         match f with
         | Some n => inl n
         | None => inr (orS (username (parsed Number (sent_query options) f)) "")
         end (parsed Number (sent_query options) f) now_get now_set cache in
     match fetched with
     | Ok d => (Text (formatTextOutput d) 200, cache')
     | Throw err => (Text ("Error: " +:+ message_of err) 500, cache')
     end) =
    answer_of (fetchUserData client
                 match f with
                 | Some n => inl n
                 | None => inr (orS (username (parsed Number (sent_query options) f)) "")
                 end options now_get now_set cache)).
  { intros f. rewrite answer_of_spec. by apply answer_same, Hparsed. }
  unfold app_get. rewrite (bool_decide_eq_false_2 _ Hne).
  rewrite sent_fid, sent_limit, sent_sortOrder, Hlimited, Hsorted.
  destruct (fid options) as [n |] eqn:Hn; simpl truthyZ.
  - destruct (Z.eqb_spec n 0) as [-> | Hnz]; simpl negb.
    + (* the fid is 0: it is not sent *)
      cbn [truthyS negb andb default].
      rewrite sent_username.
      destruct (username options) as [[| a u] |] eqn:Hu; [done | | done].
      assert (Hnormal : truthyS (Some (normal (String a u))) = true).
      { simpl in Hident. by destruct (normal (String a u)). }
      change (truthyS (Some (String a u))) with true. cbn iota.
      change (default "" (Some (String a u))) with (String a u).
      rewrite Hnormal. cbn [negb]. rewrite (Htail None).
      unfold parsed at 1. cbn [username]. rewrite sent_username, Hu.
      change (truthyS (Some (String a u))) with true. cbn iota.
      change (default "" (Some (String a u))) with (String a u).
      cbn [fmap option_fmap option_map]. rewrite Hnormal.
      by rewrite HandlerFacts.orS_some.
    + destruct (Hfid n eq_refl Hnz) as [Hpos Hread].
      pose proof (truthyS_toString n) as Ht.
      change (default 0 (Some n)) with n.
      change (default "" (Some (toString n))) with (toString n).
      rewrite Ht. cbn [truthyS] in Ht. rewrite Ht. cbn [negb andb]. rewrite Hread.
      destruct (Z.leb_spec n 0); [lia |]. apply (Htail (Some n)).
  - cbn [truthyS negb andb default].
    rewrite sent_username.
    destruct (username options) as [[| a u] |] eqn:Hu; [done | | done].
    assert (Hnormal : truthyS (Some (normal (String a u))) = true).
    { simpl in Hident. by destruct (normal (String a u)). }
    change (truthyS (Some (String a u))) with true. cbn iota.
    change (default "" (Some (String a u))) with (String a u).
    rewrite Hnormal. cbn [negb]. rewrite (Htail None).
    unfold parsed at 1. cbn [username]. rewrite sent_username, Hu.
    change (truthyS (Some (String a u))) with true. cbn iota.
    change (default "" (Some (String a u))) with (String a u).
    cbn [fmap option_fmap option_map]. rewrite Hnormal.
    by rewrite HandlerFacts.orS_some.
Qed.

Lemma worker_reads_the_client_query_witness :
  let options := set_sortOrder (Some oldest) (set_limit (Some 2)
                   (set_username (Some "@Alice") no_options)) in
  app_get Number_decimal sample_client (sent_query options) 5 6 ∅ =
    answer_of (fetchUserData sample_client (inr "alice") options 5 6 ∅) ∧
  http_status (app_get Number_decimal sample_client (sent_query options) 5 6 ∅).1 = 200.
Proof.
  intros options. split; [| vm_compute; reflexivity].
  apply (worker_reads_the_client_query Number_decimal sample_client options 5 6 ∅).
  - intros n Hn. discriminate Hn.
  - intros l [= <-] _ _. split; [lia | vm_compute; reflexivity].
  - reflexivity.
Defined.

End RoundTrip.

(** ** The other connectors *)
Module ConnectorFacts.

(** X25. The Bluesky classifier is the Farcaster classifier: a Bluesky
    request is free exactly when the Farcaster request with the same limit
    and flags is; and, for a request that gives a handle and no did, the
    two fingerprints are the same too. *)
Theorem bluesky_classifier_is_the_farcaster_one (b : Bsky.BlueskyQueryParams) :
  Bsky.isFreeTier b = Sdk.isFreeTier (as_farcaster b) ∧
  (truthyS (Bsky.did b) = false →
   Bsky.getPricingFingerprint b = Sdk.getPricingFingerprint (as_farcaster b)).
Proof.
  split; [done |]. intros Hdid.
  unfold Bsky.getPricingFingerprint, Sdk.getPricingFingerprint. simpl.
  by destruct (Bsky.did b) as [[| a d] |].
Qed.

Lemma bluesky_classifier_is_the_farcaster_one_witness :
  let b := {| Bsky.handle := Some "user.bsky.social"; Bsky.did := None;
              Bsky.limit := Some 100; Bsky.sortOrder := None;
              Bsky.includeReplies := None; Bsky.all := None;
              Bsky.includeReactions := Some true; Bsky.includeParents := None |} in
  Bsky.getPricingFingerprint b = "user.bsky.social|100|||x" ∧
  Sdk.getPricingFingerprint (as_farcaster b) = "user.bsky.social|100|||x".
Proof.
  intros b. split; [vm_compute; reflexivity |].
  rewrite <- (proj2 (bluesky_classifier_is_the_farcaster_one b) eq_refl).
  vm_compute. reflexivity.
Defined.

(** X26. An RSS request is free exactly when its limit, 10 if none is
    given, is at most 5, and neither everything nor the content is asked
    for; so a request that gives no limit is never free, while one with a
    limit from 1 to 5 and no extras is. The sort order plays no part. *)
Theorem rss_free_tier (o : Rss.RssQueryParams) :
  (Rss.isFreeTier o = true ↔
     orZ (Rss.limit o) 10 ≤ Rss.RSS_FREE_TIER_maxItems ∧
     truthy (Rss.all o) = false ∧ truthy (Rss.includeContent o) = false) ∧
  (Rss.limit o = None → Rss.isFreeTier o = false) ∧
  (∀ l, Rss.limit o = Some l → 0 < l ≤ 5 →
        truthy (Rss.all o) = false → truthy (Rss.includeContent o) = false →
        Rss.isFreeTier o = true).
Proof.
  assert (Hspec : Rss.isFreeTier o = true ↔
            orZ (Rss.limit o) 10 ≤ Rss.RSS_FREE_TIER_maxItems ∧
            truthy (Rss.all o) = false ∧ truthy (Rss.includeContent o) = false).
  { unfold Rss.isFreeTier, Rss.RSS_FREE_TIER_maxItems.
    destruct (Z.ltb_spec 5 (orZ (Rss.limit o) 10)).
    - split; [done | lia].
    - destruct (truthy (Rss.all o)), (truthy (Rss.includeContent o)); intuition congruence. }
  split; [exact Hspec |]. split.
  - intros Hnone. unfold Rss.isFreeTier. by rewrite Hnone.
  - intros l Hl Hrange Hall Hcontent. apply Hspec.
    rewrite Hl. simpl. destruct (Z.eqb_spec l 0); [lia |].
    unfold Rss.RSS_FREE_TIER_maxItems. repeat split; try done. lia.
Qed.

Lemma rss_free_tier_witness :
  Rss.isFreeTier {| Rss.url := "https://example.com/feed.xml"; Rss.limit := None;
                    Rss.all := None; Rss.includeContent := None;
                    Rss.sortOrder := None |} = false ∧
  Rss.isFreeTier {| Rss.url := "https://example.com/feed.xml"; Rss.limit := Some 5;
                    Rss.all := None; Rss.includeContent := None;
                    Rss.sortOrder := Some oldest |} = true.
Proof.
  split.
  - apply (proj1 (proj2 (rss_free_tier _))). reflexivity.
  - apply (proj2 (proj2 (rss_free_tier _)) 5); [reflexivity | lia | reflexivity | reflexivity].
Defined.

Lemma append_comma_semicolon (a b : string) : a +:+ "," +:+ b ≠ a +:+ ";" +:+ b.
Proof.
  induction a as [| c a IH]; simpl; [discriminate |].
  intros [= Heq]. by apply IH.
Qed.

(** X27. The fingerprint of a Git request does not separate the include
    patterns: the two patterns [a] and [b] have the fingerprint of the
    single pattern made of [a], ";" and [b], although the two requests have
    different queries; and an empty list of patterns has the fingerprint of
    an omitted one. *)
Theorem git_fingerprint_merges_patterns (o : Git.GitQueryParams) (a b : string) :
  Git.getPricingFingerprint (with_patterns (Some [a; b]) o) =
  Git.getPricingFingerprint (with_patterns (Some [a +:+ ";" +:+ b]) o) ∧
  Git.queryEntries (with_patterns (Some [a; b]) o) ≠
  Git.queryEntries (with_patterns (Some [a +:+ ";" +:+ b]) o) ∧
  Git.getPricingFingerprint (with_patterns (Some []) o) =
  Git.getPricingFingerprint (with_patterns None o).
Proof.
  split; [| split].
  - unfold Git.getPricingFingerprint, Git.joined, join. simpl. done.
  - unfold Git.queryEntries. simpl. intros Heq.
    repeat match type of Heq with
           | context [if ?c then _ else _] => destruct c
           end;
      simpl in Heq; simplify_eq;
      by eapply append_comma_semicolon.
  - done.
Qed.

End ConnectorFacts.
